(** * Streaming aggregation and audio reassembly of the voice relay

    A shallow embedding of [src/services/webhookService.js] (chunked stream
    reassembly, text extraction, sentence segmentation) and of the route
    handlers of the API router (progressive and aggregate pipelines, WAV
    recombination), with the properties of the specification stated over it.

    Conventions.
    - A JavaScript string is the list of its UTF-16 code units, each a [Z].
    - A [Buffer] is the list of its bytes, each a [Z] in [0, 255].
    - A JavaScript value is a [jsval]; a call that may throw returns a
      [result]. *)

From Stdlib Require Import ZArith List Bool Lia.
From Stdlib Require Ascii String.
Import ListNotations String.StringSyntax.
Delimit Scope string_scope with string.
Local Open Scope Z_scope.

Set Implicit Arguments.
Set Warnings "-register-all".


(** ** JavaScript strings *)

Module JS.

Definition jsstring := list Z.

(** A literal of the source, code unit by code unit (ASCII only). *)
Definition lit (s : String.string) : jsstring :=
  map (fun a => Z.of_N (Ascii.N_of_ascii a)) (String.list_ascii_of_string s).
Arguments lit s%_string.

Definition eqb (a b : jsstring) : bool :=
  if list_eq_dec Z.eq_dec a b then true else false.

(** ECMAScript WhiteSpace and LineTerminator code points: what
    [String.prototype.trim] strips and what [\s] matches. *)
Definition isWhiteSpace (c : Z) : bool :=
  ((9 <=? c) && (c <=? 13)) || (c =? 32) || (c =? 160) || (c =? 5760)
  || ((8192 <=? c) && (c <=? 8202)) || (c =? 8232) || (c =? 8233)
  || (c =? 8239) || (c =? 8287) || (c =? 12288) || (c =? 65279).

(** The longest prefix whose code units satisfy [p], and what follows it. *)
Fixpoint span (p : Z -> bool) (s : jsstring) : jsstring * jsstring :=
  match s with
  | [] => ([], [])
  | c :: s' =>
      if p c then let (a, b) := span p s' in (c :: a, b) else ([], s)
  end.

Fixpoint dropWhile (p : Z -> bool) (s : jsstring) : jsstring :=
  match s with
  | [] => []
  | c :: s' => if p c then dropWhile p s' else s
  end.

Definition trimStart (s : jsstring) : jsstring := dropWhile isWhiteSpace s.
Definition trimEnd (s : jsstring) : jsstring :=
  rev (dropWhile isWhiteSpace (rev s)).

(** [s.trim()] *)
Definition trim (s : jsstring) : jsstring := trimEnd (trimStart s).

(** What follows a run does not start with a code unit that satisfies [p]. *)
Definition stops (p : Z -> bool) (rest : jsstring) : Prop :=
  match rest with
  | [] => True
  | c :: _ => p c = false
  end.

(** Truthiness of a string: it is not empty. *)
Definition nonEmpty (s : jsstring) : bool :=
  match s with [] => false | _ :: _ => true end.

(** [s.split(sep)] for a separator of one code unit. The empty string
    splits into one empty piece. *)
Fixpoint split (sep : Z) (s : jsstring) : list jsstring :=
  match s with
  | [] => [[]]
  | c :: s' =>
      if c =? sep then [] :: split sep s'
      else match split sep s' with
           | p :: ps => (c :: p) :: ps
           | [] => [[c]]
           end
  end.

(** [a.join(sep)] for strings. *)
Fixpoint join (sep : jsstring) (ps : list jsstring) : jsstring :=
  match ps with
  | [] => []
  | [p] => p
  | p :: ps' => p ++ sep ++ join sep ps'
  end.

(** [a.pop()]: the array without its last element, and that element
    ([None] stands for [undefined], on an empty array). *)
Definition pop (A : Type) (a : list A) : list A * option A :=
  match rev a with
  | [] => ([], None)
  | x :: r => (rev r, Some x)
  end.

Definition NL : Z := 10.

End JS.

Import JS.

(** ** [Buffer.prototype.toString('utf8')] *)

Module Utf8.

(** The decoder of the platform, as the WHATWG Encoding Standard gives it:
    an ill-formed or truncated sequence decodes to U+FFFD, one per maximal
    subpart, and the byte that ends an ill-formed sequence is decoded again
    on its own. *)
Record decoder := {
  code_point : Z;
  bytes_seen : Z;
  bytes_needed : Z;
  lower : Z;
  upper : Z
}.

Definition start : decoder :=
  {| code_point := 0; bytes_seen := 0; bytes_needed := 0;
     lower := 128; upper := 191 |}.

Definition REPLACEMENT : Z := 65533.

(** UTF-16 code units of a scalar value. *)
Definition units (cp : Z) : jsstring :=
  if cp <? 65536 then [cp]
  else [55296 + Z.shiftr (cp - 65536) 10; 56320 + Z.land (cp - 65536) 1023].

(** A byte met when no sequence is pending. *)
Definition lead (b : Z) : decoder * jsstring :=
  if (0 <=? b) && (b <=? 127) then (start, [b])
  else if (194 <=? b) && (b <=? 223) then
    ({| code_point := Z.land b 31; bytes_seen := 0; bytes_needed := 1;
        lower := 128; upper := 191 |}, [])
  else if (224 <=? b) && (b <=? 239) then
    ({| code_point := Z.land b 15; bytes_seen := 0; bytes_needed := 2;
        lower := if b =? 224 then 160 else 128;
        upper := if b =? 237 then 159 else 191 |}, [])
  else if (240 <=? b) && (b <=? 244) then
    ({| code_point := Z.land b 7; bytes_seen := 0; bytes_needed := 3;
        lower := if b =? 240 then 144 else 128;
        upper := if b =? 244 then 143 else 191 |}, [])
  else (start, [REPLACEMENT]).

Definition step (d : decoder) (b : Z) : decoder * jsstring :=
  if bytes_needed d =? 0 then lead b
  else if (lower d <=? b) && (b <=? upper d) then
    let cp := Z.lor (Z.shiftl (code_point d) 6) (Z.land b 63) in
    if bytes_seen d + 1 =? bytes_needed d then (start, units cp)
    else ({| code_point := cp; bytes_seen := bytes_seen d + 1;
             bytes_needed := bytes_needed d; lower := 128; upper := 191 |}, [])
  else let (d', out) := lead b in (d', REPLACEMENT :: out).

(** End of the input: a pending sequence is one more U+FFFD. *)
Definition flush (d : decoder) : jsstring :=
  if bytes_needed d =? 0 then [] else [REPLACEMENT].

Fixpoint run (d : decoder) (bytes : list Z) : decoder * jsstring :=
  match bytes with
  | [] => (d, [])
  | b :: bs =>
      let (d1, o1) := step d b in
      let (d2, o2) := run d1 bs in (d2, o1 ++ o2)
  end.

(** [buf.toString('utf8')] *)
Definition toString (bytes : list Z) : jsstring :=
  let (d, out) := run start bytes in out ++ flush d.

(** The bytes end on a character boundary: nothing is pending after them. *)
Definition complete (bytes : list Z) : Prop :=
  bytes_needed (fst (run start bytes)) = 0.

End Utf8.

(** ** JavaScript values

    The values that [JSON.parse] builds, and [undefined]. An object is the
    list of its own properties, each key once. *)

Inductive jsval :=
| JUndefined
| JNull
| JBool (b : bool)
| JNum (repr : jsstring)   (* a number, by the text that [String(n)] gives *)
| JStr (s : jsstring)
| JArr (items : list jsval)
| JObj (props : list (jsstring * jsval)).

(** Exceptions: [new Error(message)], a [TypeError] or [RangeError] of the
    platform, and [new Error(prefix + cause.message)]. *)
Inductive exn :=
| Error (message : jsstring)
| TypeError
| RangeError
| Wrapped (prefix : jsstring) (cause : exn).

Inductive result (A : Type) :=
| Ok (a : A)
| Throw (e : exn).
Arguments Ok {A} a.
Arguments Throw {A} e.

Definition bind (A B : Type) (r : result A) (k : A -> result B) : result B :=
  match r with
  | Ok a => k a
  | Throw e => Throw e
  end.

Declare Scope result_scope.
Delimit Scope result_scope with result.
Notation "x <- r ;; k" := (bind r (fun x => k))
  (at level 61, r at next level, right associativity) : result_scope.

(** [s.length] *)
Definition len (A : Type) (s : list A) : Z := Z.of_nat (length s).

(** Each element of a list through an [f] that may throw, in order, up
    to the first that throws. *)
Fixpoint map_result (A B : Type) (f : A -> result B) (array : list A)
  : result (list B) :=
  match array with
  | [] => Ok []
  | a :: rest =>
      match f a with
      | Throw e => Throw e
      | Ok b =>
          match map_result f rest with
          | Throw e => Throw e
          | Ok bs => Ok (b :: bs)
          end
      end
  end.

Module Val.

(** ToBoolean *)
Definition truthy (v : jsval) : bool :=
  match v with
  | JUndefined | JNull => false
  | JBool b => b
  | JNum r => negb (JS.eqb r (lit "0") || JS.eqb r (lit "NaN"))
  | JStr s => nonEmpty s
  | JArr _ | JObj _ => true
  end.

Fixpoint own (props : list (jsstring * jsval)) (k : jsstring) : option jsval :=
  match props with
  | [] => None
  | (k', v) :: ps => if JS.eqb k' k then Some v else own ps k
  end.

(** [v.k] for a key [k] that no prototype defines (such as [type],
    [content], [text], [message], [transcript], [result]): an own property
    of an object, [undefined] on any other value that has properties, a
    [TypeError] on [null] and [undefined]. *)
Definition get (v : jsval) (k : jsstring) : result jsval :=
  match v with
  | JUndefined | JNull => Throw TypeError
  | JObj props => Ok (match own props k with Some x => x | None => JUndefined end)
  | _ => Ok JUndefined
  end.

(** [a !== b] against a string constant. *)
Definition strictNeStr (v : jsval) (s : jsstring) : bool :=
  match v with
  | JStr t => negb (JS.eqb t s)
  | _ => true
  end.

Definition isString (v : jsval) : bool :=
  match v with JStr _ => true | _ => false end.

Definition hasOwn (props : list (jsstring * jsval)) (k : jsstring) : bool :=
  match own props k with Some _ => true | None => false end.

(** ToString, as string concatenation applies it. An object built by
    [JSON.parse] prints as [[object Object]], unless it has an own
    [toString] property, which is not callable: then no primitive is
    found and a [TypeError] is thrown. An array prints as its elements
    joined by commas, [null] and [undefined] elements as nothing. *)
Fixpoint toString (v : jsval) : result jsstring :=
  match v with
  | JUndefined => Ok (lit "undefined")
  | JNull => Ok (lit "null")
  | JBool true => Ok (lit "true")
  | JBool false => Ok (lit "false")
  | JNum r => Ok r
  | JStr s => Ok s
  | JObj props =>
      if hasOwn props (lit "toString") then Throw TypeError
      else Ok (lit "[object Object]")
  | JArr items =>
      let fix each (xs : list jsval) : result (list jsstring) :=
        match xs with
        | [] => Ok []
        | x :: xs' =>
            match (match x with
                   | JUndefined | JNull => Ok []
                   | _ => toString x
                   end) with
            | Throw e => Throw e
            | Ok s => match each xs' with
                      | Throw e => Throw e
                      | Ok ss => Ok (s :: ss)
                      end
            end
        end in
      match each items with
      | Ok ss => Ok (join (lit ",") ss)
      | Throw e => Throw e
      end
  end.

End Val.

(** ** Regular expressions

    The fragment of the regular expressions of the platform that the
    source uses, without the [u] flag: a character class matches one code
    unit; quantifiers apply to classes and are greedy; alternatives are
    tried from left to right; the matcher backtracks. *)

Module Regex.

Inductive regex :=
| Class (p : Z -> bool)               (* [[...]] *)
| Repeat (min : nat) (p : Z -> bool)  (* [[...]{min,}]; [[...]+] is [Repeat 1] *)
| Seq (a b : regex)                   (* [ab] *)
| Alt (a b : regex)                   (* [a|b] *)
| Ahead (p : Z -> bool).              (* [(?=[...])] *)

Section Matcher.

Variable A : Type.

(** A greedy repetition followed by [k]: one more code unit of the class
    first; when nothing matches that way, stop here, if [min] are read. *)
Fixpoint repeat_class (min : nat) (p : Z -> bool) (s : jsstring)
    (k : jsstring -> option A) : option A :=
  let stop := match min with O => k s | S _ => None end in
  match s with
  | c :: s' =>
      if p c then
        match repeat_class (pred min) p s' k with
        | Some r => Some r
        | None => stop
        end
      else stop
  | [] => stop
  end.

(** [r] at the start of [s], followed by [k] on what is left. *)
Fixpoint run (r : regex) (s : jsstring) (k : jsstring -> option A) : option A :=
  match r with
  | Class p =>
      match s with
      | c :: s' => if p c then k s' else None
      | [] => None
      end
  | Repeat min p => repeat_class min p s k
  | Seq a b => run a s (fun s' => run b s' k)
  | Alt a b =>
      match run a s k with
      | Some x => Some x
      | None => run b s k
      end
  | Ahead p =>
      match s with
      | c :: _ => if p c then k s else None
      | [] => None
      end
  end.

End Matcher.

(** The match of [r] that starts at the first code unit of [s]: its
    length. *)
Definition exec (r : regex) (s : jsstring) : option nat :=
  run r s (fun rest => Some (length s - length rest)%nat).

(** The loops below are for expressions that match no empty string, as
    the two expressions of the source are. *)

(** All matches from left to right, as the global flag gives them.
    [inside] counts the code units still covered by the match found last:
    the search resumes where that match ended. *)
Fixpoint match_from (r : regex) (inside : nat) (s : jsstring) : list jsstring :=
  match s with
  | [] => []
  | _ :: s' =>
      match inside with
      | S k => match_from r k s'
      | O =>
          match exec r s with
          | Some (S n) => firstn (S n) s :: match_from r n s'
          | _ => match_from r O s'
          end
      end
  end.

(** [s.match(r)] with the global flag: [None] is [null], when nothing
    matches. *)
Definition String_match (r : regex) (s : jsstring) : option (list jsstring) :=
  match match_from r O s with
  | [] => None
  | ms => Some ms
  end.

(** [s.split(r)]: [piece] is the piece being read, [inside] counts the
    code units of the current separator still to pass. *)
Fixpoint split_from (r : regex) (inside : nat) (piece : jsstring) (s : jsstring)
  : list jsstring :=
  match s with
  | [] => [piece]
  | c :: s' =>
      match inside with
      | S k => split_from r k piece s'
      | O =>
          match exec r s with
          | Some (S k) => piece :: split_from r k [] s'
          | _ => split_from r O (piece ++ [c]) s'
          end
      end
  end.

Definition String_split (r : regex) (s : jsstring) : list jsstring :=
  split_from r O [] s.

End Regex.

(** ** [src/services/webhookService.js] *)

Module Webhook.

(** *** [callWebhookStream]: the stream handlers *)

Section Stream.

(** [JSON.parse], a built-in of the platform: [None] when it throws. *)
Variable JSON_parse : jsstring -> option jsval.

(** The closure state of the promise: [buffer] and [responses]. *)
Record state := {
  buffer : jsstring;
  responses : list jsval
}.

Definition init : state := {| buffer := []; responses := [] |}.

(** [try { responses.push(JSON.parse(x)) } catch (e) { responses.push({ text: x.trim() }) }],
    guarded by [if (x.trim())]. The same code runs on each line and on the
    buffer left at the end. *)
Definition push_message (responses : list jsval) (x : jsstring) : list jsval :=
  if nonEmpty (trim x) then
    match JSON_parse x with
    | Some parsed => responses ++ [parsed]
    | None => responses ++ [JObj [(lit "text", JStr (trim x))]]
    end
  else responses.

(** The body of the ['data'] handler once the chunk is decoded. The array
    that [split] returns is never empty, so [pop] never gives [undefined]
    (lemma [pop_split]); the empty string stands in for it. *)
Definition on_text (st : state) (text : jsstring) : state :=
  let buffer := buffer st ++ text in
  let lines := split NL buffer in
  let (lines, last) := pop lines in
  {| buffer := match last with Some b => b | None => [] end;
     responses := fold_left push_message lines (responses st) |}.

(** [response.data.on('data', (chunk) => ...)] *)
Definition on_data (st : state) (chunk : list Z) : state :=
  on_text st (Utf8.toString chunk).

(** [response.data.on('end', () => ...)]: the value the promise resolves to. *)
Definition on_end (st : state) : list jsval :=
  push_message (responses st) (buffer st).

(** How the response stream finishes: ['end'], or ['error'] with its error. *)
Inductive finish :=
| End
| StreamError (e : exn).

(** The promise over a stream that delivers [chunks] and then finishes. *)
Definition consume (chunks : list (list Z)) (fin : finish) : result (list jsval) :=
  let st := fold_left on_data chunks init in
  match fin with
  | End => Ok (on_end st)
  | StreamError e => Throw e
  end.

(** [callWebhookStream], given what [axios.post] produced. A rejection of
    the returned promise is not caught by the [try] around it. *)
Definition callWebhookStream (posted : result (list (list Z) * finish))
  : result (list jsval) :=
  match posted with
  | Throw e => Throw (Wrapped (lit "Webhook call failed: ") e)
  | Ok (chunks, fin) => consume chunks fin
  end.

(** The reassembler in the words of the specification: the pieces of the
    pending buffer followed by the decoded chunk, all but the last emitted,
    the last kept. *)
Definition classify (piece : jsstring) : jsval :=
  match JSON_parse piece with
  | Some parsed => parsed
  | None => JObj [(lit "text", JStr (trim piece))]
  end.

Definition emitted (pieces : list jsstring) : list jsval :=
  map classify (filter (fun p => nonEmpty (trim p)) pieces).

Definition spec_pieces (pending : jsstring) (chunk : list Z) : list jsstring :=
  split NL (pending ++ Utf8.toString chunk).

Definition spec_step (pending : jsstring) (chunk : list Z) : list jsval * jsstring :=
  let pieces := spec_pieces pending chunk in
  (emitted (removelast pieces), last pieces []).

Definition spec_finish (pending : jsstring) : list jsval := emitted [pending].

End Stream.

(** A parser for the examples: it knows the line [null] and rejects
    every other. *)
Definition only_null (s : jsstring) : option jsval :=
  if JS.eqb s (lit "null") then Some JNull else None.

(** *** [extractTextFromResponse] *)

Local Open Scope result_scope.

Definition extractTextFromResponse (response : jsval) : result jsval :=
  type <- Val.get response (lit "type");;
  if Val.truthy type && Val.strictNeStr type (lit "item") then Ok JNull else
  content <- Val.get response (lit "content");;
  if Val.truthy content then Ok content else
  if Val.isString response then Ok response else
  text <- Val.get response (lit "text");;
  if Val.truthy text then Ok text else
  message <- Val.get response (lit "message");;
  if Val.truthy message then Ok message else
  Ok JNull.

(** The accumulation loop of the route handlers:
    [for (const r of webhookResponses) { const content = extractTextFromResponse(r); if (content) accumulatedText += content; }] *)
Fixpoint accumulate (accumulatedText : jsstring) (webhookResponses : list jsval)
  : result jsstring :=
  match webhookResponses with
  | [] => Ok accumulatedText
  | webhookResponse :: rest =>
      content <- extractTextFromResponse webhookResponse;;
      if Val.truthy content then
        s <- Val.toString content;;
        accumulate (accumulatedText ++ s) rest
      else accumulate accumulatedText rest
  end.

(** [response.k], [undefined] when the key is absent. *)
Definition field (response : jsval) (k : jsstring) : jsval :=
  match Val.get response k with
  | Ok v => v
  | Throw _ => JUndefined
  end.

(** The message is dropped: its [type] is truthy and is not ['item']. *)
Definition excluded (response : jsval) : bool :=
  Val.truthy (field response (lit "type"))
  && Val.strictNeStr (field response (lit "type")) (lit "item").

(** The text of a message that is kept: the first of [content] when
    truthy, the message when it is a string, [text] when truthy,
    [message] when truthy. *)
Definition pick (response : jsval) : jsval :=
  if Val.truthy (field response (lit "content")) then field response (lit "content")
  else if Val.isString response then response
  else if Val.truthy (field response (lit "text")) then field response (lit "text")
  else if Val.truthy (field response (lit "message")) then field response (lit "message")
  else JNull.

(** The claim read to the letter: a [type] that is there and is not
    ['item'] excludes the message; the text is the first field that is
    there. *)
Definition spec_excluded (response : jsval) : bool :=
  match response with
  | JObj props =>
      match Val.own props (lit "type") with
      | Some v => Val.strictNeStr v (lit "item")
      | None => false
      end
  | _ => false
  end.

Definition spec_pick (response : jsval) : jsval :=
  match response with
  | JObj props =>
      match Val.own props (lit "content") with
      | Some v => v
      | None =>
          match Val.own props (lit "text") with
          | Some v => v
          | None =>
              match Val.own props (lit "message") with
              | Some v => v
              | None => JNull
              end
          end
      end
  | JStr _ => response
  | _ => JNull
  end.

Definition spec_extractText (response : jsval) : jsval :=
  if spec_excluded response then JNull else spec_pick response.

(** Two messages for the examples: [{type: '', content: 'x'}] and
    [{content: '', text: 't'}]. *)
Definition empty_type : jsval :=
  JObj [(lit "type", JStr []); (lit "content", JStr (lit "x"))].

Definition empty_content : jsval :=
  JObj [(lit "content", JStr []); (lit "text", JStr (lit "t"))].

(** A content message of the backend: [{type: 'item', content}]. *)
Definition item (content : jsstring) : jsval :=
  JObj [(lit "type", JStr (lit "item")); (lit "content", JStr content)].

(** What a message other than [null] yields. *)
Definition extracted (response : jsval) : jsval :=
  if excluded response then JNull else pick response.

(** What [if (content) accumulatedText += content] appends: nothing for
    a falsy value, the string conversion of a truthy one, which throws
    when there is none. *)
Definition appended (content : jsval) : result jsstring :=
  if Val.truthy content then Val.toString content else Ok [].

(** Two more messages for the examples: [{content: 42}] and
    [{content: {toString: 1}}]. *)
Definition content_number : jsval :=
  JObj [(lit "content", JNum (lit "42"))].

Definition content_unprintable : jsval :=
  JObj [(lit "content", JObj [(lit "toString", JNum (lit "1"))])].

(** *** [splitIntoSentences] *)

(** [[.!?।॥)]] *)
Definition isTerminator (c : Z) : bool :=
  (c =? 46) || (c =? 33) || (c =? 63) || (c =? 2404) || (c =? 2405) || (c =? 41).

(** [[^.!?।॥)\n]] *)
Definition isSentenceChar (c : Z) : bool :=
  negb (isTerminator c || (c =? NL)).

(** [[A-Z]] *)
Definition isUpper (c : Z) : bool := (65 <=? c) && (c <=? 90).

(** [/[^.!?।॥)\n]+[.!?।॥)]+/g] *)
Definition sentence_re : Regex.regex :=
  Regex.Seq (Regex.Repeat 1 isSentenceChar) (Regex.Repeat 1 isTerminator).

(** [/\s{2,}|\s+(?=[A-Z])/] *)
Definition separator_re : Regex.regex :=
  Regex.Alt (Regex.Repeat 2 isWhiteSpace)
            (Regex.Seq (Regex.Repeat 1 isWhiteSpace) (Regex.Ahead isUpper)).

(** [.map(s => s.trim()).filter(s => s.length > 0)] *)
Definition trimmed_nonempty (sentences : list jsstring) : list jsstring :=
  filter (fun s => 0 <? len s) (map trim sentences).

(** The second, third and last attempts, on the trimmed text. *)
Definition split_fallbacks (text : jsstring) : list jsstring :=
  let sentences := split NL text in
  if 1 <? len sentences then trimmed_nonempty sentences
  else if 100 <? len text then
    let sentences := Regex.String_split separator_re text in
    if 1 <? len sentences then trimmed_nonempty sentences
    else [text]
  else [text].

Definition splitIntoSentences (text : jsstring) : list jsstring :=
  if negb (nonEmpty text) || (len (trim text) =? 0) then [] else
  let text := trim text in
  match Regex.String_match sentence_re text with
  | Some sentences =>
      if 0 <? len sentences then trimmed_nonempty sentences
      else split_fallbacks text
  | None => split_fallbacks text
  end.

(** The first stage as the specification words it: a run of code units
    that are not terminators, then a run of terminators, the terminators
    being [. ! ? । ॥] and nothing else. *)
Definition spec_isTerminator (c : Z) : bool :=
  (c =? 46) || (c =? 33) || (c =? 63) || (c =? 2404) || (c =? 2405).

Definition spec_sentence_re : Regex.regex :=
  Regex.Seq (Regex.Repeat 1 (fun c => negb (spec_isTerminator c)))
            (Regex.Repeat 1 spec_isTerminator).

Definition spec_first_stage (text : jsstring) : option (list jsstring) :=
  match Regex.String_match spec_sentence_re text with
  | Some sentences => Some (trimmed_nonempty sentences)
  | None => None
  end.

(** The matches of the first stage. *)
Definition sentence_matches (text : jsstring) : list jsstring :=
  Regex.match_from sentence_re O text.

(** The first stage of the code, alone. *)
Definition first_stage (text : jsstring) : option (list jsstring) :=
  match Regex.String_match sentence_re text with
  | Some sentences => Some (trimmed_nonempty sentences)
  | None => None
  end.

End Webhook.

(** ** WAV recombination of [POST /process-recording-audio] *)

Module Wav.

Local Open Scope result_scope.

(** [buffer[i]]: [None] is [undefined], outside the buffer. *)
Definition byteAt (buffer : list Z) (i : Z) : option Z :=
  if i <? 0 then None else nth_error buffer (Z.to_nat i).

(** [buffer[i] === b] *)
Definition byteIs (buffer : list Z) (i b : Z) : bool :=
  match byteAt buffer i with
  | Some x => x =? b
  | None => false
  end.

(** [buffer.readUInt32LE(offset)]: a [RangeError] unless the four bytes
    lie inside the buffer. *)
Definition readUInt32LE (buffer : list Z) (offset : Z) : result Z :=
  if (offset <? 0) || (len buffer <? offset + 4) then Throw RangeError
  else
    match skipn (Z.to_nat offset) buffer with
    | b0 :: b1 :: b2 :: b3 :: _ =>
        Ok (b0 + b1 * 2 ^ 8 + b2 * 2 ^ 16 + b3 * 2 ^ 24)
    | _ => Throw RangeError
    end.

(** [buffer.slice(start, end)] for [0 <= start]: both ends are clamped to
    the length of the buffer. *)
Definition slice (buffer : list Z) (start stop : Z) : list Z :=
  let start := Z.min start (len buffer) in
  let stop := Z.min stop (len buffer) in
  firstn (Z.to_nat (stop - start)) (skipn (Z.to_nat start) buffer).

(** The marker test of the scan: the bytes of ["data"] at [i]. *)
Definition isDataAt (buffer : list Z) (i : Z) : bool :=
  byteIs buffer i 100 && byteIs buffer (i + 1) 97
  && byteIs buffer (i + 2) 116 && byteIs buffer (i + 3) 97.

(** [for (let i = 0; i < buffer.length - 8; i++) { if (...) { ...; break; } }]
    with [todo] iterations left from index [i]. The result is
    [(dataChunkStart, dataChunkSize)], [(-1, 0)] when the loop runs out. *)
Fixpoint scan (buffer : list Z) (todo : nat) (i : Z) : result (Z * Z) :=
  match todo with
  | O => Ok (-1, 0)
  | S todo' =>
      if isDataAt buffer i then
        dataChunkSize <- readUInt32LE buffer (i + 4);;
        Ok (i + 8, dataChunkSize)
      else scan buffer todo' (i + 1)
  end.

Definition findDataChunk (buffer : list Z) : result (Z * Z) :=
  scan buffer (Z.to_nat (len buffer - 8)) 0.

(** The body of [for (const buffer of audioBuffers)]. *)
Definition appendAudioData (combinedAudioData buffer : list Z) : result (list Z) :=
  found <- findDataChunk buffer;;
  let (dataChunkStart, dataChunkSize) := found in
  if negb (dataChunkStart =? -1) && (0 <? dataChunkSize) then
    let audioData := slice buffer dataChunkStart (dataChunkStart + dataChunkSize) in
    Ok (combinedAudioData ++ audioData)
  else Ok combinedAudioData.

Fixpoint combine (combinedAudioData : list Z) (audioBuffers : list (list Z))
  : result (list Z) :=
  match audioBuffers with
  | [] => Ok combinedAudioData
  | buffer :: rest =>
      combined <- appendAudioData combinedAudioData buffer;;
      combine combined rest
  end.

(** Writing [src] into [target] from [offset] on, as [buf.write(string, offset)]
    and [src.copy(target, offset)] do: what does not fit is dropped. *)
Fixpoint blit (target : list Z) (offset : nat) (src : list Z) : list Z :=
  match target with
  | [] => []
  | t :: ts =>
      match offset with
      | S k => t :: blit ts k src
      | O =>
          match src with
          | [] => target
          | b :: bs => b :: blit ts O bs
          end
      end
  end.

Definition write (buffer : list Z) (s : jsstring) (offset : Z) : list Z :=
  blit buffer (Z.to_nat offset) s.

Definition le (width : nat) (value : Z) : list Z :=
  map (fun k => Z.land (Z.shiftr value (8 * Z.of_nat k)) 255) (seq 0 width).

(** [buf.writeUInt32LE(value, offset)] and [buf.writeUInt16LE(value, offset)]:
    a [RangeError] when the value does not fit or the bytes fall outside. *)
Definition writeUIntLE (width : nat) (buffer : list Z) (value offset : Z)
  : result (list Z) :=
  if (value <? 0) || (2 ^ (8 * Z.of_nat width) <=? value) then Throw RangeError
  else if (offset <? 0) || (len buffer <? offset + Z.of_nat width) then Throw RangeError
  else Ok (blit buffer (Z.to_nat offset) (le width value)).

Definition writeUInt32LE := writeUIntLE 4.
Definition writeUInt16LE := writeUIntLE 2.

(** [Buffer.alloc(size)] *)
Definition alloc (size : Z) : list Z := repeat 0 (Z.to_nat size).

Definition sampleRate : Z := 24000.
Definition numChannels : Z := 1.
Definition bitsPerSample : Z := 16.
Definition byteRate : Z := sampleRate * numChannels * (bitsPerSample / 8).
Definition blockAlign : Z := numChannels * (bitsPerSample / 8).

(** The header and the copy of the payload. *)
Definition buildWav (combinedAudioData : list Z) : result (list Z) :=
  let dataSize := len combinedAudioData in
  let fileSize := 36 + dataSize in
  let wavBuffer := alloc (44 + dataSize) in
  let wavBuffer := write wavBuffer (lit "RIFF") 0 in
  wavBuffer <- writeUInt32LE wavBuffer fileSize 4;;
  let wavBuffer := write wavBuffer (lit "WAVE") 8 in
  let wavBuffer := write wavBuffer (lit "fmt ") 12 in
  wavBuffer <- writeUInt32LE wavBuffer 16 16;;
  wavBuffer <- writeUInt16LE wavBuffer 1 20;;
  wavBuffer <- writeUInt16LE wavBuffer numChannels 22;;
  wavBuffer <- writeUInt32LE wavBuffer sampleRate 24;;
  wavBuffer <- writeUInt32LE wavBuffer byteRate 28;;
  wavBuffer <- writeUInt16LE wavBuffer blockAlign 32;;
  wavBuffer <- writeUInt16LE wavBuffer bitsPerSample 34;;
  let wavBuffer := write wavBuffer (lit "data") 36 in
  wavBuffer <- writeUInt32LE wavBuffer dataSize 40;;
  Ok (blit wavBuffer 44 combinedAudioData).

(** From the decoded TTS buffers to the WAV that is sent back. *)
Definition recombine (audioBuffers : list (list Z)) : result (list Z) :=
  combinedAudioData <- combine [] audioBuffers;;
  buildWav combinedAudioData.

(** What one segment contributes: the bytes its scan selects, nothing when
    the scan finds no marker or the declared length is not positive. *)
Definition payload (buffer : list Z) : list Z :=
  match findDataChunk buffer with
  | Ok (dataChunkStart, dataChunkSize) =>
      if negb (dataChunkStart =? -1) && (0 <? dataChunkSize)
      then slice buffer dataChunkStart (dataChunkStart + dataChunkSize)
      else []
  | Throw _ => []
  end.

(** The sum of the lengths of the payloads. *)
Definition total_length (payloads : list (list Z)) : Z :=
  fold_right (fun p acc => len p + acc) 0 payloads.

(** The 44 bytes of the header for a payload of [dataSize] bytes. *)
Definition header (dataSize : Z) : list Z :=
  lit "RIFF" ++ le 4 (36 + dataSize) ++ lit "WAVE"
  ++ lit "fmt " ++ le 4 16 ++ le 2 1 ++ le 2 numChannels
  ++ le 4 sampleRate ++ le 4 byteRate ++ le 2 blockAlign ++ le 2 bitsPerSample
  ++ lit "data" ++ le 4 dataSize.

(** The first offset at which the four marker bytes stand, anywhere in
    the buffer. *)
Definition markerAt (buffer : list Z) (p : nat) : Prop :=
  firstn 4 (skipn p buffer) = [100; 97; 116; 97].

Definition firstMarkerAt (buffer : list Z) (p : nat) : Prop :=
  markerAt buffer p /\ forall q, (q < p)%nat -> ~ markerAt buffer q.

Definition markerless (buffer : list Z) : Prop :=
  forall p, ~ markerAt buffer p.

(** Segments for the examples: a WAV of three payload bytes, a bare
    data chunk that declares two bytes and holds three, and a buffer
    without marker. *)
Definition segment_one : list Z :=
  lit "RIFF....WAVEfmt " ++ repeat 0 20 ++ lit "data" ++ [3; 0; 0; 0; 11; 12; 13].

Definition segment_two : list Z := lit "data" ++ [2; 0; 0; 0; 21; 22; 99].

Definition segment_none : list Z := lit "no marker in here".

End Wav.

(** ** The route handlers and [src/services/sttService.js] *)

Module Routes.

(** [req.file] of the upload middleware. *)
Record file := {
  file_buffer : list Z;
  mimetype : jsstring
}.

(** What the handlers read of a request; [None] is [undefined]. *)
Record request := {
  req_file : option file;
  query_language : option jsstring;
  body_language : option jsstring;
  query_sttModel : option jsstring;
  body_sttModel : option jsstring
}.

(** [sttOptions], once its undefined keys are deleted. *)
Record sttOptions := {
  language_code : option jsstring;
  model : option jsstring
}.

(** [a || b] on strings that may be undefined. *)
Definition orElse (a b : option jsstring) : option jsstring :=
  match a with
  | Some (_ :: _) => a
  | _ => b
  end.

Definition sttOptions_of (req : request) : sttOptions :=
  {| language_code := orElse (query_language req) (body_language req);
     model := orElse (query_sttModel req) (body_sttModel req) |}.

(** One element of [results]. [ttsBase64] is what
    [ttsService.convertTextToSpeech] resolved to, which nothing checks to
    be a string. *)
Record tts_entry := {
  sentenceIndex : Z;
  sentence : jsstring;
  ttsBase64 : jsval
}.

(** [value.substring(0, n)]: the method of a string. A value that
    [JSON.parse] built and that is not a string has no such method, and
    calling it throws a [TypeError], as reading it from [null] or
    [undefined] does. *)
Definition substring_to (n : nat) (value : jsval) : result jsstring :=
  match value with
  | JStr s => Ok (firstn n s)
  | _ => Throw TypeError
  end.

(** The events of the progressive endpoint, by name, with the fields of
    their payload that the pipeline computes (request identifier,
    timestamps and fixed messages left out). [tts_result] carries the
    entry with the full audio and the two numbers of [progress]; its
    preview is computed from the full audio and is left out. *)
Inductive event :=
| start
| stt_start
| stt_complete (sttText : jsval) (options : sttOptions)
| webhook_start
| webhook_complete (webhookResponseCount : Z)
| tts_start (totalSentences : Z) (accumulatedText : jsstring)
| tts_result (r : tts_entry) (progress : Z * Z)
| tts_error (index : Z) (text : jsstring) (error : exn)
| complete (totalSentences successCount : Z)
| error (e : exn).

(** The JSON bodies of the aggregate endpoint. *)
Inductive body :=
| failed (e : exn)
| succeeded (sttText : jsval) (options : sttOptions) (webhookResponseCount : Z)
    (accumulatedText : jsstring) (results fullResults : list tts_entry).

(** What a run does that the outside sees, in order: the requests to the
    three collaborators and the writes to the HTTP response. *)
Inductive effect :=
| STT_request (audio : list Z) (contentType : jsstring) (options : sttOptions)
| Webhook_request (message : jsval)
| TTS_request (text : jsstring)
| sendEvent (e : event)
| res_end
| res_json (status : Z) (b : body).

(** [sentence.trim().length < 2] *)
Definition tooShort (sentence : jsstring) : bool := len (trim sentence) <? 2.

Section Handlers.

(** The state of the outside world, and the three collaborators as
    transitions on it. *)
Variable World : Type.

(** [JSON.parse] *)
Variable JSON_parse : jsstring -> option jsval.

(** [axios.post] to the STT endpoint: [response.data], or the error of
    the request (time-out included). *)
Variable stt_post :
  World -> list Z -> jsstring -> sttOptions -> World * result jsval.

(** [axios.post] to the backend with [responseType: 'stream']: the chunks
    the body delivers and how it finishes, or the error of the request. *)
Variable webhook_post :
  World -> jsval -> World * result (list (list Z) * Webhook.finish).

(** [ttsService.convertTextToSpeech]: the value it resolves to, or the
    error it throws. The value is the base64 of the response body, or the
    first element of [audios] when the body is JSON, returned as it is:
    a string when the TTS API keeps to its format, any value otherwise. *)
Variable tts_service : World -> jsstring -> World * result jsval.

(** An asynchronous computation of a handler: from a world to the next,
    with the effects performed and a value or an exception. *)
Definition M (A : Type) : Type := World -> World * list effect * result A.

Definition ret (A : Type) (a : A) : M A := fun w => (w, [], Ok a).

Definition throw (A : Type) (e : exn) : M A := fun w => (w, [], Throw e).
Arguments throw {A} e.

Definition mbind (A B : Type) (m : M A) (k : A -> M B) : M B :=
  fun w =>
    let '(w1, l1, r) := m w in
    match r with
    | Ok a => let '(w2, l2, r2) := k a w1 in (w2, l1 ++ l2, r2)
    | Throw e => (w1, l1, Throw e)
    end.

(** [try { m } catch (e) { h e }] *)
Definition try_catch (A : Type) (m : M A) (h : exn -> M A) : M A :=
  fun w =>
    let '(w1, l1, r) := m w in
    match r with
    | Ok a => (w1, l1, Ok a)
    | Throw e => let '(w2, l2, r2) := h e w1 in (w2, l1 ++ l2, r2)
    end.

Definition perform (e : effect) : M unit := fun w => (w, [e], Ok tt).

Definition lift (A : Type) (r : result A) : M A := fun w => (w, [], r).

Declare Scope route_scope.
Delimit Scope route_scope with route.
Notation "x <- m ;; k" := (mbind m (fun x => k))
  (at level 61, m at next level, right associativity) : route_scope.
Notation "m ;; k" := (mbind m (fun _ => k))
  (at level 61, right associativity) : route_scope.
Local Open Scope route_scope.

(** [sttService.convertAudioToText]. The log line
    [`[STT] Transcript: "${text}"`] converts the text to a string, inside
    the [try]: a [TypeError] when the text has no string conversion. *)
Definition convertAudioToText (audioBuffer : list Z) (mimeType : jsstring)
    (options : sttOptions) : M jsval :=
  try_catch
    (perform (STT_request audioBuffer mimeType options);;
     data <- (fun w => let (w', r) := stt_post w audioBuffer mimeType options in
                       (w', [], r));;
     transcript <- lift (Val.get data (lit "transcript"));;
     text <- (if Val.truthy transcript then ret transcript
              else
                text <- lift (Val.get data (lit "text"));;
                if Val.truthy text then ret text
                else lift (Val.get data (lit "result")));;
     if negb (Val.truthy text)
     then throw (Error (lit "No transcript returned from STT API"))
     else
       (* the log line converts the text to a string *)
       lift (Val.toString text);;
       ret text)
    (fun error => throw (Wrapped (lit "STT conversion failed: ") error)).

(** [webhookService.callWebhookStream] on the backend. *)
Definition callWebhookStream (text : jsval) : M (list jsval) :=
  perform (Webhook_request text);;
  posted <- (fun w => let (w', r) := webhook_post w text in (w', [], Ok r));;
  lift (Webhook.callWebhookStream JSON_parse posted).

(** [ttsService.convertTextToSpeech] *)
Definition convertTextToSpeech (text : jsstring) : M jsval :=
  perform (TTS_request text);;
  fun w => let (w', r) := tts_service w text in (w', [], r).

(** [req.file.mimetype || 'audio/wav'] *)
Definition mimeType_of (f : file) : jsstring :=
  if nonEmpty (mimetype f) then mimetype f else lit "audio/wav".

(** The loop of [POST /process-recording-stream] from index [i] on, with
    [successCount] so far; [total] is [sentences.length].

    [successCount] is a variable of the handler, so the [catch] block
    and the rest of the loop see the value it has when the exception is
    thrown: the old one when [convertTextToSpeech] throws, the
    incremented one when the payload of [tts_result] throws, which
    [ttsBase64.substring(0, 100)] does when the value is not a string.
    [caught] is the [catch] block; the inner [try_catch] is the part of
    the [try] block that follows [successCount++]. *)
Fixpoint stream_loop (total i successCount : Z) (rest : list jsstring) : M Z :=
  match rest with
  | [] => ret successCount
  | sentence :: rest' =>
      if tooShort sentence then stream_loop total (i + 1) successCount rest'
      else
        let caught := fun (successCount : Z) (error : exn) =>
          perform (sendEvent (tts_error (i + 1) sentence error));;
          ret successCount in
        successCount <-
          try_catch
            (ttsBase64 <- convertTextToSpeech sentence;;
             let successCount := successCount + 1 in
             try_catch
               (lift (substring_to 100 ttsBase64);;
                perform (sendEvent
                  (tts_result {| sentenceIndex := successCount;
                                 sentence := sentence;
                                 ttsBase64 := ttsBase64 |}
                              (successCount, total)));;
                ret successCount)
               (caught successCount))
            (caught successCount);;
        stream_loop total (i + 1) successCount rest'
  end.

(** [POST /process-recording-stream]. The log line
    [`STT Result: "${sttText}"`] converts the transcript to a string, as
    it does in the other handlers. *)
Definition process_recording_stream (req : request) : M unit :=
  try_catch
    (match req_file req with
     | None =>
         perform (sendEvent (error (Error (lit "No audio file provided"))));;
         perform res_end
     | Some f =>
         perform (sendEvent start);;
         let sttOptions := sttOptions_of req in
         perform (sendEvent stt_start);;
         sttText <- convertAudioToText (file_buffer f) (mimeType_of f) sttOptions;;
         lift (Val.toString sttText);;
         perform (sendEvent (stt_complete sttText sttOptions));;
         perform (sendEvent webhook_start);;
         webhookResponses <- callWebhookStream sttText;;
         perform (sendEvent (webhook_complete (len webhookResponses)));;
         accumulatedText <- lift (Webhook.accumulate [] webhookResponses);;
         let sentences := Webhook.splitIntoSentences accumulatedText in
         perform (sendEvent (tts_start (len sentences) accumulatedText));;
         successCount <- stream_loop (len sentences) 0 0 sentences;;
         perform (sendEvent (complete (len sentences) successCount));;
         perform res_end
     end)
    (fun e =>
       perform (sendEvent (error e));;
       perform res_end).

(** The loop of [POST /process-recording], with [results] so far. *)
Fixpoint aggregate_loop (i : Z) (results : list tts_entry) (rest : list jsstring)
  : M (list tts_entry) :=
  match rest with
  | [] => ret results
  | sentence :: rest' =>
      if tooShort sentence then aggregate_loop (i + 1) results rest'
      else
        ttsBase64 <- convertTextToSpeech sentence;;
        aggregate_loop (i + 1)
          (results ++ [{| sentenceIndex := len results + 1;
                          sentence := sentence;
                          ttsBase64 := ttsBase64 |}])
          rest'
  end.

(** The preview of an entry, with
    [r.ttsBase64.substring(0, 100) + '...'] for audio: a [TypeError] when
    the audio is not a string. *)
Definition preview (r : tts_entry) : result tts_entry :=
  match substring_to 100 (ttsBase64 r) with
  | Ok s => Ok {| sentenceIndex := sentenceIndex r;
                  sentence := sentence r;
                  ttsBase64 := JStr (s ++ lit "...") |}
  | Throw e => Throw e
  end.

(** [POST /process-recording] *)
Definition process_recording (req : request) : M unit :=
  try_catch
    (match req_file req with
     | None => perform (res_json 400 (failed (Error (lit "No audio file provided"))))
     | Some f =>
         let sttOptions := sttOptions_of req in
         sttText <- convertAudioToText (file_buffer f) (mimeType_of f) sttOptions;;
         lift (Val.toString sttText);;
         webhookResponses <- callWebhookStream sttText;;
         accumulatedText <- lift (Webhook.accumulate [] webhookResponses);;
         let sentences := Webhook.splitIntoSentences accumulatedText in
         results <- aggregate_loop 0 [] sentences;;
         previews <- lift (map_result preview results);;
         perform (res_json 200
           (succeeded sttText sttOptions (len webhookResponses)
              accumulatedText previews results))
     end)
    (fun e => perform (res_json 500 (failed e))).

End Handlers.

(** Observations on a trace. *)
Definition events (l : list effect) : list event :=
  flat_map (fun x => match x with sendEvent e => [e] | _ => [] end) l.

Definition tts_requests (l : list effect) : list jsstring :=
  flat_map (fun x => match x with TTS_request s => [s] | _ => [] end) l.

Definition is_tts_result (e : event) : bool :=
  match e with tts_result _ _ => true | _ => false end.

Definition is_tts_error (e : event) : bool :=
  match e with tts_error _ _ _ => true | _ => false end.

Definition is_error (e : event) : bool :=
  match e with error _ => true | _ => false end.

Definition is_failure (x : effect) : bool :=
  match x with
  | sendEvent (error _) => true
  | res_json _ (failed _) => true
  | _ => false
  end.

(** The entries of the [tts_result] events, the index and text of the
    [tts_error] events, and the sentences of both, in order. *)
Definition result_entries (l : list effect) : list tts_entry :=
  flat_map (fun x => match x with
                     | sendEvent (tts_result r _) => [r]
                     | _ => []
                     end) l.

Definition error_entries (l : list effect) : list (Z * jsstring) :=
  flat_map (fun x => match x with
                     | sendEvent (tts_error i s _) => [(i, s)]
                     | _ => []
                     end) l.

Definition tts_sentences (l : list effect) : list jsstring :=
  flat_map (fun x => match x with
                     | sendEvent (tts_result r _) => [sentence r]
                     | sendEvent (tts_error _ s _) => [s]
                     | _ => []
                     end) l.

(** The sentences that are synthesized: those that are not too short. *)
Definition spoken (sentences : list jsstring) : list jsstring :=
  filter (fun s => negb (tooShort s)) sentences.

(** [k, k + 1, ...], [n] numbers. *)
Definition indices_from (k : Z) (n : nat) : list Z :=
  map (fun j => k + Z.of_nat j) (seq 0 n).

(** The sentence at the 1-based position [index] of the segmented
    sequence. *)
Definition at_position (sentences : list jsstring) (index : Z) : option jsstring :=
  if index <? 1 then None else nth_error sentences (Z.to_nat (index - 1)).

(** Every entry is reported under the position its sentence has in the
    segmented sequence. *)
Definition reported_under_original_position
    (sentences : list jsstring) (entries : list tts_entry) : Prop :=
  Forall (fun r => at_position sentences (sentenceIndex r) = Some (sentence r))
         entries.

(** *** Collaborators for the examples

    The world counts the TTS calls made so far. *)

Definition not_json : jsstring -> option jsval := fun _ => None.

Definition stt_hears (transcript : jsstring)
  : nat -> list Z -> jsstring -> sttOptions -> nat * result jsval :=
  fun w _ _ _ => (w, Ok (JObj [(lit "transcript", JStr transcript)])).

Definition stt_down
  : nat -> list Z -> jsstring -> sttOptions -> nat * result jsval :=
  fun w _ _ _ => (w, Throw (Error (lit "timeout of 30000ms exceeded"))).

Definition backend_says (body : list Z)
  : nat -> jsval -> nat * result (list (list Z) * Webhook.finish) :=
  fun w _ => (w, Ok ([body], Webhook.End)).

Definition audio : jsstring := lit "UklGRg==".

Definition tts_up : nat -> jsstring -> nat * result jsval :=
  fun w _ => (S w, Ok (JStr audio)).

Definition tts_fails_second : nat -> jsstring -> nat * result jsval :=
  fun w _ =>
    (S w, if Nat.eqb w 1
          then Throw (Error (lit "TTS conversion failed: timeout of 30000ms exceeded"))
          else Ok (JStr audio)).

(** A TTS API whose JSON answer holds a number where the audio should
    be: [{audios: [123]}]. *)
Definition tts_number : nat -> jsstring -> nat * result jsval :=
  fun w _ => (S w, Ok (JNum (lit "123"))).

(** The two results of a run on [Ok. . Bye.]. *)
Definition two_entries : list tts_entry :=
  [{| sentenceIndex := 1; sentence := lit "Ok."; ttsBase64 := JStr audio |};
   {| sentenceIndex := 2; sentence := lit "Bye."; ttsBase64 := JStr audio |}].

Definition upload : request :=
  {| req_file := Some {| file_buffer := lit "RIFF"; mimetype := lit "audio/wav" |};
     query_language := None; body_language := None;
     query_sttModel := None; body_sttModel := None |}.

End Routes.

(** ** Definitions for the further properties *)

Module WavFile.

(** The WAV that [Wav.buildWav] makes of a payload. *)
Definition wav (data : list Z) : list Z := Wav.header (len data) ++ data.

(** The value of the four bytes [data], read as a little-endian number. *)
Definition DATA_AS_NUMBER : Z := 1635017060.

End WavFile.

(** *** Observations on runs *)

Module Runs.

Import Routes.

(** The stage of the progressive endpoint that sends an event. *)
Definition phase (e : event) : nat :=
  match e with
  | start => 0
  | stt_start => 1
  | stt_complete _ _ => 2
  | webhook_start => 3
  | webhook_complete _ => 4
  | tts_start _ _ => 5
  | tts_result _ _ => 6
  | tts_error _ _ _ => 6
  | complete _ _ => 7
  | error _ => 7
  end.

(** The events that end a progressive run. *)
Definition is_terminal (e : event) : bool :=
  match e with
  | complete _ _ => true
  | error _ => true
  | _ => false
  end.

(** The effects that close a run: a terminal event, the end of the event
    stream, a JSON response. *)
Definition closes (x : effect) : bool :=
  match x with
  | sendEvent e => is_terminal e
  | res_end => true
  | res_json _ _ => true
  | _ => false
  end.

(** The requests to the three collaborators. *)
Definition is_request (x : effect) : bool :=
  match x with
  | STT_request _ _ _ => true
  | Webhook_request _ => true
  | TTS_request _ => true
  | _ => false
  end.

(** The counts an event reports are consistent: in a [tts_result] event
    [progress.current] is the index of the entry and lies between 1 and
    [progress.total]; in a [complete] event [successCount] lies between 0
    and [totalSentences]. *)
Definition progress_ok (e : event) : Prop :=
  match e with
  | tts_result r (current, total) =>
      1 <= current <= total /\ sentenceIndex r = current
  | complete totalSentences successCount =>
      0 <= successCount <= totalSentences
  | _ => True
  end.

Section Speech.

Variable World : Type.
Variable tts_service : World -> jsstring -> World * result jsval.

(** The TTS service asked for each text in turn, up to the first
    failure: the world it leaves, the audios returned before the failure,
    and the failure if there is one. *)
Fixpoint speak_all (w : World) (texts : list jsstring)
  : World * list jsval * option exn :=
  match texts with
  | [] => (w, [], None)
  | text :: rest =>
      match tts_service w text with
      | (w1, Ok base64Audio) =>
          let '(w2, audios, failure) := speak_all w1 rest in
          (w2, base64Audio :: audios, failure)
      | (w1, Throw e) => (w1, [], Some e)
      end
  end.

(** The same, each audio decoded as soon as it is returned: the run
    stops at the first call that fails or the first audio that does not
    decode. *)
Fixpoint speak_decoded (B : Type) (decode : jsval -> result B)
    (w : World) (texts : list jsstring) : World * list B * option exn :=
  match texts with
  | [] => (w, [], None)
  | text :: rest =>
      match tts_service w text with
      | (w1, Ok base64Audio) =>
          match decode base64Audio with
          | Ok b =>
              let '(w2, decoded, failure) := speak_decoded decode w1 rest in
              (w2, b :: decoded, failure)
          | Throw e => (w1, [], Some e)
          end
      | (w1, Throw e) => (w1, [], Some e)
      end
  end.

(** The TTS service asked for every text in turn, whatever fails: the
    world it leaves and the outcome of each call. *)
Fixpoint speak_each (w : World) (texts : list jsstring)
  : World * list (result jsval) :=
  match texts with
  | [] => (w, [])
  | text :: rest =>
      let (w1, outcome) := tts_service w text in
      let (w2, outcomes) := speak_each w1 rest in
      (w2, outcome :: outcomes)
  end.

End Speech.

(** A call that returned, and a call that returned a string. *)
Definition returned (outcome : result jsval) : bool :=
  match outcome with Ok _ => true | Throw _ => false end.

Definition returned_string (outcome : result jsval) : bool :=
  match outcome with Ok (JStr _) => true | _ => false end.

(** The texts asked for in such a run: one per audio, and the one that
    failed. *)
Definition attempted (A : Type) (texts : list jsstring) (audios : list A)
    (failure : option exn) : list jsstring :=
  firstn (length audios + match failure with Some _ => 1 | None => 0 end) texts.

(** The entries of the aggregate endpoint for sentences and their audios,
    numbered from [k]. *)
Fixpoint entries_from (k : Z) (sentences : list jsstring) (audios : list jsval)
  : list tts_entry :=
  match sentences, audios with
  | s :: sentences', a :: audios' =>
      {| sentenceIndex := k; sentence := s; ttsBase64 := a |}
      :: entries_from (k + 1) sentences' audios'
  | _, _ => []
  end.

End Runs.

(** ** The audio endpoints and [convertMultipleTextsToSpeech] *)

Module AudioRoutes.

Import Routes.

(** The request of [POST /process-recording-audio]: the fields the other
    endpoints read, and [req.query.format]. *)
Record audio_request := {
  request_of : request;
  query_format : option jsstring
}.

(** The JSON bodies of [POST /process-recording-audio]: the error, the
    single audio and the array of audios of the first version of the
    routes, the merged WAV of the second. *)
Inductive audio_body :=
| audio_failed (error : exn)
| single_audio (ttsBase64 : jsval)
| all_audios (count : Z) (audios : list jsval)
| merged_audio (count : Z) (ttsBase64 : jsstring).

(** [req.query.format || 'single'] *)
Definition format_of (req : audio_request) : jsstring :=
  match query_format req with
  | Some (c :: s) => c :: s
  | _ => lit "single"
  end.

Section AudioHandlers.

Variable World : Type.
Variable JSON_parse : jsstring -> option jsval.
Variable stt_post :
  World -> list Z -> jsstring -> sttOptions -> World * result jsval.
Variable webhook_post :
  World -> jsval -> World * result (list (list Z) * Webhook.finish).
Variable tts_service : World -> jsstring -> World * result jsval.

(** [Buffer.from(s, 'base64')] on a string, which never throws, and
    [buffer.toString('base64')]. *)
Variable base64_decode : jsstring -> list Z.
Variable base64_encode : list Z -> jsstring.

(** [Buffer.from(value, 'base64')] on an array or an object: the buffer
    of its elements when the platform takes it for an array of bytes, a
    [TypeError] otherwise. *)
Variable Buffer_from_object : jsval -> result (list Z).

(** [Buffer.from(value, 'base64')]: a [TypeError] on a number, a
    boolean, [null] or [undefined]. *)
Definition Buffer_from (value : jsval) : result (list Z) :=
  match value with
  | JStr s => Ok (base64_decode s)
  | JArr _ | JObj _ => Buffer_from_object value
  | _ => Throw TypeError
  end.

Declare Scope audio_scope.
Delimit Scope audio_scope with audio.
Notation "x <- m ;; k" := (mbind m (fun x => k))
  (at level 61, m at next level, right associativity) : audio_scope.
Local Open Scope audio_scope.

(** [ttsService.convertMultipleTextsToSpeech]: its loop with [results] so
    far, and the function. *)
Fixpoint texts_loop (results : list jsval) (texts : list jsstring)
  : M World (list jsval) :=
  match texts with
  | [] => ret results
  | text :: rest =>
      base64Audio <- convertTextToSpeech tts_service text;;
      texts_loop (results ++ [base64Audio]) rest
  end.

Definition convertMultipleTextsToSpeech (texts : list jsstring)
  : M World (list jsval) :=
  try_catch (texts_loop [] texts) (fun error => throw _ error).

(** The loop of [POST /process-recording-audio] in the first version of
    the routes, with [audios] so far. *)
Fixpoint audios_loop (audios : list jsval) (rest : list jsstring)
  : M World (list jsval) :=
  match rest with
  | [] => ret audios
  | sentence :: rest' =>
      if tooShort sentence then audios_loop audios rest'
      else
        ttsBase64 <- convertTextToSpeech tts_service sentence;;
        audios_loop (audios ++ [ttsBase64]) rest'
  end.

(** [POST /process-recording-audio], first version: the status and the
    body of the one JSON response. *)
Definition process_recording_audio (req : audio_request)
  : M World (Z * audio_body) :=
  try_catch
    (match req_file (request_of req) with
     | None => ret (400, audio_failed (Error (lit "No audio file provided")))
     | Some f =>
         let sttOptions := sttOptions_of (request_of req) in
         sttText <- convertAudioToText stt_post (file_buffer f) (mimeType_of f)
                      sttOptions;;
         _ <- lift (Val.toString sttText);;
         webhookResponses <- callWebhookStream JSON_parse webhook_post sttText;;
         accumulatedText <- lift (Webhook.accumulate [] webhookResponses);;
         let sentences := Webhook.splitIntoSentences accumulatedText in
         audios <- audios_loop [] sentences;;
         let format := format_of req in
         if eqb format (lit "single") && (0 <? len audios)
         then ret (200, single_audio (hd JUndefined audios))
         else ret (200, all_audios (len audios) audios)
     end)
    (fun error => ret (500, audio_failed error)).

(** The loop of [POST /process-recording-audio] in the second version,
    with [audioBuffers] and [totalAudioSize] so far. *)
Fixpoint buffers_loop (audioBuffers : list (list Z)) (totalAudioSize : Z)
    (rest : list jsstring) : M World (list (list Z) * Z) :=
  match rest with
  | [] => ret (audioBuffers, totalAudioSize)
  | sentence :: rest' =>
      if tooShort sentence then buffers_loop audioBuffers totalAudioSize rest'
      else
        ttsBase64 <- convertTextToSpeech tts_service sentence;;
        buffer <- lift (Buffer_from ttsBase64);;
        buffers_loop (audioBuffers ++ [buffer]) (totalAudioSize + len buffer) rest'
  end.

(** [POST /process-recording-audio], second version: the audios merged
    into one WAV. *)
Definition process_recording_audio_merged (req : request)
  : M World (Z * audio_body) :=
  try_catch
    (match req_file req with
     | None => ret (400, audio_failed (Error (lit "No audio file provided")))
     | Some f =>
         let sttOptions := sttOptions_of req in
         sttText <- convertAudioToText stt_post (file_buffer f) (mimeType_of f)
                      sttOptions;;
         _ <- lift (Val.toString sttText);;
         webhookResponses <- callWebhookStream JSON_parse webhook_post sttText;;
         accumulatedText <- lift (Webhook.accumulate [] webhookResponses);;
         let sentences := Webhook.splitIntoSentences accumulatedText in
         collected <- buffers_loop [] 0 sentences;;
         let audioBuffers := fst collected in
         wavBuffer <- lift (Wav.recombine audioBuffers);;
         let completeBase64 := base64_encode wavBuffer in
         ret (200, merged_audio (len audioBuffers) completeBase64)
     end)
    (fun error => ret (500, audio_failed error)).

End AudioHandlers.

(** *** Collaborators for the examples *)

(** A base64 stand-in that leaves the bytes as they are. *)
Definition as_bytes : jsstring -> list Z := fun s => s.

Definition tts_wav : nat -> jsstring -> nat * result jsval :=
  fun w _ => (S w, Ok (JStr Wav.segment_two)).

(** No array and no object is taken for bytes. *)
Definition no_bytes : jsval -> result (list Z) := fun _ => Throw TypeError.

Definition audio_upload (format : option jsstring) : audio_request :=
  {| request_of := upload; query_format := format |}.

End AudioRoutes.

(** * Properties *)

Unset Implicit Arguments.

(** ** Strings: comparison, trimming, splitting *)

Module JSFacts.

Lemma eqb_eq a b : JS.eqb a b = true <-> a = b.
Proof. unfold JS.eqb. destruct (list_eq_dec Z.eq_dec a b); split; congruence. Qed.

Lemma eqb_refl a : JS.eqb a a = true.
Proof. now apply eqb_eq. Qed.

Lemma len_app (A : Type) (x y : list A) : len (x ++ y) = len x + len y.
Proof. unfold len. rewrite length_app. lia. Qed.

Lemma len_nonneg (A : Type) (x : list A) : 0 <= len x.
Proof. unfold len. lia. Qed.

Lemma len_pos_iff (A : Type) (x : list A) : (0 <? len x) = true <-> x <> [].
Proof.
  unfold len. destruct x; simpl length; split; intros H.
  - discriminate.
  - congruence.
  - discriminate.
  - apply Z.ltb_lt. lia.
Qed.

Section DropWhile.

Variable p : Z -> bool.

Lemma dropWhile_nil_iff s : dropWhile p s = [] <-> forallb p s = true.
Proof.
  induction s as [|c s IH]; simpl; [tauto|].
  destruct (p c); simpl; [exact IH|]. split; discriminate.
Qed.

Lemma dropWhile_head s c r : dropWhile p s = c :: r -> p c = false.
Proof.
  induction s as [|d s IH]; simpl; [discriminate|].
  destruct (p d) eqn:E; [exact IH|]. intros H. injection H as -> _. exact E.
Qed.

Lemma dropWhile_stop c s : p c = false -> dropWhile p (c :: s) = c :: s.
Proof. intros H. simpl. now rewrite H. Qed.

Lemma dropWhile_idem s : dropWhile p (dropWhile p s) = dropWhile p s.
Proof.
  destruct (dropWhile p s) as [|c r] eqn:E; [reflexivity|].
  apply dropWhile_stop. eapply dropWhile_head; eassumption.
Qed.

Lemma dropWhile_suffix s : exists pre, s = pre ++ dropWhile p s /\ forallb p pre = true.
Proof.
  induction s as [|c s [pre [IH1 IH2]]]; simpl.
  - exists []. split; reflexivity.
  - destruct (p c) eqn:E.
    + exists (c :: pre). simpl. rewrite E, IH2. split; [|reflexivity].
      now rewrite <- IH1.
    + exists []. split; reflexivity.
Qed.

Lemma dropWhile_keeps c s : In c s -> p c = false -> In c (dropWhile p s).
Proof.
  induction s as [|d s IH]; simpl; [tauto|].
  intros [->|H] Hc.
  - rewrite Hc. now left.
  - destruct (p d); [now apply IH | now right].
Qed.

End DropWhile.

Lemma trim_keeps c s : In c s -> isWhiteSpace c = false -> In c (trim s).
Proof.
  intros H Hc. unfold trim, trimEnd, trimStart.
  apply (proj1 (in_rev _ c)). apply dropWhile_keeps; [|exact Hc].
  apply (proj1 (in_rev _ c)). now apply dropWhile_keeps.
Qed.

Lemma trim_nil_iff s : trim s = [] <-> forallb isWhiteSpace s = true.
Proof.
  split.
  - intros H. rewrite forallb_forall. intros c Hc.
    destruct (isWhiteSpace c) eqn:E; [reflexivity|].
    pose proof (trim_keeps _ _ Hc E) as Hin. rewrite H in Hin. destruct Hin.
  - intros H. unfold trim, trimStart, trimEnd.
    apply (dropWhile_nil_iff isWhiteSpace) in H. now rewrite H.
Qed.

(** The trimmed string starts and ends with no white space. *)
Lemma trimEnd_prefix s : exists suf, s = trimEnd s ++ suf.
Proof.
  unfold trimEnd.
  destruct (dropWhile_suffix isWhiteSpace (rev s)) as [pre [H _]].
  exists (rev pre). rewrite <- rev_app_distr, <- H. now rewrite rev_involutive.
Qed.

Lemma trim_idem s : trim (trim s) = trim s.
Proof.
  unfold trim.
  set (t := trimStart s).
  assert (Hstart : trimStart (trimEnd t) = trimEnd t).
  { destruct (trimEnd_prefix t) as [suf Hsuf].
    destruct (trimEnd t) as [|c r] eqn:E; [reflexivity|].
    unfold trimStart. apply dropWhile_stop.
    unfold t, trimStart in Hsuf. simpl in Hsuf.
    eapply dropWhile_head. exact Hsuf. }
  rewrite Hstart. unfold trimEnd.
  now rewrite rev_involutive, dropWhile_idem.
Qed.

Lemma trim_nonempty_of_in c s :
  In c s -> isWhiteSpace c = false -> trim s <> [].
Proof.
  intros H Hc E. pose proof (trim_keeps _ _ H Hc) as Hin.
  rewrite E in Hin. destruct Hin.
Qed.

Lemma nonblank_has_char s :
  trim s <> [] -> exists c, In c s /\ isWhiteSpace c = false.
Proof.
  intros H. destruct (forallb isWhiteSpace s) eqn:E.
  - apply trim_nil_iff in E. contradiction.
  - clear H. induction s as [|c s IH]; simpl in *; [discriminate|].
    destruct (isWhiteSpace c) eqn:Ec.
    + destruct (IH E) as [d [Hd Hw]]. exists d. split; [now right|exact Hw].
    + exists c. split; [now left|exact Ec].
Qed.

(** *** [split] and [pop] *)

Lemma split_not_nil sep s : split sep s <> [].
Proof.
  destruct s as [|c s]; simpl; [discriminate|].
  destruct (c =? sep); [discriminate|].
  destruct (split sep s); discriminate.
Qed.

Lemma pop_removelast_last (A : Type) (a : list A) (d : A) :
  a <> [] -> pop a = (removelast a, Some (last a d)).
Proof.
  intros Ha. destruct (exists_last Ha) as [r [x ->]].
  unfold pop. rewrite rev_app_distr. simpl. rewrite rev_involutive.
  now rewrite removelast_last, last_last.
Qed.

Lemma last_app_r (A : Type) (x y : list A) (d : A) :
  y <> [] -> last (x ++ y) d = last y d.
Proof.
  intros Hy. destruct (exists_last Hy) as [r [z ->]].
  now rewrite app_assoc, !last_last.
Qed.

Lemma pop_split sep s :
  pop (split sep s) = (removelast (split sep s), Some (last (split sep s) [])).
Proof. apply pop_removelast_last, split_not_nil. Qed.

Lemma split_app sep x y :
  split sep (x ++ y) =
  removelast (split sep x) ++ split sep (last (split sep x) [] ++ y).
Proof.
  induction x as [|c x IH]; simpl; [reflexivity|].
  destruct (c =? sep) eqn:E.
  - rewrite IH. pose proof (split_not_nil sep x) as Hn.
    destruct (split sep x) as [|p ps]; [contradiction|]. reflexivity.
  - rewrite IH. pose proof (split_not_nil sep x) as Hn.
    destruct (split sep x) as [|p ps]; [contradiction|].
    destruct ps as [|q qs].
    + simpl. rewrite E. reflexivity.
    + reflexivity.
Qed.

(** Joining the pieces with the separator gives the string back. *)
Lemma join_split sep s : join [sep] (split sep s) = s.
Proof.
  induction s as [|c s IH]; simpl; [reflexivity|].
  pose proof (split_not_nil sep s) as Hn.
  destruct (Z.eqb_spec c sep) as [->|Hc].
  - destruct (split sep s) as [|p ps]; [contradiction|].
    simpl in *. now rewrite IH.
  - destruct (split sep s) as [|p ps]; [contradiction|].
    destruct ps; simpl in *; now rewrite <- IH.
Qed.

(** No piece holds the separator. *)
Lemma split_no_sep sep s : Forall (fun p => ~ In sep p) (split sep s).
Proof.
  induction s as [|c s IH]; simpl.
  - constructor; [intros []|constructor].
  - destruct (Z.eqb_spec c sep) as [->|Hc].
    + constructor; [intros []|exact IH].
    + destruct (split sep s) as [|p ps].
      * constructor; [|constructor]. intros [H|[]]. now apply Hc.
      * inversion IH; subst. constructor; [|assumption].
        intros [H|H]; [now apply Hc | contradiction].
Qed.

(** Every code unit other than the separator is in some piece. *)
Lemma split_covers sep s c :
  In c s -> c <> sep -> exists p, In p (split sep s) /\ In c p.
Proof.
  induction s as [|d s IH]; simpl; [tauto|].
  intros Hin Hc. pose proof (split_not_nil sep s) as Hn.
  destruct (Z.eqb_spec d sep) as [->|Hd].
  - destruct Hin as [->|Hin]; [congruence|].
    destruct (IH Hin Hc) as [p [Hp Hcp]]. exists p. split; [now right|exact Hcp].
  - destruct (split sep s) as [|q qs]; [contradiction|].
    destruct Hin as [->|Hin].
    + exists (c :: q). split; now left.
    + destruct (IH Hin Hc) as [p [[->|Hp] Hcp]].
      * exists (d :: p). split; [now left | now right].
      * exists p. split; [now right | exact Hcp].
Qed.

End JSFacts.

(** ** The chunked reassembly of [callWebhookStream] *)

Module StreamFacts.

Import JSFacts Webhook.

(** *** Decoding chunk by chunk *)

Lemma step_no_pending d b :
  Utf8.bytes_needed d = 0 -> Utf8.step d b = Utf8.step Utf8.start b.
Proof. intros H. unfold Utf8.step. rewrite H. reflexivity. Qed.

Lemma run_app d a b :
  Utf8.run d (a ++ b) =
  let (d1, o1) := Utf8.run d a in
  let (d2, o2) := Utf8.run d1 b in (d2, o1 ++ o2).
Proof.
  revert d. induction a as [|x a IH]; intros d; simpl.
  - now destruct (Utf8.run d b).
  - destruct (Utf8.step d x) as [d1 o1]. rewrite IH.
    destruct (Utf8.run d1 a) as [d2 o2].
    destruct (Utf8.run d2 b) as [d3 o3]. now rewrite app_assoc.
Qed.

Lemma run_no_pending d b :
  Utf8.bytes_needed d = 0 ->
  snd (Utf8.run d b) = snd (Utf8.run Utf8.start b) /\
  Utf8.flush (fst (Utf8.run d b)) = Utf8.flush (fst (Utf8.run Utf8.start b)).
Proof.
  intros H. destruct b as [|x b]; simpl.
  - unfold Utf8.flush. rewrite H. split; reflexivity.
  - rewrite (step_no_pending d x H). split; reflexivity.
Qed.

(** A chunk that ends on a character boundary decodes by itself. *)
Lemma toString_app a b :
  Utf8.complete a ->
  Utf8.toString (a ++ b) = Utf8.toString a ++ Utf8.toString b.
Proof.
  unfold Utf8.complete, Utf8.toString. intros H. rewrite run_app.
  destruct (Utf8.run Utf8.start a) as [d1 o1] eqn:E1. simpl in H.
  destruct (run_no_pending d1 b H) as [Ho Hf].
  destruct (Utf8.run d1 b) as [d2 o2].
  destruct (Utf8.run Utf8.start b) as [d3 o3]. simpl in Ho, Hf. subst o3.
  unfold Utf8.flush at 2. rewrite H, app_nil_r, Hf. now rewrite app_assoc.
Qed.

Lemma toString_concat chunks :
  Forall Utf8.complete chunks ->
  Utf8.toString (concat chunks) = concat (map Utf8.toString chunks).
Proof.
  induction 1 as [|c cs Hc _ IH]; simpl; [reflexivity|].
  now rewrite toString_app, IH.
Qed.

(** *** The handlers on text *)

Section OnText.

Variable JSON_parse : jsstring -> option jsval.

Local Abbreviation push := (push_message JSON_parse).
Local Abbreviation text_handler := (on_text JSON_parse).
Local Abbreviation emit := (emitted JSON_parse).

Lemma fold_push_emitted pieces acc :
  fold_left push pieces acc = acc ++ emit pieces.
Proof.
  revert acc. induction pieces as [|p ps IH]; intros acc; simpl.
  - unfold emitted. simpl. now rewrite app_nil_r.
  - rewrite IH. unfold emitted, push_message, classify. simpl.
    destruct (nonEmpty (trim p)); [|reflexivity].
    simpl. destruct (JSON_parse p); now rewrite <- app_assoc.
Qed.

Lemma emitted_app a b : emit (a ++ b) = emit a ++ emit b.
Proof. unfold emitted. now rewrite filter_app, map_app. Qed.

Lemma on_text_eq st text :
  text_handler st text =
  {| buffer := last (split NL (buffer st ++ text)) [];
     responses := responses st ++ emit (removelast (split NL (buffer st ++ text))) |}.
Proof.
  unfold on_text. rewrite pop_split. now rewrite fold_push_emitted.
Qed.

(** Two pieces of text in a row are handled as their concatenation. *)
Lemma on_text_app st a b :
  text_handler (text_handler st a) b = text_handler st (a ++ b).
Proof.
  rewrite !on_text_eq. simpl.
  rewrite (app_assoc (buffer st) a b).
  rewrite (split_app NL (buffer st ++ a) b).
  set (X := split NL (buffer st ++ a)).
  set (Y := split NL (last X [] ++ b)).
  assert (HY : Y <> []) by apply split_not_nil.
  rewrite last_app_r by exact HY.
  rewrite removelast_app by exact HY.
  now rewrite emitted_app, app_assoc.
Qed.

Lemma split_without_sep sep s : ~ In sep s -> split sep s = [s].
Proof.
  induction s as [|c s IH]; simpl; [reflexivity|]. intros Hn.
  destruct (Z.eqb_spec c sep) as [->|Hc]; [exfalso; apply Hn; now left|].
  rewrite IH; [reflexivity|]. intros H; apply Hn; now right.
Qed.

Lemma on_text_nil st : ~ In NL (buffer st) -> text_handler st [] = st.
Proof.
  intros Hnl. rewrite on_text_eq, app_nil_r, (split_without_sep _ _ Hnl).
  simpl. unfold emitted. simpl. rewrite app_nil_r. now destruct st.
Qed.

(** The pending buffer never holds a newline. *)
Lemma on_text_buffer st text : ~ In NL (buffer (text_handler st text)).
Proof.
  rewrite on_text_eq. simpl.
  pose proof (split_no_sep NL (buffer st ++ text)) as Hf.
  pose proof (split_not_nil NL (buffer st ++ text)) as Hn.
  rewrite Forall_forall in Hf. apply Hf.
  destruct (exists_last Hn) as [r [x ->]]. rewrite last_last.
  apply in_or_app. right. now left.
Qed.

Lemma fold_on_text ts st :
  ~ In NL (buffer st) ->
  fold_left text_handler ts st = text_handler st (concat ts).
Proof.
  revert st. induction ts as [|t ts IH]; intros st Hnl; simpl.
  - now rewrite on_text_nil.
  - rewrite IH by apply on_text_buffer. apply on_text_app.
Qed.

Lemma fold_on_data chunks st :
  fold_left (on_data JSON_parse) chunks st =
  fold_left text_handler (map Utf8.toString chunks) st.
Proof.
  revert st. induction chunks as [|c cs IH]; intros st; simpl; [reflexivity|].
  apply IH.
Qed.

(** However a stream is cut into chunks, as long as no cut falls inside
    a multi-byte character, the messages are those of the uncut stream. *)
Lemma chunking_on_character_boundaries chunks fin :
  Forall Utf8.complete chunks ->
  consume JSON_parse chunks fin = consume JSON_parse [concat chunks] fin.
Proof.
  intros H. unfold consume. rewrite !fold_on_data.
  rewrite !fold_on_text by (simpl; tauto).
  simpl. now rewrite app_nil_r, toString_concat.
Qed.

End OnText.

(** C6. On each chunk the handler appends the decoded text to the pending
    buffer, splits on newline, emits all pieces but the last in order and
    keeps the last as the pending buffer; the pieces joined by newlines
    are that text and none holds a newline; a piece that is white space
    only is never emitted; an emitted piece is the value [JSON.parse]
    gives, else [{text: <trimmed piece>}]; at the end of the stream a
    pending buffer that is not blank is emitted the same way. *)
Theorem reassembler_follows_specification
    (JSON_parse : jsstring -> option jsval) :
  (forall st chunk,
     on_data JSON_parse st chunk =
     {| buffer := snd (spec_step JSON_parse (buffer st) chunk);
        responses := responses st ++ fst (spec_step JSON_parse (buffer st) chunk) |})
  /\ (forall pending chunk,
        join [NL] (spec_pieces pending chunk) = pending ++ Utf8.toString chunk
        /\ Forall (fun p => ~ In NL p) (spec_pieces pending chunk)
        /\ spec_pieces pending chunk =
           removelast (spec_pieces pending chunk)
           ++ [snd (spec_step JSON_parse pending chunk)])
  /\ (forall st, on_end JSON_parse st = responses st ++ spec_finish JSON_parse (buffer st))
  /\ (forall pieces,
        emitted JSON_parse pieces =
        map (classify JSON_parse)
            (filter (fun p => negb (forallb isWhiteSpace p)) pieces))
  /\ (forall piece parsed,
        JSON_parse piece = Some parsed -> classify JSON_parse piece = parsed)
  /\ (forall piece,
        JSON_parse piece = None ->
        classify JSON_parse piece = JObj [(lit "text", JStr (trim piece))])
  /\ (forall chunks,
        consume JSON_parse chunks End =
        Ok (on_end JSON_parse (fold_left (on_data JSON_parse) chunks init))).
Proof.
  repeat split.
  - intros st chunk. unfold on_data. rewrite on_text_eq. reflexivity.
  - apply join_split.
  - apply split_no_sep.
  - unfold spec_step, spec_pieces. simpl.
    apply app_removelast_last, split_not_nil.
  - intros st. unfold on_end, spec_finish.
    rewrite <- (fold_push_emitted JSON_parse [buffer st] (responses st)).
    reflexivity.
  - intros pieces. unfold emitted. f_equal. apply filter_ext. intros p.
    destruct (forallb isWhiteSpace p) eqn:E.
    + apply trim_nil_iff in E. now rewrite E.
    + destruct (trim p) eqn:Et; [|reflexivity].
      apply trim_nil_iff in Et. congruence.
  - intros piece parsed H. unfold classify. now rewrite H.
  - intros piece H. unfold classify. now rewrite H.
Qed.

(** C1, at two failing inputs, whatever [JSON.parse] does.
    The two bytes C3 A9 of the letter e with acute accent arrive alone on
    the stream. In one chunk the line is that letter; cut between the two
    bytes, each chunk decodes to U+FFFD on its own and the line is two
    replacement characters: the message is made from another text.
    The two bytes C2 A0 of U+00A0, a character that [trim] removes: in one
    chunk nothing is emitted; cut between the two bytes, one message is
    emitted. The chunked run and the uncut run differ. *)
Theorem split_inside_character_diverges (JSON_parse : jsstring -> option jsval) :
  consume JSON_parse [[195; 169]] End = Ok [classify JSON_parse [233]]
  /\ consume JSON_parse [[195]; [169]] End =
     Ok [classify JSON_parse [65533; 65533]]
  /\ consume JSON_parse [[194; 160]] End = Ok []
  /\ consume JSON_parse [[194]; [160]] End =
     Ok [classify JSON_parse [65533; 65533]]
  /\ consume JSON_parse [[194]; [160]] End <> consume JSON_parse [[194; 160]] End.
Proof.
  assert (Hcut : forall b1 b2,
            Utf8.toString [b1] = [65533] -> Utf8.toString [b2] = [65533] ->
            consume JSON_parse [[b1]; [b2]] End =
            Ok [classify JSON_parse [65533; 65533]]).
  { intros b1 b2 H1 H2. unfold consume, on_end. simpl fold_left.
    unfold on_data. rewrite H1, H2. unfold on_text. simpl.
    unfold push_message, classify. simpl. destruct (JSON_parse _); reflexivity. }
  assert (H0 : consume JSON_parse [[195; 169]] End = Ok [classify JSON_parse [233]]).
  { unfold consume, on_end. simpl fold_left. unfold on_data, on_text. simpl.
    unfold push_message, classify. simpl. destruct (JSON_parse _); reflexivity. }
  assert (H1 : consume JSON_parse [[194; 160]] End = Ok []) by reflexivity.
  pose proof (Hcut 195 169 eq_refl eq_refl) as H2.
  pose proof (Hcut 194 160 eq_refl eq_refl) as H3.
  split; [exact H0|]. split; [exact H2|]. split; [exact H1|].
  split; [exact H3|]. rewrite H1, H3. discriminate.
Qed.

(** A run of the handlers on a stream of two lines cut in three chunks,
    with a parser that knows the line [null] only. *)
Lemma reassembler_follows_specification_witness :
  classify only_null (lit "null") = JNull
  /\ classify only_null (lit " hello ") = JObj [(lit "text", JStr (lit "hello"))]
  /\ consume only_null [lit "nu"; lit "ll" ++ [NL] ++ lit " hel"; lit "lo "] End =
     Ok [JNull; JObj [(lit "text", JStr (lit "hello"))]].
Proof.
  destruct (reassembler_follows_specification only_null)
    as [_ [_ [_ [_ [Hsome [Hnone Hrun]]]]]].
  split; [apply Hsome; reflexivity|].
  split; [apply Hnone; reflexivity|].
  rewrite Hrun. reflexivity.
Defined.

End StreamFacts.

(** ** [extractTextFromResponse] and the accumulation *)

Module ExtractFacts.

Import JSFacts Webhook.

Lemma get_defined response k :
  response <> JNull -> response <> JUndefined ->
  Val.get response k = Ok (field response k).
Proof.
  intros H1 H2. unfold field. destruct response; simpl; congruence.
Qed.

Lemma strictNeStr_iff v s : Val.strictNeStr v s = true <-> v <> JStr s.
Proof.
  destruct v; simpl; try (split; [discriminate | reflexivity]).
  destruct (JS.eqb s0 s) eqn:E; simpl.
  - apply eqb_eq in E. subst. split; [discriminate | congruence].
  - split; [|reflexivity]. intros _ H. injection H as ->.
    rewrite eqb_refl in E. discriminate.
Qed.

Lemma extract_defined response :
  response <> JNull -> response <> JUndefined ->
  extractTextFromResponse response =
  Ok (if excluded response then JNull else pick response).
Proof.
  intros H1 H2. unfold extractTextFromResponse, excluded, pick.
  rewrite !(get_defined response _ H1 H2). simpl.
  destruct (Val.truthy (field response (lit "type"))
            && Val.strictNeStr (field response (lit "type")) (lit "item"));
    [reflexivity|].
  destruct (Val.truthy (field response (lit "content"))); [reflexivity|].
  destruct (Val.isString response); [reflexivity|].
  destruct (Val.truthy (field response (lit "text"))); [reflexivity|].
  destruct (Val.truthy (field response (lit "message"))); reflexivity.
Qed.

(** What one message adds to the accumulated text. *)
Lemma accumulate_cons acc response rest v :
  extractTextFromResponse response = Ok v ->
  accumulate acc (response :: rest) =
  if Val.truthy v
  then bind (Val.toString v) (fun s => accumulate (acc ++ s) rest)
  else accumulate acc rest.
Proof. intros H. simpl. rewrite H. reflexivity. Qed.

Lemma accumulate_texts responses : forall texts acc,
  Forall2 (fun response t =>
             extractTextFromResponse response = Ok (JStr t)
             \/ (extractTextFromResponse response = Ok JNull /\ t = []))
          responses texts ->
  accumulate acc responses = Ok (acc ++ concat texts).
Proof.
  induction responses as [|r rs IH]; intros texts acc H; inversion H; subst.
  - simpl. now rewrite app_nil_r.
  - match goal with Hx : _ \/ _ |- _ => destruct Hx as [Hr | [Hr ->]] end.
    + rewrite (accumulate_cons acc r rs _ Hr). simpl.
      destruct y as [|c y]; simpl.
      * now apply IH.
      * rewrite (IH _ _ H4). now rewrite <- app_assoc.
    + rewrite (accumulate_cons acc r rs _ Hr). simpl. now apply IH.
Qed.

(** The accumulation over any messages other than [null]: the string
    conversions of the truthy values they yield, put end to end, or the
    exception of the first conversion that throws. *)
Lemma accumulate_all responses : forall acc,
  Forall (fun response => response <> JNull /\ response <> JUndefined)
         responses ->
  accumulate acc responses =
  bind (map_result (fun response => appended (extracted response)) responses)
       (fun texts => Ok (acc ++ concat texts)).
Proof.
  induction responses as [|r rs IH]; intros acc H.
  - simpl. now rewrite app_nil_r.
  - inversion H as [|x xs [H1 H2] Hrest]; subst.
    cbn [accumulate map_result]. rewrite (extract_defined r H1 H2).
    fold (extracted r). cbn [bind]. unfold appended.
    destruct (Val.truthy (extracted r)).
    + destruct (Val.toString (extracted r)) as [s|e]; [|reflexivity].
      cbn [bind]. rewrite (IH _ Hrest).
      destruct (map_result _ rs) as [texts|e]; [|reflexivity].
      cbn [bind concat]. now rewrite app_assoc.
    + rewrite (IH _ Hrest).
      destruct (map_result _ rs) as [texts|e]; reflexivity.
Qed.

(** C5, as the code has it. A message other than [null] yields [null]
    when it carries a truthy [type] other than ['item'], whatever else it
    carries; otherwise it yields the first of its truthy [content],
    itself when it is a string, its truthy [text], its truthy [message],
    and [null] when there is none. A string message yields itself. Over
    any messages other than [null] the accumulation appends, in arrival
    order and with nothing between them, the string conversion of each
    truthy value yielded, and throws at the first that has none; when the
    values are strings or [null] it is these strings put end to end. *)
Theorem extractText_by_truthiness :
  (forall props v,
     Val.own props (lit "type") = Some v ->
     Val.truthy v = true -> v <> JStr (lit "item") ->
     extractTextFromResponse (JObj props) = Ok JNull)
  /\ (forall response,
        response <> JNull -> response <> JUndefined ->
        excluded response = false ->
        extractTextFromResponse response = Ok (pick response))
  /\ (forall s, extractTextFromResponse (JStr s) = Ok (JStr s))
  /\ (forall responses,
        Forall (fun response => response <> JNull /\ response <> JUndefined)
               responses ->
        Forall (fun response =>
                  extractTextFromResponse response = Ok (extracted response))
               responses
        /\ accumulate [] responses =
           bind (map_result (fun response => appended (extracted response))
                            responses)
                (fun texts => Ok (concat texts)))
  /\ (forall responses texts,
        Forall2 (fun response t =>
                   extractTextFromResponse response = Ok (JStr t)
                   \/ (extractTextFromResponse response = Ok JNull /\ t = []))
                responses texts ->
        accumulate [] responses = Ok (concat texts)).
Proof.
  split; [|split; [|split; [|split]]].
  - intros props v Hown Ht Hne.
    rewrite extract_defined by discriminate.
    unfold excluded, field. simpl. rewrite Hown, Ht.
    apply strictNeStr_iff in Hne. now rewrite Hne.
  - intros response H1 H2 Hex. rewrite extract_defined by assumption.
    now rewrite Hex.
  - reflexivity.
  - intros responses H. split.
    + eapply Forall_impl; [|exact H]. intros r [H1 H2].
      now apply extract_defined.
    + now rewrite (accumulate_all responses []).
  - intros responses texts H. now rewrite (accumulate_texts responses texts []).
Qed.

Lemma extractText_by_truthiness_witness :
  extractTextFromResponse
    (JObj [(lit "type", JStr (lit "end")); (lit "content", JStr (lit "bye"))])
  = Ok JNull
  /\ extractTextFromResponse (JObj [(lit "text", JStr (lit "plain"))])
     = Ok (JStr (lit "plain"))
  /\ accumulate []
       [JObj [(lit "type", JStr (lit "begin"))]; item (lit "Nama"); item (lit "ste!")]
     = Ok (lit "Namaste!")
  /\ accumulate [] [item (lit "Nama"); content_number; item (lit "ste!")]
     = Ok (lit "Nama42ste!")
  /\ accumulate [] [item (lit "Nama"); content_unprintable; item (lit "ste!")]
     = Throw TypeError.
Proof.
  destruct extractText_by_truthiness as [Hdrop [Hkeep [_ [Hall Hacc]]]].
  split; [|split; [|split; [|split]]].
  - apply (Hdrop _ (JStr (lit "end"))); [reflexivity | reflexivity | discriminate].
  - apply (Hkeep (JObj [(lit "text", JStr (lit "plain"))]));
      [discriminate | discriminate | reflexivity].
  - apply (Hacc _ [[]; lit "Nama"; lit "ste!"]).
    apply Forall2_cons; [right; split; reflexivity|].
    apply Forall2_cons; [left; reflexivity|].
    apply Forall2_cons; [left; reflexivity|].
    apply Forall2_nil.
  - refine (eq_trans (proj2 (Hall _ _)) _); [|reflexivity].
    repeat (first [apply Forall_nil | apply Forall_cons]);
      split; discriminate.
  - refine (eq_trans (proj2 (Hall _ _)) _); [|reflexivity].
    repeat (first [apply Forall_nil | apply Forall_cons]);
      split; discriminate.
Defined.

(** C5 as stated fails. A message whose [type] is the empty string
    carries a [type] that is not ['item'], and its content is returned all
    the same; a message whose [content] is the empty string has a [content],
    and its [text] is returned instead. *)
Lemma extractText_present_is_not_truthy :
  spec_excluded empty_type = true
  /\ spec_extractText empty_type = JNull
  /\ extractTextFromResponse empty_type = Ok (JStr (lit "x"))
  /\ spec_extractText empty_content = JStr []
  /\ extractTextFromResponse empty_content = Ok (JStr (lit "t")).
Proof. repeat split. Qed.

(** A message that is [null] (the line [null] parses to it) does not
    yield anything: reading its [type] throws. *)
Lemma extractText_null_throws :
  extractTextFromResponse JNull = Throw TypeError.
Proof. reflexivity. Qed.

End ExtractFacts.

(** ** [splitIntoSentences] *)

Module SentenceFacts.

Import JSFacts Regex Webhook.

(** *** Runs *)

Section Span.

Variable p : Z -> bool.

Lemma span_app s : fst (span p s) ++ snd (span p s) = s.
Proof.
  induction s as [|c s IH]; simpl; [reflexivity|].
  destruct (p c); [|reflexivity].
  destruct (span p s) as [a b]. simpl in *. now rewrite IH.
Qed.

Lemma span_all s : forallb p (fst (span p s)) = true.
Proof.
  induction s as [|c s IH]; simpl; [reflexivity|].
  destruct (p c) eqn:E; [|reflexivity].
  destruct (span p s) as [a b]. simpl in *. now rewrite E.
Qed.

Lemma span_stops s : stops p (snd (span p s)).
Proof.
  induction s as [|c s IH]; simpl; [exact I|].
  destruct (p c) eqn:E; [|exact E].
  destruct (span p s) as [a b]. exact IH.
Qed.

Lemma span_run a rest :
  forallb p a = true -> stops p rest -> span p (a ++ rest) = (a, rest).
Proof.
  intros Ha Hr. induction a as [|c a IH]; simpl in *.
  - destruct rest as [|d r]; [reflexivity|]. simpl in Hr. simpl. now rewrite Hr.
  - apply andb_prop in Ha. destruct Ha as [Hc Ha]. rewrite Hc.
    now rewrite (IH Ha).
Qed.

End Span.

(** *** Greedy repetition *)

Section Greedy.

Variable A : Type.
Variable p : Z -> bool.

(** Followed by something that always matches, the repetition takes the
    whole run. *)
Lemma repeat_total (f : jsstring -> A) s : forall min,
  repeat_class min p s (fun x => Some (f x)) =
  if (min <=? length (fst (span p s)))%nat
  then Some (f (snd (span p s))) else None.
Proof.
  induction s as [|c s IH]; intros min.
  - simpl. destruct min; reflexivity.
  - cbn [repeat_class span]. destruct (p c) eqn:E.
    + rewrite IH. destruct (span p s) as [a b]. cbn [fst snd length].
      destruct min as [|min]; [reflexivity|]. cbn [pred].
      change (S min <=? S (length a))%nat with (min <=? length a)%nat.
      destruct (min <=? length a)%nat; reflexivity.
    + cbn [fst snd length]. destruct min; reflexivity.
Qed.

(** Followed by something that matches nothing that starts in the class,
    the repetition takes the whole run or fails: giving code units back
    does not help. *)
Lemma repeat_blocked (k : jsstring -> option A) :
  (forall c s', p c = true -> k (c :: s') = None) ->
  forall s min,
    repeat_class min p s k =
    if (min <=? length (fst (span p s)))%nat then k (snd (span p s)) else None.
Proof.
  intros Hk. induction s as [|c s IH]; intros min.
  - simpl. destruct min; reflexivity.
  - cbn [repeat_class span]. destruct (p c) eqn:E.
    + rewrite IH. destruct (span p s) as [a b]. cbn [fst snd length].
      destruct min as [|min].
      * cbn [pred]. change (0 <=? length a)%nat with true.
        change (0 <=? S (length a))%nat with true. cbv iota.
        destruct (k b); [reflexivity|]. now apply Hk.
      * cbn [pred].
        change (S min <=? S (length a))%nat with (min <=? length a)%nat.
        destruct (min <=? length a)%nat; [|reflexivity].
        destruct (k b); reflexivity.
    + cbn [fst snd length]. destruct min; reflexivity.
Qed.

End Greedy.

(** *** The global match of a run of [B] then a run of [T] *)

Section Runs.

Variables B T : Z -> bool.

Hypothesis disjoint : forall c, T c = true -> B c = false.

Local Abbreviation runs := (Seq (Repeat 1 B) (Repeat 1 T)).
Local Abbreviation match_all := (match_from runs O).

Lemma span_length (q : Z -> bool) s :
  length s = (length (fst (span q s)) + length (snd (span q s)))%nat.
Proof. rewrite <- (span_app q s) at 1. apply length_app. Qed.

(** The match at the start of [s]: the whole run of [B], then the whole
    run of [T], when neither is empty. *)
Lemma exec_runs s :
  exec runs s =
  let b := fst (span B s) in
  let t := fst (span T (snd (span B s))) in
  if (1 <=? length b)%nat && (1 <=? length t)%nat
  then Some (length b + length t)%nat else None.
Proof.
  unfold exec. cbn [run]. rewrite repeat_blocked.
  - rewrite repeat_total. cbv zeta.
    destruct (1 <=? length (fst (span B s)))%nat; [|reflexivity].
    destruct (1 <=? length (fst (span T (snd (span B s)))))%nat; [|reflexivity].
    cbn [andb]. f_equal.
    rewrite (span_length B s), (span_length T (snd (span B s))). lia.
  - intros c s' Hc. cbn [repeat_class].
    destruct (T c) eqn:Et; [|reflexivity].
    apply disjoint in Et. congruence.
Qed.

Lemma exec_shape s n :
  exec runs s = Some n ->
  exists b t rest,
    s = b ++ t ++ rest /\ firstn n s = b ++ t /\ n = length (b ++ t)
    /\ b <> [] /\ t <> []
    /\ forallb B b = true /\ forallb T t = true /\ stops T rest.
Proof.
  rewrite exec_runs. cbv zeta. intros H.
  pose proof (span_app B s) as Hs. pose proof (span_all B s) as Hb.
  destruct (span B s) as [b r]. cbn [fst snd] in *.
  pose proof (span_app T r) as Hr. pose proof (span_all T r) as Ht.
  pose proof (span_stops T r) as Hst.
  destruct (span T r) as [t rest]. cbn [fst snd] in *.
  destruct (1 <=? length b)%nat eqn:E1; [|discriminate].
  destruct (1 <=? length t)%nat eqn:E2; [|discriminate].
  cbn [andb] in H. injection H as <-.
  exists b, t, rest. subst r. subst s. rewrite <- length_app.
  split; [reflexivity|]. split.
  { rewrite app_assoc.
    now rewrite firstn_app, firstn_all, Nat.sub_diag, app_nil_r. }
  split; [reflexivity|].
  split; [intros ->; discriminate|].
  split; [intros ->; discriminate|].
  repeat split; assumption.
Qed.

Lemma exec_match b t rest :
  b <> [] -> t <> [] ->
  forallb B b = true -> forallb T t = true -> stops T rest ->
  exec runs (b ++ t ++ rest) = Some (length (b ++ t)).
Proof.
  intros Hb Ht Hbb Htt Hst. rewrite exec_runs. cbv zeta.
  rewrite span_run; [|exact Hbb|].
  - cbn [fst snd]. rewrite span_run by assumption. cbn [fst].
    destruct b as [|c b]; [contradiction|].
    destruct t as [|d t]; [contradiction|].
    cbn [length Nat.leb andb]. now rewrite length_app.
  - destruct t as [|d t]; [contradiction|]. simpl.
    apply disjoint. simpl in Htt. now apply andb_prop in Htt.
Qed.

Lemma exec_no_match b rest :
  forallb B b = true -> stops B rest -> stops T rest ->
  exec runs (b ++ rest) = None.
Proof.
  intros Hb HB HT. rewrite exec_runs. cbv zeta.
  rewrite span_run by assumption. cbn [fst snd].
  assert (E : fst (span T rest) = []).
  { destruct rest as [|d r]; [reflexivity|]. simpl in HT. simpl. now rewrite HT. }
  rewrite E. now rewrite andb_false_r.
Qed.

Lemma match_from_skipn k s :
  match_from runs k s = match_all (skipn k s).
Proof.
  revert k. induction s as [|c s IH]; intros k.
  - destruct k; reflexivity.
  - destruct k as [|k]; [reflexivity|]. simpl. apply IH.
Qed.

(** Each match is a run of [B] followed by a run of [T]. *)
Lemma match_from_shape s : forall k,
  Forall (fun m => exists b t, m = b ++ t /\ b <> [] /\ t <> []
                               /\ forallb B b = true /\ forallb T t = true)
         (match_from runs k s).
Proof.
  induction s as [|c s IH]; intros k; cbn [match_from]; [constructor|].
  destruct k as [|k]; [|apply IH].
  destruct (exec runs (c :: s)) as [[|n]|] eqn:E; try apply IH.
  constructor; [|apply IH].
  destruct (exec_shape _ _ E) as [b [t [rest [_ [Hm [_ [Hb [Ht [Hbb [Htt _]]]]]]]]]].
  exists b, t. repeat split; assumption.
Qed.

(** A code unit outside [B] starts no match. *)
Lemma match_all_skip c s : B c = false -> match_all (c :: s) = match_all s.
Proof.
  intros H. cbn [match_from].
  assert (E : exec runs (c :: s) = None).
  { rewrite exec_runs. cbn [span]. rewrite H. reflexivity. }
  now rewrite E.
Qed.

(** A run of [B] that no member of [T] follows holds no match. *)
Lemma match_all_drop b rest :
  forallb B b = true -> stops B rest -> stops T rest ->
  match_all (b ++ rest) = match_all rest.
Proof.
  intros Hb HB HT. induction b as [|c b IH]; [reflexivity|].
  pose proof Hb as Hcb.
  simpl in Hb. apply andb_prop in Hb. destruct Hb as [Hc Hb].
  pose proof (exec_no_match (c :: b) rest Hcb HB HT) as E.
  change ((c :: b) ++ rest) with (c :: (b ++ rest)) in *.
  cbn [match_from]. rewrite E. now apply IH.
Qed.

(** A run of [B] and the whole run of [T] after it are one match, and the
    search goes on after it. *)
Lemma match_all_match b t rest :
  b <> [] -> t <> [] ->
  forallb B b = true -> forallb T t = true -> stops T rest ->
  match_all (b ++ t ++ rest) = (b ++ t) :: match_all rest.
Proof.
  intros Hb Ht Hbb Htt Hst.
  pose proof (exec_match b t rest Hb Ht Hbb Htt Hst) as E.
  destruct b as [|c b]; [contradiction|].
  change ((c :: b) ++ t ++ rest) with (c :: (b ++ t ++ rest)) in *.
  cbn [match_from]. rewrite E.
  change (length ((c :: b) ++ t)) with (S (length (b ++ t))).
  cbv iota. f_equal.
  - change (c :: b ++ t ++ rest) with ((c :: b) ++ t ++ rest).
    rewrite app_assoc.
    change (S (length (b ++ t))) with (length ((c :: b) ++ t)).
    now rewrite firstn_app, firstn_all, Nat.sub_diag, app_nil_r.
  - rewrite match_from_skipn. f_equal.
    rewrite app_assoc. now rewrite skipn_app, skipn_all, Nat.sub_diag.
Qed.

End Runs.

(** *** The classes of the first stage *)

Lemma isTerminator_iff c :
  isTerminator c = true <->
  c = 46 \/ c = 33 \/ c = 63 \/ c = 2404 \/ c = 2405 \/ c = 41.
Proof. unfold isTerminator. rewrite !orb_true_iff, !Z.eqb_eq. tauto. Qed.

Lemma isSentenceChar_iff c :
  isSentenceChar c = true <-> isTerminator c = false /\ c <> 10.
Proof.
  unfold isSentenceChar, NL. rewrite negb_true_iff, orb_false_iff, Z.eqb_neq.
  tauto.
Qed.

Lemma terminator_not_sentenceChar c :
  isTerminator c = true -> isSentenceChar c = false.
Proof. intros H. unfold isSentenceChar. now rewrite H. Qed.

Lemma terminator_not_space c : isTerminator c = true -> isWhiteSpace c = false.
Proof.
  intros H. apply isTerminator_iff in H.
  destruct H as [->|[->|[->|[->|[->| ->]]]]]; reflexivity.
Qed.

(** *** Trimming and filtering *)

Lemma trimmed_nonempty_all pieces :
  Forall (fun s => len (trim s) <> 0) (trimmed_nonempty pieces).
Proof.
  unfold trimmed_nonempty. apply Forall_forall. intros s Hs.
  apply filter_In in Hs. destruct Hs as [Hin Hlen].
  apply in_map_iff in Hin. destruct Hin as [p [<- _]].
  rewrite trim_idem. apply Z.ltb_lt in Hlen. lia.
Qed.

Lemma trimmed_nonempty_some pieces p c :
  In p pieces -> In c p -> isWhiteSpace c = false ->
  trimmed_nonempty pieces <> [].
Proof.
  intros Hp Hc Hw E.
  assert (Hin : In (trim p) (trimmed_nonempty pieces)).
  { unfold trimmed_nonempty. apply filter_In. split.
    - now apply in_map.
    - apply len_pos_iff. eapply trim_nonempty_of_in; eassumption. }
  rewrite E in Hin. destruct Hin.
Qed.

(** A match of the first stage is not blank: it holds a terminator. *)
Lemma match_not_blank k s m :
  In m (match_from sentence_re k s) -> trim m <> [].
Proof.
  intros Hin.
  pose proof (match_from_shape isSentenceChar isTerminator
                terminator_not_sentenceChar s k) as Hf.
  rewrite Forall_forall in Hf.
  destruct (Hf m Hin) as [b [t [-> [_ [Ht [_ Htt]]]]]].
  destruct t as [|d t]; [contradiction|]. simpl in Htt.
  apply andb_prop in Htt. destruct Htt as [Hd _].
  apply (trim_nonempty_of_in d).
  - apply in_or_app. right. now left.
  - now apply terminator_not_space.
Qed.

Lemma trimmed_nonempty_matches k s :
  trimmed_nonempty (match_from sentence_re k s) =
  map trim (match_from sentence_re k s).
Proof.
  unfold trimmed_nonempty. apply forallb_filter_id.
  apply forallb_forall. intros x Hx. apply in_map_iff in Hx.
  destruct Hx as [m [<- Hm]]. apply len_pos_iff. eapply match_not_blank. exact Hm.
Qed.

(** *** The split of the third attempt *)

Lemma space_not_upper c : isWhiteSpace c = true -> isUpper c = false.
Proof.
  unfold isWhiteSpace, isUpper. intros H.
  destruct (Z.leb_spec 65 c); [|reflexivity].
  destruct (Z.leb_spec c 90); [|reflexivity].
  repeat (apply orb_prop in H; destruct H as [H|H]);
    try (apply andb_prop in H; destruct H as [H1 H2]);
    try (apply Z.eqb_eq in H); try (apply Z.leb_le in H1, H2); lia.
Qed.

(** The separator at the start of [s]: a run of two or more white-space
    code units, whole; or a single one that a capital letter follows. *)
Lemma exec_separator s :
  exec separator_re s =
  let ws := fst (span isWhiteSpace s) in
  let rest := snd (span isWhiteSpace s) in
  if (2 <=? length ws)%nat then Some (length ws)
  else if (1 <=? length ws)%nat then
    match rest with
    | c :: _ => if isUpper c then Some (length ws) else None
    | [] => None
    end
  else None.
Proof.
  unfold exec, separator_re. cbn [run]. cbv zeta.
  assert (Hlen : (length s - length (snd (span isWhiteSpace s)))%nat
                 = length (fst (span isWhiteSpace s))).
  { rewrite (span_length isWhiteSpace s) at 1. lia. }
  rewrite repeat_total.
  destruct (2 <=? length (fst (span isWhiteSpace s)))%nat; [now rewrite Hlen|].
  rewrite repeat_blocked.
  - destruct (1 <=? length (fst (span isWhiteSpace s)))%nat; [|reflexivity].
    destruct (snd (span isWhiteSpace s)) as [|c r] eqn:E; [reflexivity|].
    destruct (isUpper c); [|reflexivity]. now rewrite Hlen.
  - intros c s' Hc. now rewrite (space_not_upper c Hc).
Qed.

Lemma separator_is_space s n :
  exec separator_re s = Some n -> forallb isWhiteSpace (firstn n s) = true.
Proof.
  rewrite exec_separator. cbv zeta. intros H.
  pose proof (span_app isWhiteSpace s) as Hs.
  pose proof (span_all isWhiteSpace s) as Hw.
  destruct (span isWhiteSpace s) as [ws rest]. cbn [fst snd] in *.
  assert (Hn : n = length ws).
  { destruct (2 <=? length ws)%nat; [congruence|].
    destruct (1 <=? length ws)%nat; [|discriminate].
    destruct rest as [|c r]; [discriminate|].
    destruct (isUpper c); [congruence | discriminate]. }
  subst n. rewrite <- Hs. rewrite firstn_app, Nat.sub_diag, firstn_all.
  simpl. now rewrite app_nil_r.
Qed.

Lemma in_skipn_of_not_firstn (c : Z) n s :
  In c s -> ~ In c (firstn n s) -> In c (skipn n s).
Proof.
  intros H Hn. rewrite <- (firstn_skipn n s) in H.
  apply in_app_or in H. tauto.
Qed.

(** No code unit other than white space is lost by the split. *)
Lemma split_from_covers c : isWhiteSpace c = false ->
  forall s k piece,
    In c piece \/ In c (skipn k s) ->
    exists p, In p (split_from separator_re k piece s) /\ In c p.
Proof.
  intros Hc. induction s as [|d s IH]; intros k piece H.
  - simpl. exists piece. split; [now left|].
    destruct H as [H|H]; [exact H|]. destruct k; destruct H.
  - destruct k as [|k]; [|apply IH; exact H].
    cbn [split_from]. simpl skipn in H.
    destruct (exec separator_re (d :: s)) as [[|n]|] eqn:E.
    + apply IH. destruct H as [H|[->|H]].
      * left. apply in_or_app. now left.
      * left. apply in_or_app. right. now left.
      * right. exact H.
    + destruct H as [H|H].
      * exists piece. split; [now left | exact H].
      * pose proof (separator_is_space _ _ E) as Hw.
        assert (Hs : In c (skipn (S n) (d :: s))).
        { apply in_skipn_of_not_firstn; [exact H|]. intros Hin.
          rewrite forallb_forall in Hw. specialize (Hw c Hin). congruence. }
        simpl in Hs.
        destruct (IH n [] (or_intror Hs)) as [p [Hp Hcp]].
        exists p. split; [now right | exact Hcp].
    + apply IH. destruct H as [H|[->|H]].
      * left. apply in_or_app. now left.
      * left. apply in_or_app. right. now left.
      * right. exact H.
Qed.

(** *** The fallbacks *)

Lemma split_fallbacks_ok text :
  trim text = text -> text <> [] ->
  split_fallbacks text <> []
  /\ Forall (fun s => len (trim s) <> 0) (split_fallbacks text).
Proof.
  intros Ht Hne.
  assert (Hchar : exists c, In c text /\ isWhiteSpace c = false).
  { apply nonblank_has_char. now rewrite Ht. }
  destruct Hchar as [c [Hc Hw]].
  assert (Hself : Forall (fun s => len (trim s) <> 0) [text]).
  { constructor; [|constructor]. rewrite Ht. unfold len.
    destruct text; [contradiction|]. simpl. lia. }
  unfold split_fallbacks.
  destruct (1 <? len (split NL text)).
  - split; [|apply trimmed_nonempty_all].
    assert (Hnl : c <> NL) by (intros ->; discriminate).
    destruct (split_covers NL text c Hc Hnl) as [p [Hp Hcp]].
    eapply trimmed_nonempty_some; eassumption.
  - destruct (100 <? len text); [|split; [discriminate | exact Hself]].
    destruct (1 <? len (String_split separator_re text));
      [|split; [discriminate | exact Hself]].
    split; [|apply trimmed_nonempty_all].
    destruct (split_from_covers c Hw text O [] (or_intror Hc)) as [p [Hp Hcp]].
    eapply trimmed_nonempty_some; eassumption.
Qed.

Lemma blank_iff text :
  negb (nonEmpty text) || (len (trim text) =? 0) = true
  <-> forallb isWhiteSpace text = true.
Proof.
  rewrite <- trim_nil_iff. rewrite orb_true_iff, Z.eqb_eq. unfold len. split.
  - intros [H|H].
    + destruct text; [reflexivity | discriminate].
    + destruct (trim text); [reflexivity | simpl in H; lia].
  - intros H. right. now rewrite H.
Qed.

Lemma splitIntoSentences_nonblank text :
  forallb isWhiteSpace text = false ->
  splitIntoSentences text <> []
  /\ Forall (fun s => len (trim s) <> 0) (splitIntoSentences text).
Proof.
  intros Hb. unfold splitIntoSentences.
  destruct (negb (nonEmpty text) || (len (trim text) =? 0)) eqn:E.
  - apply blank_iff in E. congruence.
  - assert (Hne : trim text <> []).
    { intros H. apply trim_nil_iff in H. congruence. }
    pose proof (split_fallbacks_ok (trim text) (trim_idem text) Hne) as Hfb.
    unfold String_match.
    destruct (match_from sentence_re 0 (trim text)) as [|m ms] eqn:Em;
      [exact Hfb|].
    destruct (0 <? len (m :: ms)); [|exact Hfb].
    rewrite <- Em. split; [|apply trimmed_nonempty_all].
    rewrite trimmed_nonempty_matches, Em. discriminate.
Qed.

(** C9. The result is empty exactly when the input is empty or white
    space only; an input whose trimmed length is not zero gives at least
    one sentence; and every sentence returned has a trimmed length that
    is not zero. *)
Theorem splitIntoSentences_empty_iff_blank (text : jsstring) :
  (splitIntoSentences text = [] <-> forallb isWhiteSpace text = true)
  /\ (len (trim text) <> 0 -> 1 <= len (splitIntoSentences text))
  /\ Forall (fun s => len (trim s) <> 0) (splitIntoSentences text).
Proof.
  destruct (forallb isWhiteSpace text) eqn:Hb.
  - assert (E : splitIntoSentences text = []).
    { unfold splitIntoSentences.
      apply blank_iff in Hb. now rewrite Hb. }
    rewrite E. split; [tauto|]. split; [|constructor].
    intros H. exfalso. apply H.
    apply trim_nil_iff in Hb. now rewrite Hb.
  - destruct (splitIntoSentences_nonblank text Hb) as [Hne Hall].
    split; [|split; [|exact Hall]].
    + split; [contradiction | discriminate].
    + intros _. unfold len. destruct (splitIntoSentences text); [contradiction|].
      simpl. lia.
Qed.

Lemma splitIntoSentences_empty_iff_blank_witness :
  1 <= len (splitIntoSentences (lit "Hello there.")).
Proof.
  apply (proj1 (proj2 (splitIntoSentences_empty_iff_blank (lit "Hello there.")))).
  vm_compute. discriminate.
Defined.

(** *** The first stage *)

Lemma first_stage_eq text :
  first_stage text =
  match sentence_matches text with
  | [] => None
  | ms => Some (map trim ms)
  end.
Proof.
  unfold first_stage, String_match, sentence_matches.
  destruct (match_from sentence_re 0 text) as [|m ms] eqn:E;
    [reflexivity|].
  rewrite <- E. now rewrite trimmed_nonempty_matches.
Qed.

Lemma splitIntoSentences_first_stage text sentences :
  forallb isWhiteSpace text = false ->
  first_stage (trim text) = Some sentences ->
  splitIntoSentences text = sentences.
Proof.
  intros Hb H. unfold splitIntoSentences.
  destruct (negb (nonEmpty text) || (len (trim text) =? 0)) eqn:E.
  - apply blank_iff in E. congruence.
  - unfold first_stage in H.
    destruct (String_match sentence_re (trim text)) as [ms|] eqn:Em;
      [|discriminate].
    injection H as <-.
    assert (Hpos : (0 <? len ms) = true).
    { apply len_pos_iff. unfold String_match in Em.
      destruct (match_from sentence_re 0 (trim text));
        [discriminate|]. injection Em as <-. discriminate. }
    now rewrite Hpos.
Qed.

(** C4, as the code has it. The terminators of the first stage are
    [. ! ? । ॥] and the closing parenthesis, and nothing else; a match is a
    run of code units that are neither terminators nor newlines, then the
    whole run of terminators after it; a code unit that starts no such run
    is passed over, and so is a run that no terminator follows; when there
    is at least one match, the matches, trimmed, none of them empty, are
    the result of [splitIntoSentences]. *)
Theorem first_stage_splits_on_terminator_runs :
  (forall c, isTerminator c = true <->
             c = 46 \/ c = 33 \/ c = 63 \/ c = 2404 \/ c = 2405 \/ c = 41)
  /\ (forall c, isSentenceChar c = true <-> isTerminator c = false /\ c <> 10)
  /\ sentence_matches [] = []
  /\ (forall c s, isSentenceChar c = false ->
                  sentence_matches (c :: s) = sentence_matches s)
  /\ (forall b rest,
        forallb isSentenceChar b = true ->
        stops isSentenceChar rest -> stops isTerminator rest ->
        sentence_matches (b ++ rest) = sentence_matches rest)
  /\ (forall b t rest,
        b <> [] -> t <> [] ->
        forallb isSentenceChar b = true -> forallb isTerminator t = true ->
        stops isTerminator rest ->
        sentence_matches (b ++ t ++ rest) = (b ++ t) :: sentence_matches rest)
  /\ (forall text,
        first_stage text =
        match sentence_matches text with
        | [] => None
        | ms => Some (map trim ms)
        end)
  /\ (forall text, Forall (fun m => trim m <> []) (sentence_matches text))
  /\ (forall text sentences,
        forallb isWhiteSpace text = false ->
        first_stage (trim text) = Some sentences ->
        splitIntoSentences text = sentences).
Proof.
  split; [exact isTerminator_iff|].
  split; [exact isSentenceChar_iff|].
  split; [reflexivity|].
  split; [exact (match_all_skip isSentenceChar isTerminator
                   terminator_not_sentenceChar)|].
  split; [exact (match_all_drop isSentenceChar isTerminator
                   terminator_not_sentenceChar)|].
  split; [exact (match_all_match isSentenceChar isTerminator
                   terminator_not_sentenceChar)|].
  split; [exact first_stage_eq|].
  split; [|exact splitIntoSentences_first_stage].
  intros text. apply Forall_forall. intros m Hm.
  eapply match_not_blank. exact Hm.
Qed.

Lemma first_stage_splits_on_terminator_runs_witness :
  sentence_matches (lit "Wait (now) please!") =
    [lit "Wait (now)"; lit " please!"]
  /\ splitIntoSentences (lit " Wait (now) please! ") =
     [lit "Wait (now)"; lit "please!"].
Proof.
  destruct first_stage_splits_on_terminator_runs
    as [_ [_ [Hnil [_ [_ [Hmatch [_ [_ Hsplit]]]]]]]].
  split.
  - change (lit "Wait (now) please!")
      with (lit "Wait (now" ++ lit ")" ++ lit " please!").
    rewrite Hmatch;
      [|discriminate | discriminate | reflexivity | reflexivity | reflexivity].
    change (lit " please!") with (lit " please" ++ lit "!" ++ []).
    rewrite Hmatch;
      [|discriminate | discriminate | reflexivity | reflexivity | exact I].
    rewrite Hnil. reflexivity.
  - apply Hsplit; reflexivity.
Defined.

(** C4 as stated fails. The closing parenthesis ends a sentence, and a
    newline is no part of one: the first stage of the code and the stage
    with the five terminators differ on both inputs. *)
Lemma first_stage_parenthesis_and_newline :
  first_stage (lit "a)b.") = Some [lit "a)"; lit "b."]
  /\ spec_first_stage (lit "a)b.") = Some [lit "a)b."]
  /\ splitIntoSentences (lit "a)b.") = [lit "a)"; lit "b."]
  /\ first_stage (lit "Hi" ++ [10] ++ lit "there.") = Some [lit "there."]
  /\ spec_first_stage (lit "Hi" ++ [10] ++ lit "there.")
     = Some [lit "Hi" ++ [10] ++ lit "there."].
Proof. repeat split. Qed.

End SentenceFacts.

(** ** The WAV recombination *)

Module WavFacts.

Import JSFacts Wav.

(** *** The marker scan *)

Lemma byteIs_iff buffer (p : nat) b :
  byteIs buffer (Z.of_nat p) b = true <-> nth_error buffer p = Some b.
Proof.
  unfold byteIs, byteAt.
  destruct (Z.ltb_spec (Z.of_nat p) 0) as [H|_]; [lia|].
  rewrite Nat2Z.id. destruct (nth_error buffer p) as [x|].
  - rewrite Z.eqb_eq. split; congruence.
  - split; discriminate.
Qed.

Lemma isDataAt_iff buffer (p : nat) :
  isDataAt buffer (Z.of_nat p) = true <-> markerAt buffer p.
Proof.
  unfold isDataAt, markerAt.
  replace (Z.of_nat p + 1) with (Z.of_nat (p + 1)) by lia.
  replace (Z.of_nat p + 2) with (Z.of_nat (p + 2)) by lia.
  replace (Z.of_nat p + 3) with (Z.of_nat (p + 3)) by lia.
  rewrite !andb_true_iff, !byteIs_iff.
  rewrite <- (Nat.add_0_r p) at 1.
  rewrite <- !nth_error_skipn.
  destruct (skipn p buffer) as [|a [|b [|c [|d r]]]]; simpl;
    split; intros H; try discriminate; try tauto.
  - destruct H as [[[H _] _] _]. discriminate.
  - destruct H as [[[_ H] _] _]. discriminate.
  - destruct H as [[_ H] _]. discriminate.
  - destruct H as [_ H]. discriminate.
  - destruct H as [[[Ha Hb] Hc] Hd]. congruence.
  - injection H as -> -> -> ->. repeat split.
Qed.

Lemma isDataAt_negative buffer i : i < 0 -> isDataAt buffer i = false.
Proof.
  intros H. unfold isDataAt, byteIs, byteAt.
  destruct (Z.ltb_spec i 0); [reflexivity | lia].
Qed.

Lemma readUInt32LE_inside buffer offset :
  0 <= offset -> offset + 4 <= len buffer ->
  exists v, readUInt32LE buffer offset = Ok v.
Proof.
  intros H0 H4. unfold readUInt32LE.
  destruct (Z.ltb_spec offset 0); [lia|].
  destruct (Z.ltb_spec (len buffer) (offset + 4)); [lia|]. simpl.
  assert (Hl : (4 <= length (skipn (Z.to_nat offset) buffer))%nat).
  { rewrite length_skipn. unfold len in H4. lia. }
  destruct (skipn (Z.to_nat offset) buffer) as [|a [|b [|c [|d r]]]];
    simpl in Hl; try lia.
  eexists. reflexivity.
Qed.

(** The loop from [i], for [todo] iterations that all stay at least nine
    bytes before the end: either no index is a marker, or the loop stops
    at the first that is, and the read of the length succeeds. *)
Lemma scan_spec buffer : forall todo i,
  0 <= i -> i + Z.of_nat todo <= Z.max i (len buffer - 8) ->
  (scan buffer todo i = Ok (-1, 0)
   /\ forall j, i <= j < i + Z.of_nat todo -> isDataAt buffer j = false)
  \/ (exists j size,
        scan buffer todo i = Ok (j + 8, size)
        /\ i <= j < i + Z.of_nat todo
        /\ isDataAt buffer j = true
        /\ (forall k, i <= k < j -> isDataAt buffer k = false)
        /\ readUInt32LE buffer (j + 4) = Ok size).
Proof.
  induction todo as [|todo IH]; intros i Hi Hb.
  - left. split; [reflexivity|]. intros j Hj. lia.
  - simpl scan. destruct (isDataAt buffer i) eqn:E.
    + right.
      destruct (readUInt32LE_inside buffer (i + 4)) as [v Hv]; [lia | lia |].
      exists i, v. rewrite Hv. simpl.
      repeat split; try assumption; try lia.
    + destruct (IH (i + 1)) as [[Hs Hn] | [j [size [Hs [Hj [Hd [Hf Hr]]]]]]];
        [lia | lia | |].
      * left. split; [exact Hs|]. intros j Hj.
        destruct (Z.eq_dec j i) as [->|Hne]; [exact E|]. apply Hn. lia.
      * right. exists j, size. repeat split; try assumption; try lia.
        intros k Hk. destruct (Z.eq_dec k i) as [->|Hne]; [exact E|].
        apply Hf. lia.
Qed.

Lemma findDataChunk_spec buffer :
  (findDataChunk buffer = Ok (-1, 0)
   /\ forall j, j <= len buffer - 9 -> isDataAt buffer j = false)
  \/ (exists j size,
        findDataChunk buffer = Ok (j + 8, size)
        /\ 0 <= j <= len buffer - 9
        /\ isDataAt buffer j = true
        /\ (forall k, k < j -> isDataAt buffer k = false)
        /\ readUInt32LE buffer (j + 4) = Ok size).
Proof.
  unfold findDataChunk.
  destruct (scan_spec buffer (Z.to_nat (len buffer - 8)) 0)
    as [[Hs Hn] | [j [size [Hs [Hj [Hd [Hf Hr]]]]]]]; try lia.
  - left. split; [exact Hs|]. intros j Hj.
    destruct (Z.ltb_spec j 0); [now apply isDataAt_negative|].
    apply Hn. lia.
  - right. exists j, size. repeat split; try assumption; try lia.
    intros k Hk. destruct (Z.ltb_spec k 0); [now apply isDataAt_negative|].
    apply Hf. lia.
Qed.

Lemma findDataChunk_total buffer : exists r, findDataChunk buffer = Ok r.
Proof.
  destruct (findDataChunk_spec buffer) as [[H _] | [j [size [H _]]]];
    eexists; exact H.
Qed.

Lemma payload_unmarked buffer :
  (forall j, j <= len buffer - 9 -> isDataAt buffer j = false) ->
  findDataChunk buffer = Ok (-1, 0) /\ payload buffer = [].
Proof.
  intros Hn.
  destruct (findDataChunk_spec buffer) as [[H _] | [j [size [_ [Hj [Hd _]]]]]].
  - split; [exact H|]. unfold payload. now rewrite H.
  - rewrite Hn in Hd by lia. discriminate.
Qed.

(** C10. The scan stops only at an offset from 0 to the length of the
    buffer minus 9, the first that holds the marker; the read of the four
    bytes of the length at that offset plus 4 is then inside the buffer,
    and the scan never throws. What stands after offset length minus 9 is
    not looked at: with no marker up to there the scan finds none. So a
    buffer whose first marker begins in its last eight bytes is handled
    as one without marker: it adds nothing. *)
Theorem scan_stays_inside_buffer (buffer : list Z) :
  (exists r, findDataChunk buffer = Ok r)
  /\ (forall dataChunkStart dataChunkSize,
        findDataChunk buffer = Ok (dataChunkStart, dataChunkSize) ->
        dataChunkStart <> -1 ->
        let i := dataChunkStart - 8 in
        0 <= i <= len buffer - 9
        /\ isDataAt buffer i = true
        /\ (forall k, k < i -> isDataAt buffer k = false)
        /\ i + 4 + 4 <= len buffer
        /\ readUInt32LE buffer (i + 4) = Ok dataChunkSize)
  /\ ((forall j, j <= len buffer - 9 -> isDataAt buffer j = false) ->
      findDataChunk buffer = Ok (-1, 0) /\ payload buffer = [])
  /\ (forall p,
        firstMarkerAt buffer p -> len buffer - 8 <= Z.of_nat p ->
        findDataChunk buffer = Ok (-1, 0) /\ payload buffer = []).
Proof.
  split; [apply findDataChunk_total|]. split; [|split; [apply payload_unmarked|]].
  - intros start size H Hne.
    destruct (findDataChunk_spec buffer)
      as [[H' _] | [j [size' [H' [Hj [Hd [Hf Hr]]]]]]]; rewrite H' in H.
    + injection H as <- <-. contradiction.
    + injection H as <- <-. simpl.
      replace (j + 8 - 8) with j by lia.
      repeat split; try assumption; try lia.
  - intros p [_ Hfirst] Hp. apply payload_unmarked. intros j Hj.
    destruct (Z.ltb_spec j 0); [now apply isDataAt_negative|].
    destruct (isDataAt buffer j) eqn:E; [|reflexivity].
    exfalso. apply (Hfirst (Z.to_nat j)); [lia|].
    apply isDataAt_iff. now rewrite Z2Nat.id by lia.
Qed.

Lemma scan_stays_inside_buffer_witness :
  findDataChunk (lit "RIFF" ++ lit "data" ++ [2; 0; 0; 0]) = Ok (-1, 0)
  /\ payload (lit "RIFF" ++ lit "data" ++ [2; 0; 0; 0]) = [].
Proof.
  apply (proj2 (proj2 (proj2 (scan_stays_inside_buffer
                                (lit "RIFF" ++ lit "data" ++ [2; 0; 0; 0])))) 4%nat).
  - split; [reflexivity|]. intros q Hq. unfold markerAt.
    destruct q as [|[|[|[|q]]]]; [discriminate ..|lia].
  - vm_compute. discriminate.
Defined.


(** *** The payloads *)

Lemma appendAudioData_payload combined buffer :
  appendAudioData combined buffer = Ok (combined ++ payload buffer).
Proof.
  unfold appendAudioData, payload.
  destruct (findDataChunk_total buffer) as [[start size] H]. rewrite H. simpl.
  destruct (negb (start =? -1) && (0 <? size)); [reflexivity|].
  now rewrite app_nil_r.
Qed.

Lemma combine_payloads audioBuffers : forall combined,
  combine combined audioBuffers =
  Ok (combined ++ concat (map payload audioBuffers)).
Proof.
  induction audioBuffers as [|b bs IH]; intros combined; simpl.
  - now rewrite app_nil_r.
  - rewrite appendAudioData_payload. simpl. rewrite IH. now rewrite app_assoc.
Qed.

Lemma total_length_concat payloads :
  total_length payloads = len (concat payloads).
Proof.
  induction payloads as [|p ps IH]; simpl; [reflexivity|].
  now rewrite len_app, IH.
Qed.

(** *** Writing inside the header *)

Lemma blit_length target : forall offset src,
  length (blit target offset src) = length target.
Proof.
  induction target as [|t ts IH]; intros offset src; simpl; [reflexivity|].
  destruct offset; simpl; [|now rewrite IH].
  destruct src; simpl; [reflexivity | now rewrite IH].
Qed.

(** A write that fits in a prefix leaves what follows it alone. *)
Lemma blit_prefix hdr tail : forall offset src,
  (offset + length src <= length hdr)%nat ->
  blit (hdr ++ tail) offset src = blit hdr offset src ++ tail.
Proof.
  induction hdr as [|h hs IH]; intros offset src H; simpl in *.
  - destruct src; simpl in *; [|lia].
    destruct tail; [reflexivity|]. destruct offset; [reflexivity|lia].
  - destruct offset as [|k].
    + destruct src as [|b bs]; [reflexivity|]. simpl.
      rewrite (IH O bs) by (simpl in *; lia). reflexivity.
    + simpl. rewrite (IH k src) by lia. reflexivity.
Qed.

(** A copy right after a prefix, over a tail of the length of the source,
    replaces the tail. *)
Lemma blit_tail hdr : forall tail src,
  length tail = length src ->
  blit (hdr ++ tail) (length hdr) src = hdr ++ src.
Proof.
  induction hdr as [|h hs IH]; intros tail src H; simpl.
  - revert src H. induction tail as [|t ts IHt]; intros [|b bs] H;
      simpl in *; try discriminate; [reflexivity|].
    rewrite IHt by lia. reflexivity.
  - now rewrite IH.
Qed.

Lemma len_blit target offset src : len (blit target offset src) = len target.
Proof. unfold len. now rewrite blit_length. Qed.

Lemma writeUIntLE_prefix width hdr tail value offset :
  0 <= value < 2 ^ (8 * Z.of_nat width) ->
  0 <= offset -> offset + Z.of_nat width <= len hdr ->
  writeUIntLE width (hdr ++ tail) value offset =
  Ok (blit hdr (Z.to_nat offset) (le width value) ++ tail).
Proof.
  intros Hv Ho Hw. unfold writeUIntLE.
  destruct (Z.ltb_spec value 0); [lia|].
  destruct (Z.leb_spec (2 ^ (8 * Z.of_nat width)) value); [lia|].
  destruct (Z.ltb_spec offset 0); [lia|].
  destruct (Z.ltb_spec (len (hdr ++ tail)) (offset + Z.of_nat width)) as [H'|_].
  { rewrite len_app in H'. pose proof (len_nonneg _ tail). lia. }
  simpl. rewrite blit_prefix; [reflexivity|].
  unfold le. rewrite length_map, length_seq. unfold len in Hw. lia.
Qed.

Lemma write_prefix hdr tail s offset :
  0 <= offset -> offset + len s <= len hdr ->
  write (hdr ++ tail) s offset = write hdr s offset ++ tail.
Proof.
  intros Ho Hw. unfold write. apply blit_prefix. unfold len in Hw. lia.
Qed.

Lemma writeUIntLE_out_of_range width buffer value offset :
  2 ^ (8 * Z.of_nat width) <= value ->
  writeUIntLE width buffer value offset = Throw RangeError.
Proof.
  intros H. unfold writeUIntLE.
  destruct (Z.leb_spec (2 ^ (8 * Z.of_nat width)) value); [|lia].
  now rewrite orb_true_r.
Qed.

(** *** The header that is built *)

Lemma alloc_split n : 0 <= n -> alloc (44 + n) = repeat 0 44 ++ repeat 0 (Z.to_nat n).
Proof.
  intros H. unfold alloc. rewrite Z2Nat.inj_add by lia.
  now rewrite repeat_app.
Qed.

Ltac in_range :=
  change (2 ^ (8 * Z.of_nat 4)) with 4294967296;
  change (2 ^ (8 * Z.of_nat 2)) with 65536;
  change (Z.of_nat 4) with 4; change (Z.of_nat 2) with 2;
  lia.

Ltac inside_header :=
  unfold write; rewrite ?len_blit; vm_compute; discriminate.

Lemma buildWav_header combined :
  36 + len combined <= 4294967295 ->
  buildWav combined = Ok (header (len combined) ++ combined).
Proof.
  intros Hfit. pose proof (len_nonneg _ combined) as Hn.
  unfold buildWav. rewrite (alloc_split _ Hn).
  set (tail := repeat 0 (Z.to_nat (len combined))).
  change byteRate with 48000. change blockAlign with 2.
  unfold writeUInt32LE, writeUInt16LE, sampleRate, numChannels, bitsPerSample.
  rewrite write_prefix by (vm_compute; discriminate).
  rewrite writeUIntLE_prefix;
    [| in_range | lia | inside_header].
  cbn [bind].
  rewrite write_prefix;
    [| lia | inside_header].
  rewrite write_prefix;
    [| lia | inside_header].
  repeat (rewrite writeUIntLE_prefix;
    [| in_range | lia | inside_header];
    cbn [bind]).
  rewrite write_prefix;
    [| lia | inside_header].
  rewrite writeUIntLE_prefix;
    [| in_range | lia | inside_header].
  cbn [bind].
  match goal with
  | |- Ok (blit (?h ++ tail) 44 combined) = _ =>
      assert (Hh : h = header (len combined))
  end.
  { unfold header, write, le, sampleRate, numChannels, byteRate, blockAlign,
      bitsPerSample. reflexivity. }
  rewrite Hh.
  assert (Hl : length (header (len combined)) = 44%nat) by reflexivity.
  rewrite <- Hl at 1. rewrite blit_tail; [reflexivity|].
  unfold tail. rewrite repeat_length. unfold len. lia.
Qed.

Lemma buildWav_too_large combined :
  4294967295 < 36 + len combined -> buildWav combined = Throw RangeError.
Proof.
  intros H. unfold buildWav, writeUInt32LE.
  rewrite writeUIntLE_out_of_range; [reflexivity|]. in_range.
Qed.


(** *** Reading the size fields back *)

Lemma le4_value v :
  0 <= v < 4294967296 ->
  Z.land (Z.shiftr v 0) 255 + Z.land (Z.shiftr v 8) 255 * 2 ^ 8
  + Z.land (Z.shiftr v 16) 255 * 2 ^ 16 + Z.land (Z.shiftr v 24) 255 * 2 ^ 24 = v.
Proof.
  intros Hv. change 255 with (Z.ones 8).
  rewrite !Z.land_ones, !Z.shiftr_div_pow2 by lia.
  change (2 ^ 0) with 1. change (2 ^ 8) with 256.
  change (2 ^ 16) with 65536. change (2 ^ 24) with 16777216.
  Z.div_mod_to_equations. lia.
Qed.

Lemma readUInt32LE_le4 pre v post :
  0 <= v < 4294967296 ->
  readUInt32LE (pre ++ le 4 v ++ post) (len pre) = Ok v.
Proof.
  intros Hv. unfold readUInt32LE.
  pose proof (len_nonneg _ pre) as Hp. pose proof (len_nonneg _ post) as Hq.
  destruct (Z.ltb_spec (len pre) 0); [lia|].
  assert (Hl : len (pre ++ le 4 v ++ post) = len pre + 4 + len post).
  { rewrite !len_app. unfold len at 2. unfold le.
    rewrite length_map, length_seq. lia. }
  destruct (Z.ltb_spec (len (pre ++ le 4 v ++ post)) (len pre + 4)); [lia|].
  cbn [orb]. unfold len at 1. rewrite Nat2Z.id.
  rewrite skipn_app, skipn_all, Nat.sub_diag. cbn [app skipn].
  unfold le. cbn [seq map app].
  change (8 * Z.of_nat 0) with 0. change (8 * Z.of_nat 1) with 8.
  change (8 * Z.of_nat 2) with 16. change (8 * Z.of_nat 3) with 24.
  now rewrite le4_value.
Qed.

Lemma Ok_inj (A : Type) (a b : A) : Ok a = Ok b -> a = b.
Proof. intros H. now injection H. Qed.

Lemma header_length n : len (header n) = 44.
Proof. reflexivity. Qed.

Lemma wav_fields n data :
  0 <= n -> 36 + n <= 4294967295 ->
  len (header n ++ data) = 44 + len data
  /\ readUInt32LE (header n ++ data) 4 = Ok (36 + n)
  /\ readUInt32LE (header n ++ data) 40 = Ok n
  /\ skipn 44 (header n ++ data) = data
  /\ firstn 44 (header n ++ data) = header n.
Proof.
  intros Hn Hfit. split; [now rewrite len_app, header_length|].
  split; [|split; [|split]].
  - change (header n ++ data)
      with (lit "RIFF" ++ le 4 (36 + n)
            ++ (lit "WAVE" ++ lit "fmt " ++ le 4 16 ++ le 2 1 ++ le 2 numChannels
                ++ le 4 sampleRate ++ le 4 byteRate ++ le 2 blockAlign
                ++ le 2 bitsPerSample ++ lit "data" ++ le 4 n) ++ data).
    change 4 with (len (lit "RIFF")) at 1.
    apply readUInt32LE_le4. lia.
  - set (pre := lit "RIFF" ++ le 4 (36 + n) ++ lit "WAVE"
                ++ lit "fmt " ++ le 4 16 ++ le 2 1 ++ le 2 numChannels
                ++ le 4 sampleRate ++ le 4 byteRate ++ le 2 blockAlign
                ++ le 2 bitsPerSample ++ lit "data").
    change (header n ++ data) with (pre ++ le 4 n ++ data).
    change 40 with (len pre).
    apply readUInt32LE_le4. lia.
  - change 44%nat with (length (header n)).
    now rewrite skipn_app, skipn_all, Nat.sub_diag.
  - change 44%nat with (length (header n)).
    now rewrite firstn_app, firstn_all, Nat.sub_diag, app_nil_r.
Qed.

Lemma recombine_eq audioBuffers :
  recombine audioBuffers = buildWav (concat (map payload audioBuffers)).
Proof. unfold recombine. now rewrite combine_payloads. Qed.

(** C2. With [total] the sum of the lengths of the payloads taken from
    the buffers: when 36 + [total] fits the 32-bit size field the merged
    WAV is produced, and it is the 44-byte header followed by the
    payloads in input order; a WAV that is produced has 44 + [total]
    bytes, its field at offset 4 reads 36 + [total], its field at offset
    40 reads [total], and after its 44 first bytes come the payloads in
    input order; a buffer without marker, or whose declared length is not
    positive, adds no byte. *)
Theorem recombine_layout (audioBuffers : list (list Z)) :
  let payloads := map payload audioBuffers in
  let total := total_length payloads in
  (36 + total <= 4294967295 ->
     recombine audioBuffers = Ok (header total ++ concat payloads))
  /\ (forall wav,
        recombine audioBuffers = Ok wav ->
        len wav = 44 + total
        /\ readUInt32LE wav 4 = Ok (36 + total)
        /\ readUInt32LE wav 40 = Ok total
        /\ skipn 44 wav = concat payloads
        /\ firstn 44 wav = header total)
  /\ (forall buffer, markerless buffer -> payload buffer = [])
  /\ (forall buffer dataChunkStart dataChunkSize,
        findDataChunk buffer = Ok (dataChunkStart, dataChunkSize) ->
        dataChunkSize <= 0 -> payload buffer = []).
Proof.
  intros payloads total.
  assert (Ht : total = len (concat payloads)) by apply total_length_concat.
  pose proof (len_nonneg _ (concat payloads)) as Hn.
  split; [|split; [|split]].
  - intros Hfit. rewrite recombine_eq. fold payloads.
    rewrite buildWav_header by lia. now rewrite <- Ht.
  - intros wav H. rewrite recombine_eq in H. fold payloads in H.
    destruct (Z_le_gt_dec (36 + len (concat payloads)) 4294967295) as [Hfit|Hbig].
    + rewrite buildWav_header in H by exact Hfit.
      apply Ok_inj in H. subst wav.
      rewrite <- Ht.
      destruct (wav_fields total (concat payloads)) as [H1 [H2 [H3 [H4 H5]]]];
        [lia | lia |].
      rewrite H1, <- Ht. repeat split; assumption.
    + rewrite buildWav_too_large in H by lia. discriminate.
  - intros buffer Hm. apply payload_unmarked. intros j Hj.
    destruct (Z.ltb_spec j 0); [now apply isDataAt_negative|].
    destruct (isDataAt buffer j) eqn:E; [|reflexivity].
    exfalso. apply (Hm (Z.to_nat j)).
    apply isDataAt_iff. now rewrite Z2Nat.id by lia.
  - intros buffer start size H Hs. unfold payload. rewrite H.
    destruct (Z.ltb_spec 0 size); [lia|]. now rewrite andb_false_r.
Qed.

Lemma recombine_layout_witness :
  recombine [segment_one; segment_none; segment_two] =
    Ok (header 5 ++ [11; 12; 13; 21; 22])
  /\ len (header 5 ++ [11; 12; 13; 21; 22]) = 44 + 5
  /\ readUInt32LE (header 5 ++ [11; 12; 13; 21; 22]) 4 = Ok 41
  /\ readUInt32LE (header 5 ++ [11; 12; 13; 21; 22]) 40 = Ok 5.
Proof.
  destruct (recombine_layout [segment_one; segment_none; segment_two])
    as [Hmake [Hread _]].
  assert (H : recombine [segment_one; segment_none; segment_two] =
              Ok (header 5 ++ [11; 12; 13; 21; 22])).
  { apply Hmake. vm_compute. discriminate. }
  split; [exact H|].
  destruct (Hread _ H) as [H1 [H2 [H3 _]]].
  split; [exact H1|]. split; [exact H2 | exact H3].
Defined.

End WavFacts.

(** ** The pipelines *)

Module RouteFacts.

Import JSFacts Routes Runs.

Lemma indices_from_S k n : indices_from k (S n) = k :: indices_from (k + 1) n.
Proof.
  unfold indices_from. simpl. f_equal; [lia|].
  rewrite <- seq_shift, map_map. apply map_ext. intros j. lia.
Qed.

Lemma tooShort_false_iff s : tooShort s = false <-> 2 <= len (trim s).
Proof. unfold tooShort. rewrite Z.ltb_ge. tauto. Qed.

Lemma spoken_iff sentences s :
  In s (spoken sentences) <-> In s sentences /\ 2 <= len (trim s).
Proof.
  unfold spoken. rewrite filter_In, negb_true_iff, tooShort_false_iff. tauto.
Qed.

Section Pipelines.

Variable World : Type.
Variable JSON_parse : jsstring -> option jsval.
Variable stt_post :
  World -> list Z -> jsstring -> sttOptions -> World * result jsval.
Variable webhook_post :
  World -> jsval -> World * result (list (list Z) * Webhook.finish).
Variable tts_service : World -> jsstring -> World * result jsval.

Local Abbreviation stt := (convertAudioToText stt_post).
Local Abbreviation backend := (callWebhookStream JSON_parse webhook_post).
Local Abbreviation speak := (convertTextToSpeech tts_service).
Local Abbreviation progressive :=
  (process_recording_stream JSON_parse stt_post webhook_post tts_service).
Local Abbreviation aggregate :=
  (process_recording JSON_parse stt_post webhook_post tts_service).
Local Abbreviation stream := (stream_loop tts_service).
Local Abbreviation collect := (aggregate_loop tts_service).

(** *** What the collaborator calls leave in the trace *)

(** One request; a text returned is truthy, has a string conversion and
    is a field of the response data; a failure is wrapped. *)
Lemma convertAudioToText_run audio mime options w :
  snd (fst (stt audio mime options w)) = [STT_request audio mime options]
  /\ match snd (stt audio mime options w) with
     | Ok text =>
         Val.truthy text = true
         /\ (exists s, Val.toString text = Ok s)
         /\ exists data k,
              snd (stt_post w audio mime options) = Ok data
              /\ In k [lit "transcript"; lit "text"; lit "result"]
              /\ Val.get data k = Ok text
     | Throw e => exists cause, e = Wrapped (lit "STT conversion failed: ") cause
     end.
Proof.
  assert (Hend : forall (w1 : World) data k text,
            snd (stt_post w audio mime options) = Ok data ->
            In k [lit "transcript"; lit "text"; lit "result"] ->
            Val.get data k = Ok text ->
            Val.truthy text = true ->
            let run : World * list effect * result jsval :=
              match Val.toString text with
              | Ok _ => (w1, [STT_request audio mime options], Ok text)
              | Throw e =>
                  (w1, [STT_request audio mime options],
                   Throw (Wrapped (lit "STT conversion failed: ") e))
              end in
            snd (fst run) = [STT_request audio mime options]
            /\ match snd run with
               | Ok text =>
                   Val.truthy text = true
                   /\ (exists s, Val.toString text = Ok s)
                   /\ exists data k,
                        snd (stt_post w audio mime options) = Ok data
                        /\ In k [lit "transcript"; lit "text"; lit "result"]
                        /\ Val.get data k = Ok text
               | Throw e =>
                   exists cause, e = Wrapped (lit "STT conversion failed: ") cause
               end).
  { intros w1 data k text Hd Hk Hg Ht run. subst run.
    destruct (Val.toString text) as [s|e] eqn:Es; cbn [fst snd].
    - split; [reflexivity|]. split; [exact Ht|]. split; [now exists s|].
      now exists data, k.
    - split; [reflexivity | eexists; reflexivity]. }
  unfold convertAudioToText, try_catch, mbind, perform, lift, ret, throw.
  destruct (stt_post w audio mime options) as [w1 [data|e]] eqn:Ep;
    [|split; [reflexivity | eexists; reflexivity]].
  destruct (Val.get data (lit "transcript")) as [transcript|e] eqn:E1;
    [|split; [reflexivity | eexists; reflexivity]].
  destruct (Val.truthy transcript) eqn:Et.
  - cbn [negb]. rewrite Et. cbn [negb].
    generalize (Hend w1 data (lit "transcript") transcript eq_refl
                  (or_introl eq_refl) E1 Et).
    cbv zeta. destruct (Val.toString transcript); exact (fun H => H).
  - destruct (Val.get data (lit "text")) as [text|e] eqn:E2;
      [|split; [reflexivity | eexists; reflexivity]].
    destruct (Val.truthy text) eqn:Ex.
    + cbn [negb]. rewrite Ex. cbn [negb].
      generalize (Hend w1 data (lit "text") text eq_refl
                    (or_intror (or_introl eq_refl)) E2 Ex).
      cbv zeta. destruct (Val.toString text); exact (fun H => H).
    + destruct (Val.get data (lit "result")) as [res|e] eqn:E3;
        [|split; [reflexivity | eexists; reflexivity]].
      cbn [negb]. destruct (Val.truthy res) eqn:Er; cbn [negb];
        [|split; [reflexivity | eexists; reflexivity]].
      generalize (Hend w1 data (lit "result") res eq_refl
                    (or_intror (or_intror (or_introl eq_refl))) E3 Er).
      cbv zeta. destruct (Val.toString res); exact (fun H => H).
Qed.

Lemma convertAudioToText_trace audio mime options w :
  snd (fst (stt audio mime options w)) = [STT_request audio mime options].
Proof. apply convertAudioToText_run. Qed.

Lemma convertAudioToText_printable audio mime options w w' l text :
  stt audio mime options w = (w', l, Ok text) ->
  exists s, Val.toString text = Ok s.
Proof.
  intros H. pose proof (proj2 (convertAudioToText_run audio mime options w)) as Hr.
  rewrite H in Hr. apply Hr.
Qed.

Lemma callWebhookStream_trace text w :
  snd (fst (backend text w)) = [Webhook_request text].
Proof.
  unfold callWebhookStream, mbind, perform, lift.
  destruct (webhook_post w text) as [w1 posted]. reflexivity.
Qed.

(** *** One turn of each loop *)

Lemma stream_loop_short total i successCount s rest w :
  tooShort s = true ->
  stream total i successCount (s :: rest) w =
  stream total (i + 1) successCount rest w.
Proof. intros H. simpl. now rewrite H. Qed.

Lemma stream_loop_spoken total i successCount s rest w :
  tooShort s = false ->
  stream total i successCount (s :: rest) w =
  match tts_service w s with
  | (w1, Ok ttsBase64) =>
      let '(w2, l, r) := stream total (i + 1) (successCount + 1) rest w1 in
      (w2,
       TTS_request s
       :: sendEvent
            match substring_to 100 ttsBase64 with
            | Ok _ => tts_result {| sentenceIndex := successCount + 1;
                                    sentence := s;
                                    ttsBase64 := ttsBase64 |}
                                 (successCount + 1, total)
            | Throw thrown => tts_error (i + 1) s thrown
            end
       :: l, r)
  | (w1, Throw e) =>
      let '(w2, l, r) := stream total (i + 1) successCount rest w1 in
      (w2, TTS_request s :: sendEvent (tts_error (i + 1) s e) :: l, r)
  end.
Proof.
  intros H. cbn [stream_loop]. rewrite H.
  cbv [mbind try_catch convertTextToSpeech perform ret lift].
  destruct (tts_service w s) as [w1 [a|e]]; cbn [app].
  - destruct (substring_to 100 a) as [p|e]; cbn [app];
      destruct (stream total (i + 1) (successCount + 1) rest w1) as [[w2 l] r];
      reflexivity.
  - destruct (stream total (i + 1) successCount rest w1) as [[w2 l] r].
    reflexivity.
Qed.

Lemma aggregate_loop_short i results s rest w :
  tooShort s = true ->
  collect i results (s :: rest) w = collect (i + 1) results rest w.
Proof. intros H. simpl. now rewrite H. Qed.

Lemma aggregate_loop_spoken i results s rest w :
  tooShort s = false ->
  collect i results (s :: rest) w =
  match tts_service w s with
  | (w1, Ok ttsBase64) =>
      let '(w2, l, r) :=
        collect (i + 1)
          (results ++ [{| sentenceIndex := len results + 1;
                          sentence := s;
                          ttsBase64 := ttsBase64 |}]) rest w1 in
      (w2, TTS_request s :: l, r)
  | (w1, Throw e) => (w1, [TTS_request s], Throw e)
  end.
Proof.
  intros H. cbn [aggregate_loop]. rewrite H.
  cbv [mbind convertTextToSpeech perform].
  destruct (tts_service w s) as [w1 [a|e]]; cbn [app]; [|reflexivity].
  match goal with |- context [collect ?a ?b ?c ?d] =>
    destruct (collect a b c d) as [[w2 l] r] end.
  reflexivity.
Qed.

(** *** The progressive loop *)

Lemma stream_loop_spec rest : forall total i successCount w,
  exists w' l successCount',
    stream total i successCount rest w = (w', l, Ok successCount')
    /\ tts_requests l = spoken rest
    /\ tts_sentences l = spoken rest
    /\ Forall (fun '(k, s) =>
                 i < k /\ nth_error rest (Z.to_nat (k - i - 1)) = Some s)
              (error_entries l).
Proof.
  induction rest as [|s rest IH]; intros total i sc w.
  - exists w, [], sc. simpl. unfold ret. repeat split. constructor.
  - assert (Hshift : forall l,
              Forall (fun '(k, t) =>
                        i + 1 < k
                        /\ nth_error rest (Z.to_nat (k - (i + 1) - 1)) = Some t) l ->
              Forall (fun '(k, t) =>
                        i < k
                        /\ nth_error (s :: rest) (Z.to_nat (k - i - 1)) = Some t) l).
    { intros l Hl. eapply Forall_impl; [|exact Hl].
      intros [k t] [Hk Hn]. split; [lia|].
      replace (Z.to_nat (k - i - 1)) with (S (Z.to_nat (k - (i + 1) - 1))) by lia.
      exact Hn. }
    assert (Hhere : i < i + 1
                    /\ nth_error (s :: rest) (Z.to_nat (i + 1 - i - 1)) = Some s).
    { split; [lia|]. replace (i + 1 - i - 1) with 0 by lia. reflexivity. }
    destruct (tooShort s) eqn:Es.
    + rewrite stream_loop_short by exact Es.
      destruct (IH total (i + 1) sc w) as [w' [l [sc' [H [H1 [H2 H3]]]]]].
      exists w', l, sc'. unfold spoken in *. simpl. rewrite Es. simpl.
      repeat split; try assumption. now apply Hshift.
    + rewrite stream_loop_spoken by exact Es.
      destruct (tts_service w s) as [w1 [a|e]].
      * destruct (IH total (i + 1) (sc + 1) w1) as [w' [l [sc' [H [H1 [H2 H3]]]]]].
        rewrite H. eexists _, _, _. split; [reflexivity|].
        unfold spoken in *. cbn [filter]. rewrite Es. cbn [negb].
        destruct (substring_to 100 a) as [p|e]; simpl; rewrite H1, H2;
          repeat split; try reflexivity.
        -- now apply Hshift.
        -- constructor; [exact Hhere | now apply Hshift].
      * destruct (IH total (i + 1) sc w1) as [w' [l [sc' [H [H1 [H2 H3]]]]]].
        rewrite H. eexists _, _, _. split; [reflexivity|].
        unfold spoken in *. simpl. rewrite Es. simpl. rewrite H1, H2.
        repeat split; try reflexivity.
        constructor; [exact Hhere | now apply Hshift].
Qed.

(** *** The aggregate loop *)

Lemma aggregate_loop_requests rest : forall i results w,
  exists later,
    spoken rest = tts_requests (snd (fst (collect i results rest w))) ++ later.
Proof.
  induction rest as [|s rest IH]; intros i results w.
  - exists []. reflexivity.
  - destruct (tooShort s) eqn:Es.
    + rewrite aggregate_loop_short by exact Es.
      unfold spoken. simpl. rewrite Es. simpl. apply IH.
    + rewrite aggregate_loop_spoken by exact Es.
      unfold spoken. simpl. rewrite Es. simpl.
      destruct (tts_service w s) as [w1 [a|e]].
      * match goal with |- context [collect ?a ?b ?c ?d] =>
          destruct (IH a b d) as [later Hl];
          destruct (collect a b c d) as [[w2 l] r] end.
        simpl in *. exists later. unfold spoken in Hl. now rewrite Hl.
      * simpl. exists (filter (fun s0 => negb (tooShort s0)) rest). reflexivity.
Qed.

Lemma aggregate_loop_spec rest : forall i results w w' l out,
  collect i results rest w = (w', l, Ok out) ->
  exists new,
    out = results ++ new
    /\ map sentence new = spoken rest
    /\ map sentenceIndex new = indices_from (len results + 1) (length new)
    /\ tts_requests l = spoken rest.
Proof.
  induction rest as [|s rest IH]; intros i results w w' l out H.
  - simpl in H. unfold ret in H. injection H as _ <- <-.
    exists []. rewrite app_nil_r. repeat split.
  - destruct (tooShort s) eqn:Es.
    + rewrite aggregate_loop_short in H by exact Es.
      destruct (IH _ _ _ _ _ _ H) as [new [H1 [H2 [H3 H4]]]].
      exists new. unfold spoken in *. simpl. rewrite Es. simpl.
      repeat split; assumption.
    + rewrite aggregate_loop_spoken in H by exact Es.
      destruct (tts_service w s) as [w1 [a|e]]; [|discriminate].
      match type of H with context [collect ?a ?b ?c ?d] =>
        destruct (collect a b c d) as [[w2 l2] r2] eqn:E end.
      injection H as <- <- ->.
      destruct (IH _ _ _ _ _ _ E) as [new [H1 [H2 [H3 H4]]]].
      eexists (_ :: new). rewrite H1, <- app_assoc. split; [reflexivity|].
      unfold spoken in *. simpl. rewrite Es. simpl. rewrite H2, H4.
      repeat split; try reflexivity.
      rewrite indices_from_S. f_equal. rewrite H3. f_equal.
      rewrite len_app. unfold len. simpl. lia.
Qed.

(** *** A failure of the STT call *)

(** C8. When the STT call throws, the progressive run sends [start],
    [stt_start] and one [error] event and ends the response; the aggregate
    run answers once, with status 500 and the error; neither run makes
    any TTS request. *)
Theorem stt_failure_ends_the_run
    (req : request) (f : file) (w w' : World) (l : list effect) (e : exn) :
  req_file req = Some f ->
  stt (file_buffer f) (mimeType_of f) (sttOptions_of req) w = (w', l, Throw e) ->
  let call := STT_request (file_buffer f) (mimeType_of f) (sttOptions_of req) in
  let streamed := [sendEvent start; sendEvent stt_start; call;
                   sendEvent (error e); res_end] in
  let answered := [call; res_json 500 (failed e)] in
  progressive req w = (w', streamed, Ok tt)
  /\ aggregate req w = (w', answered, Ok tt)
  /\ tts_requests streamed = [] /\ tts_requests answered = []
  /\ filter is_failure streamed = [sendEvent (error e)]
  /\ filter is_failure answered = [res_json 500 (failed e)].
Proof.
  intros Hf H call streamed answered.
  assert (Hl : l = [call]).
  { pose proof (convertAudioToText_trace (file_buffer f) (mimeType_of f)
                  (sttOptions_of req) w) as Ht.
    rewrite H in Ht. exact Ht. }
  subst l.
  split; [|split].
  - unfold process_recording_stream. rewrite Hf.
    cbv [try_catch mbind perform]. rewrite H. reflexivity.
  - unfold process_recording. rewrite Hf.
    cbv [try_catch mbind perform]. rewrite H. reflexivity.
  - repeat split.
Qed.

(** *** A failure of one sentence *)

(** C7. In a progressive run whose segmentation gives three sentences of
    trimmed length at least 2, where the TTS call fails for the second and
    succeeds for the first and the third, the events sent are, after those
    of the earlier stages, [tts_result] for the first sentence, [tts_error]
    with index 2 and the text of the second, [tts_result] for the third,
    and [complete]: two [tts_result] events, one [tts_error] event, no
    [error] event, and all three sentences were sent to TTS. *)
Theorem one_failed_sentence_does_not_abort
    (req : request) (f : file) (w0 w1 w2 w3 w4 w5 : World)
    (l1 l2 : list effect) (sttText : jsval) (responses : list jsval)
    (acc s1 s2 s3 a1 a3 : jsstring) (e : exn) :
  req_file req = Some f ->
  stt (file_buffer f) (mimeType_of f) (sttOptions_of req) w0 = (w1, l1, Ok sttText) ->
  backend sttText w1 = (w2, l2, Ok responses) ->
  Webhook.accumulate [] responses = Ok acc ->
  Webhook.splitIntoSentences acc = [s1; s2; s3] ->
  2 <= len (trim s1) -> 2 <= len (trim s2) -> 2 <= len (trim s3) ->
  tts_service w2 s1 = (w3, Ok (JStr a1)) ->
  tts_service w3 s2 = (w4, Throw e) ->
  tts_service w4 s3 = (w5, Ok (JStr a3)) ->
  let first := tts_result {| sentenceIndex := 1; sentence := s1;
                             ttsBase64 := JStr a1 |} (1, 3) in
  let second := tts_error 2 s2 e in
  let third := tts_result {| sentenceIndex := 2; sentence := s3;
                             ttsBase64 := JStr a3 |} (2, 3) in
  exists trace,
    progressive req w0 = (w5, trace, Ok tt)
    /\ events trace =
       [start; stt_start; stt_complete sttText (sttOptions_of req);
        webhook_start; webhook_complete (len responses); tts_start 3 acc;
        first; second; third; complete 3 2]
    /\ filter is_tts_result (events trace) = [first; third]
    /\ filter is_tts_error (events trace) = [second]
    /\ filter is_error (events trace) = []
    /\ last trace res_end = res_end
    /\ tts_requests trace = [s1; s2; s3].
Proof.
  intros Hf Hstt Hweb Hacc Hsplit H1 H2 H3 T1 T2 T3 first second third.
  apply tooShort_false_iff in H1, H2, H3.
  assert (Hl1 : l1 = [STT_request (file_buffer f) (mimeType_of f) (sttOptions_of req)]).
  { pose proof (convertAudioToText_trace (file_buffer f) (mimeType_of f)
                  (sttOptions_of req) w0) as Ht.
    rewrite Hstt in Ht. exact Ht. }
  assert (Hl2 : l2 = [Webhook_request sttText]).
  { pose proof (callWebhookStream_trace sttText w1) as Ht.
    rewrite Hweb in Ht. exact Ht. }
  subst l1 l2.
  assert (Hloop : stream 3 0 0 [s1; s2; s3] w2 =
                  (w5, [TTS_request s1; sendEvent first;
                        TTS_request s2; sendEvent second;
                        TTS_request s3; sendEvent third], Ok 2)).
  { rewrite stream_loop_spoken, T1 by exact H1.
    rewrite stream_loop_spoken, T2 by exact H2.
    rewrite stream_loop_spoken, T3 by exact H3.
    reflexivity. }
  destruct (convertAudioToText_printable _ _ _ _ _ _ _ Hstt) as [printed Hp].
  eexists. split.
  - unfold process_recording_stream. rewrite Hf.
    cbv [try_catch mbind perform lift]. rewrite Hstt, Hp, Hweb, Hacc, Hsplit.
    change (len [s1; s2; s3]) with 3. rewrite Hloop. reflexivity.
  - repeat split.
Qed.

End Pipelines.

(** *** Short sentences and the numbering of the results *)

(** C3. The skipping is as claimed: in both modes the sentences sent to
    TTS are those whose trimmed length is at least 2, in order. The
    numbering is not. The text [Ok. . Bye.] is segmented into three
    sentences, the second of trimmed length 1; it is skipped, and the
    third, [Bye.], is reported with index 2 in both modes, which is the
    position of the skipped sentence, not its own. In the progressive
    loop a [tts_error] event carries the position [i + 1] while a
    [tts_result] event carries [successCount]: on [One. Two. Three.]
    with the second call failing, index 2 names both the error of
    [Two.] and the result of [Three.]. *)
Theorem reported_index_is_not_the_position :
  (forall (World : Type)
          (tts_service : World -> jsstring -> World * result jsval)
          (sentences : list jsstring) (total : Z) (w : World),
     (forall s, In s (spoken sentences) <-> In s sentences /\ 2 <= len (trim s))
     /\ tts_requests (snd (fst (stream_loop tts_service total 0 0 sentences w)))
        = spoken sentences
     /\ exists later,
          spoken sentences =
          tts_requests (snd (fst (aggregate_loop tts_service 0 [] sentences w)))
          ++ later)
  /\ Webhook.splitIntoSentences (lit "Ok. . Bye.") = [lit "Ok."; lit "."; lit "Bye."]
  /\ at_position (Webhook.splitIntoSentences (lit "Ok. . Bye.")) 3 = Some (lit "Bye.")
  /\ at_position (Webhook.splitIntoSentences (lit "Ok. . Bye.")) 2 = Some (lit ".")
  /\ snd (aggregate_loop tts_up 0 [] (Webhook.splitIntoSentences (lit "Ok. . Bye.")) O)
     = Ok two_entries
  /\ result_entries
       (snd (fst (stream_loop tts_up 3 0 0
                    (Webhook.splitIntoSentences (lit "Ok. . Bye.")) O)))
     = two_entries
  /\ ~ reported_under_original_position
         (Webhook.splitIntoSentences (lit "Ok. . Bye.")) two_entries
  /\ Webhook.splitIntoSentences (lit "One. Two. Three.")
     = [lit "One."; lit "Two."; lit "Three."]
  /\ error_entries
       (snd (fst (stream_loop tts_fails_second 3 0 0
                    [lit "One."; lit "Two."; lit "Three."] O)))
     = [(2, lit "Two.")]
  /\ map (fun r => (sentenceIndex r, sentence r))
         (result_entries
            (snd (fst (stream_loop tts_fails_second 3 0 0
                         [lit "One."; lit "Two."; lit "Three."] O))))
     = [(1, lit "One."); (2, lit "Three.")].
Proof.
  split.
  - intros World tts_service sentences total w.
    split; [apply spoken_iff|]. split.
    + destruct (stream_loop_spec World tts_service sentences total 0 0 w)
        as [w' [l [sc [H [H1 _]]]]].
      rewrite H. exact H1.
    + apply aggregate_loop_requests.
  - repeat split.
    intros H. inversion H as [|x xs _ Hrest]; subst.
    inversion Hrest as [|y ys Hy _]; subst.
    vm_compute in Hy. discriminate.
Qed.

Lemma stt_failure_ends_the_run_witness :
  process_recording_stream not_json stt_down (backend_says []) tts_up upload O =
  (O, [sendEvent start; sendEvent stt_start;
       STT_request (lit "RIFF") (lit "audio/wav") (sttOptions_of upload);
       sendEvent (error (Wrapped (lit "STT conversion failed: ")
                                 (Error (lit "timeout of 30000ms exceeded"))));
       res_end], Ok tt).
Proof.
  refine (proj1 (stt_failure_ends_the_run nat not_json stt_down (backend_says [])
                   tts_up upload _ O O _ _ eq_refl _)).
  reflexivity.
Defined.

Lemma one_failed_sentence_does_not_abort_witness :
  exists trace,
    process_recording_stream not_json (stt_hears (lit "hello"))
      (backend_says (lit "One. Two. Three.")) tts_fails_second upload O
    = (3%nat, trace, Ok tt)
    /\ filter is_tts_result (events trace) =
       [tts_result {| sentenceIndex := 1; sentence := lit "One.";
                      ttsBase64 := JStr audio |} (1, 3);
        tts_result {| sentenceIndex := 2; sentence := lit "Three.";
                      ttsBase64 := JStr audio |} (2, 3)]
    /\ filter is_tts_error (events trace) =
       [tts_error 2 (lit "Two.")
          (Error (lit "TTS conversion failed: timeout of 30000ms exceeded"))].
Proof.
  destruct (one_failed_sentence_does_not_abort nat not_json
              (stt_hears (lit "hello")) (backend_says (lit "One. Two. Three."))
              tts_fails_second upload
              {| file_buffer := lit "RIFF"; mimetype := lit "audio/wav" |}
              O O O 1%nat 2%nat 3%nat
              [STT_request (lit "RIFF") (lit "audio/wav") (sttOptions_of upload)]
              [Webhook_request (JStr (lit "hello"))]
              (JStr (lit "hello"))
              [JObj [(lit "text", JStr (lit "One. Two. Three."))]]
              (lit "One. Two. Three.")
              (lit "One.") (lit "Two.") (lit "Three.") audio audio
              (Error (lit "TTS conversion failed: timeout of 30000ms exceeded")))
    as [trace [Hrun [_ [Hres [Herr _]]]]];
    try reflexivity; try (vm_compute; discriminate).
  exists trace. split; [exact Hrun|]. split; [exact Hres | exact Herr].
Defined.

End RouteFacts.

(** ** More on [callWebhookStream] and on the accumulation *)

Module StreamMore.

Import JSFacts Webhook StreamFacts.

Lemma split_length sep s :
  length (split sep s) = S (count_occ Z.eq_dec s sep).
Proof.
  induction s as [|c s IH]; simpl; [reflexivity|].
  pose proof (split_not_nil sep s) as Hn.
  destruct (Z.eqb_spec c sep) as [->|Hc].
  - destruct (Z.eq_dec sep sep); [|contradiction]. simpl. now rewrite IH.
  - destruct (Z.eq_dec c sep); [contradiction|].
    destruct (split sep s); [contradiction|]. simpl in *. exact IH.
Qed.

Lemma emitted_length JSON_parse pieces :
  (length (emitted JSON_parse pieces) <= length pieces)%nat.
Proof.
  unfold emitted. rewrite length_map. apply filter_length_le.
Qed.

Lemma consume_lines JSON_parse chunks :
  consume JSON_parse chunks End =
  Ok (emitted JSON_parse (split NL (concat (map Utf8.toString chunks)))).
Proof.
  unfold consume. rewrite fold_on_data.
  rewrite fold_on_text by (simpl; tauto).
  rewrite on_text_eq. unfold on_end. cbn [buffer responses init app].
  set (ps := split NL (concat (map Utf8.toString chunks))).
  change (Ok (fold_left (push_message JSON_parse) [last ps []]
                (emitted JSON_parse (removelast ps)))
          = Ok (emitted JSON_parse ps)).
  rewrite fold_push_emitted, <- emitted_app.
  now rewrite <- app_removelast_last by apply split_not_nil.
Qed.

(** X1. The messages of a stream that ends are the lines of the text
    made of the chunks decoded one by one and put end to end, those that
    are not blank, each classified, in order: the chunk boundaries of the
    text play no part, and there is at most one message per line. *)
Theorem messages_are_the_nonblank_lines
    (JSON_parse : jsstring -> option jsval) (chunks : list (list Z)) :
  let text := concat (map Utf8.toString chunks) in
  consume JSON_parse chunks End =
    Ok (map (classify JSON_parse)
            (filter (fun line => nonEmpty (trim line)) (split NL text)))
  /\ forall messages,
       consume JSON_parse chunks End = Ok messages ->
       (length messages <= 1 + count_occ Z.eq_dec text NL)%nat.
Proof.
  intros text. split; [apply consume_lines|].
  intros messages H. rewrite consume_lines in H. injection H as <-.
  fold text.
  change (1 + count_occ Z.eq_dec text NL)%nat
    with (S (count_occ Z.eq_dec text NL)).
  rewrite <- (split_length NL text). apply emitted_length.
Qed.

Lemma messages_are_the_nonblank_lines_witness :
  (length [JNull; JObj [(lit "text", JStr (lit "hello"))]]
   <= 1 + count_occ Z.eq_dec
            (concat (map Utf8.toString [lit "nu"; lit "ll" ++ [NL] ++ lit " hel"; lit "lo "]))
            NL)%nat.
Proof.
  apply (proj2 (messages_are_the_nonblank_lines only_null
                  [lit "nu"; lit "ll" ++ [NL] ++ lit " hel"; lit "lo "])).
  reflexivity.
Defined.

Lemma toString_newline : Utf8.toString [NL] = [NL].
Proof. reflexivity. Qed.

Lemma split_line_end sep line :
  ~ In sep line -> split sep (line ++ [sep]) = [line; []].
Proof.
  induction line as [|c line IH]; intros H; cbn [app split].
  - now rewrite Z.eqb_refl.
  - destruct (Z.eqb_spec c sep) as [->|Hc]; [exfalso; apply H; now left|].
    rewrite IH; [reflexivity|]. intros Hin. apply H. now right.
Qed.

Lemma split_end_newline s : split NL (s ++ [NL]) = split NL s ++ [[]].
Proof.
  rewrite split_app.
  pose proof (split_no_sep NL s) as Hf. pose proof (split_not_nil NL s) as Hn.
  destruct (exists_last Hn) as [r [x E]]. rewrite E in *.
  rewrite removelast_last, last_last. rewrite split_line_end.
  - now rewrite <- app_assoc.
  - rewrite Forall_forall in Hf. apply Hf. apply in_or_app. right. now left.
Qed.

(** X2. A newline at the very end of the stream, in a chunk of its own
    or not, adds no message: the stream with and without it give the same
    messages. *)
Theorem final_newline_adds_nothing
    (JSON_parse : jsstring -> option jsval) (chunks : list (list Z)) :
  consume JSON_parse (chunks ++ [[NL]]) End = consume JSON_parse chunks End.
Proof.
  rewrite !consume_lines. rewrite map_app, concat_app. cbn [map concat].
  rewrite toString_newline, app_nil_r, split_end_newline.
  unfold emitted. rewrite filter_app, map_app. cbn. now rewrite app_nil_r.
Qed.

(** *** ASCII streams *)

Lemma run_ascii bytes :
  Forall (fun b => 0 <= b <= 127) bytes ->
  Utf8.run Utf8.start bytes = (Utf8.start, bytes).
Proof.
  induction 1 as [|b bs Hb _ IH]; [reflexivity|].
  cbn [Utf8.run]. unfold Utf8.step. cbn [Utf8.bytes_needed Utf8.start Z.eqb].
  unfold Utf8.lead.
  destruct (Z.leb_spec 0 b); [|lia]. destruct (Z.leb_spec b 127); [|lia].
  cbn [andb]. now rewrite IH.
Qed.

Lemma ascii_complete bytes :
  Forall (fun b => 0 <= b <= 127) bytes ->
  Utf8.complete bytes /\ Utf8.toString bytes = bytes.
Proof.
  intros H. unfold Utf8.complete, Utf8.toString. rewrite (run_ascii bytes H).
  split; [reflexivity|]. apply app_nil_r.
Qed.

(** X3. On a stream of ASCII bytes the decoding changes nothing and
    every way of cutting the stream into chunks gives the messages of the
    uncut stream. *)
Theorem ascii_stream_is_chunking_independent
    (JSON_parse : jsstring -> option jsval) (chunks : list (list Z))
    (fin : finish) :
  Forall (Forall (fun b => 0 <= b <= 127)) chunks ->
  consume JSON_parse chunks fin = consume JSON_parse [concat chunks] fin
  /\ concat (map Utf8.toString chunks) = concat chunks.
Proof.
  intros H. split.
  - apply chunking_on_character_boundaries.
    eapply Forall_impl; [|exact H]. intros c Hc. now apply ascii_complete.
  - induction H as [|c cs Hc _ IH]; [reflexivity|].
    cbn [map concat]. rewrite IH. f_equal. now apply ascii_complete.
Qed.

Lemma ascii_stream_is_chunking_independent_witness :
  consume only_null [lit "nu"; lit "ll" ++ [NL] ++ lit "hel"; lit "lo"] End =
  consume only_null [lit "null" ++ [NL] ++ lit "hello"] End.
Proof.
  refine (proj1 (ascii_stream_is_chunking_independent only_null
                   [lit "nu"; lit "ll" ++ [NL] ++ lit "hel"; lit "lo"] End _)).
  change [lit "nu"; lit "ll" ++ [NL] ++ lit "hel"; lit "lo"]
    with [[110; 117]; [108; 108; 10; 104; 101; 108]; [108; 111]].
  repeat (first [apply Forall_nil | apply Forall_cons]); lia.
Defined.

(** *** Accumulation *)

Lemma accumulate_app a : forall acc b,
  accumulate acc (a ++ b) =
  bind (accumulate acc a) (fun acc' => accumulate acc' b).
Proof.
  induction a as [|r rs IH]; intros acc b; [reflexivity|].
  cbn [app accumulate].
  destruct (extractTextFromResponse r) as [v|e]; [|reflexivity].
  cbn [bind]. destruct (Val.truthy v); [|apply IH].
  destruct (Val.toString v) as [s|e]; [|reflexivity].
  cbn [bind]. apply IH.
Qed.

Lemma accumulate_extends rs : forall acc out,
  accumulate acc rs = Ok out -> exists added, out = acc ++ added.
Proof.
  induction rs as [|r rs IH]; intros acc out H.
  - injection H as <-. exists []. now rewrite app_nil_r.
  - cbn [accumulate] in H.
    destruct (extractTextFromResponse r) as [v|e]; [|discriminate].
    cbn [bind] in H. destruct (Val.truthy v); [|now apply IH].
    destruct (Val.toString v) as [s|e]; [|discriminate].
    cbn [bind] in H. destruct (IH _ _ H) as [added ->].
    exists (s ++ added). now rewrite app_assoc.
Qed.

(** X4. The accumulation only appends: the text after any number of
    messages starts with the text before them; and accumulating two
    sequences of messages in a row is accumulating the second from the
    text the first gives, an exception of the first ending both. *)
Theorem accumulation_only_appends
    (acc : jsstring) (first second : list jsval) :
  accumulate acc (first ++ second) =
    bind (accumulate acc first) (fun acc' => accumulate acc' second)
  /\ forall out, accumulate acc first = Ok out -> exists added, out = acc ++ added.
Proof.
  split; [apply accumulate_app | apply accumulate_extends].
Qed.

Lemma accumulation_only_appends_witness :
  exists added, lit "Namaste!" = [] ++ added.
Proof.
  apply (proj2 (accumulation_only_appends []
                  [JObj [(lit "type", JStr (lit "begin"))]; item (lit "Nama");
                   item (lit "ste!")] [])).
  reflexivity.
Defined.

(** X5. A message that is [null], which the line [null] parses to, makes
    the accumulation throw a [TypeError], whatever was accumulated before
    it and whatever follows it. *)
Theorem null_message_aborts_accumulation
    (acc acc' : jsstring) (before after : list jsval) :
  accumulate acc before = Ok acc' ->
  accumulate acc (before ++ JNull :: after) = Throw TypeError.
Proof.
  intros H. rewrite accumulate_app, H. reflexivity.
Qed.

Lemma null_message_aborts_accumulation_witness :
  accumulate [] ([item (lit "Hi")] ++ JNull :: [item (lit "there")])
  = Throw TypeError.
Proof.
  apply (null_message_aborts_accumulation [] (lit "Hi")). reflexivity.
Defined.

End StreamMore.

(** ** More on [splitIntoSentences] *)

Module SentenceMore.

Import JSFacts Regex Webhook SentenceFacts.

(** *** Trimming *)

Lemma dropWhile_subset p s c : In c (dropWhile p s) -> In c s.
Proof.
  destruct (dropWhile_suffix p s) as [pre [H _]]. intros Hin.
  rewrite H. apply in_or_app. now right.
Qed.

Lemma trim_subset s c : In c (trim s) -> In c s.
Proof.
  unfold trim, trimEnd, trimStart. intros H.
  apply (proj2 (in_rev _ c)) in H. apply dropWhile_subset in H.
  apply (proj2 (in_rev _ c)) in H. now apply dropWhile_subset in H.
Qed.

Lemma dropWhile_app_stop p s tail :
  dropWhile p s <> [] -> dropWhile p (s ++ tail) = dropWhile p s ++ tail.
Proof.
  induction s as [|c s IH]; cbn [dropWhile app]; [contradiction|].
  destruct (p c); [exact IH | reflexivity].
Qed.

Lemma dropWhile_app_all p s tail :
  forallb p s = true -> dropWhile p (s ++ tail) = dropWhile p tail.
Proof.
  induction s as [|c s IH]; cbn [forallb dropWhile app]; [reflexivity|].
  intros H. apply andb_prop in H. destruct H as [Hc Hs]. rewrite Hc. now apply IH.
Qed.

Lemma trimStart_end y c :
  isWhiteSpace c = false -> exists y', trimStart (y ++ [c]) = y' ++ [c].
Proof.
  intros Hc. unfold trimStart. induction y as [|d y [y' IH]]; cbn [app dropWhile].
  - rewrite Hc. now exists [].
  - destruct (isWhiteSpace d); [now exists y'|]. now exists (d :: y).
Qed.

Lemma trimEnd_end y c : isWhiteSpace c = false -> trimEnd (y ++ [c]) = y ++ [c].
Proof.
  intros Hc. unfold trimEnd. rewrite rev_app_distr. cbn [rev app dropWhile].
  rewrite Hc. change (c :: rev y) with (rev [c] ++ rev y).
  now rewrite <- rev_app_distr, rev_involutive.
Qed.

(** A string that ends with a code unit other than white space keeps its
    end when trimmed, and loses nothing when more text follows it. *)
Lemma trim_end y c :
  isWhiteSpace c = false ->
  trim (y ++ [c]) = trimStart (y ++ [c])
  /\ exists y', trim (y ++ [c]) = y' ++ [c].
Proof.
  intros Hc. unfold trim. destruct (trimStart_end y c Hc) as [y' E].
  rewrite E, (trimEnd_end y' c Hc). split; [reflexivity | now exists y'].
Qed.

Lemma trim_followed y c tail :
  isWhiteSpace c = false ->
  exists tail',
    trim (y ++ [c] ++ tail) = trim (y ++ [c]) ++ tail'
    /\ forall d, In d tail' -> In d tail.
Proof.
  intros Hc. destruct (trim_end y c Hc) as [Ht [y' Ey]].
  assert (Hs : trimStart (y ++ [c] ++ tail) = trim (y ++ [c]) ++ tail).
  { rewrite Ht. unfold trimStart. rewrite app_assoc.
    apply dropWhile_app_stop. fold (trimStart (y ++ [c])).
    rewrite <- Ht, Ey. now destruct y'. }
  unfold trim at 1. rewrite Hs, Ey. unfold trimEnd.
  rewrite rev_app_distr.
  destruct (forallb isWhiteSpace (rev tail)) eqn:E.
  - exists []. rewrite dropWhile_app_all by exact E.
    fold (trimEnd (y' ++ [c])). rewrite (trimEnd_end y' c Hc), app_nil_r.
    split; [reflexivity | intros d []].
  - exists (trimEnd tail). split.
    + rewrite dropWhile_app_stop.
      * rewrite rev_app_distr, rev_involutive. reflexivity.
      * intros H. apply dropWhile_nil_iff in H. congruence.
    + intros d Hd. unfold trimEnd in Hd.
      apply (proj2 (in_rev _ d)) in Hd. apply dropWhile_subset in Hd.
      now apply (proj2 (in_rev _ d)) in Hd.
Qed.

(** *** Every sentence is trimmed *)

Lemma trimmed_nonempty_trimmed pieces :
  Forall (fun s => trim s = s) (trimmed_nonempty pieces).
Proof.
  unfold trimmed_nonempty. apply Forall_forall. intros s Hs.
  apply filter_In in Hs. destruct Hs as [Hin _].
  apply in_map_iff in Hin. destruct Hin as [p [<- _]]. apply trim_idem.
Qed.

(** X6. Every sentence that [splitIntoSentences] returns is trimmed:
    trimming it again, as the route handlers do before they measure it,
    changes nothing. *)
Theorem sentences_are_trimmed (text : jsstring) :
  Forall (fun s => trim s = s) (splitIntoSentences text).
Proof.
  unfold splitIntoSentences.
  destruct (negb (nonEmpty text) || (len (trim text) =? 0)); [constructor|].
  assert (Hfb : Forall (fun s => trim s = s) (split_fallbacks (trim text))).
  { assert (Hself : Forall (fun s => trim s = s) [trim text])
      by (constructor; [apply trim_idem | constructor]).
    unfold split_fallbacks.
    destruct (1 <? len (split NL (trim text))); [apply trimmed_nonempty_trimmed|].
    destruct (100 <? len (trim text)); [|exact Hself].
    destruct (1 <? len (String_split separator_re (trim text)));
      [apply trimmed_nonempty_trimmed | exact Hself]. }
  destruct (String_match sentence_re (trim text)) as [ms|]; [|exact Hfb].
  destruct (0 <? len ms); [apply trimmed_nonempty_trimmed | exact Hfb].
Qed.

(** *** The sentences of the first stage *)

Lemma sentenceChar_not_newline c : isSentenceChar c = true -> c <> NL.
Proof. intros H. apply isSentenceChar_iff in H. unfold NL. tauto. Qed.

Lemma terminator_not_newline c : isTerminator c = true -> c <> NL.
Proof.
  intros H. apply isTerminator_iff in H. unfold NL.
  destruct H as [->|[->|[->|[->|[->| ->]]]]]; discriminate.
Qed.

Lemma match_is_a_line k s m :
  In m (match_from sentence_re k s) ->
  (exists y c, trim m = y ++ [c] /\ isTerminator c = true) /\ ~ In NL (trim m).
Proof.
  intros Hin.
  pose proof (match_from_shape isSentenceChar isTerminator
                terminator_not_sentenceChar s k) as Hf.
  rewrite Forall_forall in Hf.
  destruct (Hf m Hin) as [b [t [-> [_ [Ht [Hbb Htt]]]]]].
  destruct (exists_last Ht) as [t' [c ->]].
  assert (Hc : isTerminator c = true).
  { rewrite forallb_forall in Htt. apply Htt. apply in_or_app. right. now left. }
  split.
  - rewrite app_assoc.
    destruct (trim_end (b ++ t') c (terminator_not_space c Hc)) as [_ [y' E]].
    exists y', c. split; assumption.
  - intros Hnl. apply trim_subset in Hnl. apply in_app_or in Hnl.
    rewrite forallb_forall in Hbb, Htt. destruct Hnl as [H|H].
    + now apply (sentenceChar_not_newline NL (Hbb NL H)).
    + now apply (terminator_not_newline NL (Htt NL H)).
Qed.

(** X7. When the text holds a match of the first stage, the sentences
    returned are those of that stage, and each of them ends with a
    terminator and holds no newline. *)
Theorem punctuated_sentences_end_with_a_terminator
    (text : jsstring) (sentences : list jsstring) :
  first_stage (trim text) = Some sentences ->
  splitIntoSentences text = sentences
  /\ Forall (fun s => (exists y c, s = y ++ [c] /\ isTerminator c = true)
                      /\ ~ In NL s) sentences.
Proof.
  intros H.
  assert (Hb : forallb isWhiteSpace text = false).
  { destruct (forallb isWhiteSpace text) eqn:E; [|reflexivity].
    apply trim_nil_iff in E. rewrite E in H. discriminate. }
  split; [now apply splitIntoSentences_first_stage|].
  rewrite first_stage_eq in H. unfold sentence_matches in H.
  destruct (match_from sentence_re 0 (trim text)) as [|m ms] eqn:E;
    [discriminate|].
  rewrite <- E in H. injection H as <-. apply Forall_forall. intros s Hs.
  apply in_map_iff in Hs. destruct Hs as [m' [<- Hm]].
  eapply match_is_a_line. exact Hm.
Qed.

Lemma punctuated_sentences_end_with_a_terminator_witness :
  splitIntoSentences (lit " Wait (now) please! ") =
  [lit "Wait (now)"; lit "please!"].
Proof.
  apply (proj1 (punctuated_sentences_end_with_a_terminator
                  (lit " Wait (now) please! ")
                  [lit "Wait (now)"; lit "please!"] eq_refl)).
Defined.

(** *** Text without a terminator *)

Lemma span_none p s : (forall c, In c s -> p c = false) -> fst (span p s) = [].
Proof.
  destruct s as [|c s]; [reflexivity|]. intros H. cbn [span].
  now rewrite (H c (or_introl eq_refl)).
Qed.

Lemma span_rest_subset p s c : In c (snd (span p s)) -> In c s.
Proof.
  intros H. rewrite <- (span_app p s). apply in_or_app. now right.
Qed.

Lemma exec_without_terminator s :
  (forall c, In c s -> isTerminator c = false) -> exec sentence_re s = None.
Proof.
  intros H. unfold sentence_re.
  rewrite (exec_runs isSentenceChar isTerminator terminator_not_sentenceChar).
  cbv zeta. rewrite (span_none isTerminator).
  - now rewrite andb_false_r.
  - intros c Hc. apply H. eapply span_rest_subset. exact Hc.
Qed.

Lemma no_match_without_terminator s : forall k,
  (forall c, In c s -> isTerminator c = false) -> match_from sentence_re k s = [].
Proof.
  induction s as [|d s IH]; intros k H; [reflexivity|].
  cbn [match_from].
  assert (Hs : forall c, In c s -> isTerminator c = false)
    by (intros c Hc; apply H; now right).
  destruct k as [|k]; [|now apply IH].
  rewrite (exec_without_terminator (d :: s) H). now apply IH.
Qed.

Lemma splitIntoSentences_without_terminator text :
  (forall c, In c text -> isTerminator c = false) ->
  forallb isWhiteSpace text = false ->
  splitIntoSentences text = split_fallbacks (trim text).
Proof.
  intros H Hb. unfold splitIntoSentences.
  destruct (negb (nonEmpty text) || (len (trim text) =? 0)) eqn:E.
  - apply blank_iff in E. congruence.
  - unfold String_match. rewrite no_match_without_terminator; [reflexivity|].
    intros c Hc. apply H. now apply trim_subset.
Qed.

Lemma split_count sep s :
  (1 <? len (split sep s)) = true <-> In sep s.
Proof.
  unfold len. rewrite StreamMore.split_length, Z.ltb_lt.
  rewrite (count_occ_In Z.eq_dec). lia.
Qed.

(** X8. A text that is not blank and holds no terminator, on several
    lines once trimmed, is split into its lines, trimmed, the blank ones
    left out. *)
Theorem unpunctuated_lines (text : jsstring) :
  (forall c, In c text -> isTerminator c = false) ->
  In NL (trim text) ->
  splitIntoSentences text =
  filter (fun s => 0 <? len s) (map trim (split NL (trim text))).
Proof.
  intros H Hnl.
  assert (Hb : forallb isWhiteSpace text = false).
  { destruct (forallb isWhiteSpace text) eqn:E; [|reflexivity].
    apply trim_nil_iff in E. rewrite E in Hnl. destruct Hnl. }
  rewrite (splitIntoSentences_without_terminator text H Hb).
  unfold split_fallbacks. apply split_count in Hnl. now rewrite Hnl.
Qed.

Lemma unpunctuated_lines_witness :
  splitIntoSentences (lit "Line one" ++ [NL] ++ [NL] ++ lit " Line two ") =
  [lit "Line one"; lit "Line two"].
Proof.
  refine (unpunctuated_lines
            (lit "Line one" ++ [NL] ++ [NL] ++ lit " Line two ") _ _).
  - intros c Hc. vm_compute in Hc.
    repeat (destruct Hc as [<-|Hc]; [reflexivity|]). destruct Hc.
  - vm_compute. tauto.
Defined.

(** X9. A text that is not blank, holds no terminator, is on one line
    once trimmed and has at most 100 code units then, is one sentence: the
    trimmed text. *)
Theorem short_unpunctuated_text_is_one_sentence (text : jsstring) :
  (forall c, In c text -> isTerminator c = false) ->
  forallb isWhiteSpace text = false ->
  ~ In NL (trim text) ->
  len (trim text) <= 100 ->
  splitIntoSentences text = [trim text].
Proof.
  intros H Hb Hnl Hlen.
  rewrite (splitIntoSentences_without_terminator text H Hb).
  unfold split_fallbacks.
  destruct (1 <? len (split NL (trim text))) eqn:E.
  - apply split_count in E. contradiction.
  - destruct (Z.ltb_spec 100 (len (trim text))); [lia | reflexivity].
Qed.

Lemma short_unpunctuated_text_is_one_sentence_witness :
  splitIntoSentences (lit "  hello World  ") = [lit "hello World"].
Proof.
  refine (short_unpunctuated_text_is_one_sentence (lit "  hello World  ") _ _ _ _).
  - intros c Hc. vm_compute in Hc.
    repeat (destruct Hc as [<-|Hc]; [reflexivity|]). destruct Hc.
  - reflexivity.
  - vm_compute. intuition discriminate.
  - vm_compute. discriminate.
Defined.

(** *** Text after the last terminator *)

Lemma span_before_stop p y c tail :
  p c = false ->
  span p ((y ++ [c]) ++ tail) =
  (fst (span p (y ++ [c])), snd (span p (y ++ [c])) ++ tail).
Proof.
  intros Hc. induction y as [|d y IH]; cbn [app span].
  - now rewrite Hc.
  - destruct (p d); [|reflexivity].
    rewrite IH. now destruct (span p (y ++ [c])).
Qed.

Lemma span_first_app p z tail :
  stops p tail -> fst (span p (z ++ tail)) = fst (span p z).
Proof.
  intros Ht. induction z as [|d z IH]; cbn [app span].
  - destruct tail as [|e tail]; [reflexivity|]. simpl in Ht. cbn [span].
    now rewrite Ht.
  - destruct (p d); [|reflexivity].
    destruct (span p (z ++ tail)), (span p z). cbn [fst] in *. now rewrite IH.
Qed.

Lemma exec_followed y c tail :
  isTerminator c = true -> stops isTerminator tail ->
  exec sentence_re ((y ++ [c]) ++ tail) = exec sentence_re (y ++ [c]).
Proof.
  intros Hc Ht. unfold sentence_re.
  rewrite !(exec_runs isSentenceChar isTerminator terminator_not_sentenceChar).
  cbv zeta.
  rewrite (span_before_stop isSentenceChar y c tail
             (terminator_not_sentenceChar c Hc)).
  cbn [fst snd]. now rewrite (span_first_app isTerminator _ tail Ht).
Qed.

Lemma exec_inside s n : exec sentence_re s = Some n -> (n <= length s)%nat.
Proof.
  intros H.
  destruct (exec_shape isSentenceChar isTerminator terminator_not_sentenceChar
              s n H) as [b [t [rest [-> [_ [-> _]]]]]].
  rewrite !length_app. lia.
Qed.

Lemma exec_outside c s : isSentenceChar c = false -> exec sentence_re (c :: s) = None.
Proof.
  intros H. unfold sentence_re.
  rewrite (exec_runs isSentenceChar isTerminator terminator_not_sentenceChar).
  cbn [span]. now rewrite H.
Qed.

Lemma match_from_followed c tail :
  isTerminator c = true ->
  (forall d, In d tail -> isTerminator d = false) ->
  forall y k,
    match_from sentence_re k ((y ++ [c]) ++ tail) =
    match_from sentence_re k (y ++ [c]).
Proof.
  intros Hc Ht.
  assert (Hst : stops isTerminator tail).
  { destruct tail as [|e tail]; [exact I|]. apply Ht. now left. }
  induction y as [|d y IH]; intros k.
  - cbn [app match_from]. destruct k as [|k].
    + rewrite !(exec_outside c _ (terminator_not_sentenceChar c Hc)).
      apply no_match_without_terminator. exact Ht.
    + rewrite (no_match_without_terminator tail k Ht). now destruct k.
  - change (((d :: y) ++ [c]) ++ tail) with (d :: ((y ++ [c]) ++ tail)).
    change ((d :: y) ++ [c]) with (d :: (y ++ [c])).
    cbn [match_from]. destruct k as [|k]; [|apply IH].
    change (d :: ((y ++ [c]) ++ tail)) with (((d :: y) ++ [c]) ++ tail).
    rewrite (exec_followed (d :: y) c tail Hc Hst).
    change (exec sentence_re (d :: (y ++ [c])))
      with (exec sentence_re ((d :: y) ++ [c])).
    destruct (exec sentence_re ((d :: y) ++ [c])) as [[|n]|] eqn:E.
    + apply IH.
    + rewrite IH. f_equal. apply exec_inside in E.
      change (firstn (S n) (((d :: y) ++ [c]) ++ tail)
              = firstn (S n) ((d :: y) ++ [c])).
      rewrite firstn_app.
      replace (S n - length ((d :: y) ++ [c]))%nat with O by lia.
      cbn [firstn]. apply app_nil_r.
    + apply IH.
Qed.

Lemma not_blank_with y c tail :
  isWhiteSpace c = false -> forallb isWhiteSpace (y ++ [c] ++ tail) = false.
Proof.
  intros Hc. destruct (forallb isWhiteSpace (y ++ [c] ++ tail)) eqn:E;
    [|reflexivity].
  rewrite forallb_forall in E. rewrite <- Hc. symmetry. apply E.
  apply in_or_app. right. now left.
Qed.

(** X10. When the text up to and including a terminator holds a match of
    the first stage, what follows that terminator, if it holds no
    terminator itself, is dropped: the sentences are those of the text cut
    after the terminator. *)
Theorem text_after_the_last_terminator_is_dropped
    (y : jsstring) (c : Z) (tail : jsstring) :
  isTerminator c = true ->
  (forall d, In d tail -> isTerminator d = false) ->
  sentence_matches (trim (y ++ [c])) <> [] ->
  splitIntoSentences (y ++ [c] ++ tail) = splitIntoSentences (y ++ [c]).
Proof.
  intros Hc Ht Hm.
  pose proof (terminator_not_space c Hc) as Hw.
  destruct (trim_followed y c tail Hw) as [tail' [E Hsub]].
  destruct (trim_end y c Hw) as [_ [y' Ey]].
  assert (Hmatch : String_match sentence_re (trim (y ++ [c] ++ tail)) =
                   String_match sentence_re (trim (y ++ [c]))).
  { unfold String_match. rewrite E, Ey.
    rewrite (match_from_followed c tail' Hc); [reflexivity|].
    intros d Hd. apply Ht. now apply Hsub. }
  unfold splitIntoSentences.
  pose proof (not_blank_with y c tail Hw) as Hb1.
  pose proof (not_blank_with y c [] Hw) as Hb2.
  change (y ++ [c] ++ []) with (y ++ [c]) in Hb2.
  destruct (negb (nonEmpty (y ++ [c] ++ tail))
            || (len (trim (y ++ [c] ++ tail)) =? 0)) eqn:E1;
    [apply blank_iff in E1; congruence|].
  destruct (negb (nonEmpty (y ++ [c])) || (len (trim (y ++ [c])) =? 0)) eqn:E2;
    [apply blank_iff in E2; congruence|].
  rewrite Hmatch. unfold String_match.
  unfold sentence_matches in Hm.
  destruct (match_from sentence_re 0 (trim (y ++ [c]))) as [|m ms];
    [contradiction|].
  reflexivity.
Qed.

Lemma text_after_the_last_terminator_is_dropped_witness :
  splitIntoSentences (lit "Hello there" ++ [46] ++ lit " and then some") =
  splitIntoSentences (lit "Hello there" ++ [46]).
Proof.
  apply text_after_the_last_terminator_is_dropped.
  - reflexivity.
  - intros d Hd. vm_compute in Hd.
    repeat (destruct Hd as [<-|Hd]; [reflexivity|]). destruct Hd.
  - vm_compute. discriminate.
Defined.

End SentenceMore.

(** ** More on the WAV recombination *)

Module WavMore.

Import JSFacts Wav WavFacts WavFile.

(** *** What a segment gives *)

Lemma slice_eq buffer start size :
  0 <= start <= len buffer -> 0 <= size ->
  slice buffer start (start + size) =
  firstn (Z.to_nat size) (skipn (Z.to_nat start) buffer).
Proof.
  intros Hs Hz. unfold slice.
  rewrite (Z.min_l start) by lia.
  destruct (Z.le_ge_cases (start + size) (len buffer)) as [H|H].
  - rewrite Z.min_l by lia. f_equal. lia.
  - rewrite Z.min_r by lia.
    assert (Hl : length (skipn (Z.to_nat start) buffer)
                 = Z.to_nat (len buffer - start)).
    { rewrite length_skipn. unfold len. lia. }
    rewrite <- Hl, firstn_all. symmetry. apply firstn_all2. lia.
Qed.

(** X11. A segment in which the scan finds the marker at offset [i] and
    reads a positive length gives the bytes from offset [i + 8] on, as
    many as the length declares, or all those left when the buffer ends
    sooner: never more than declared, never bytes from outside. *)
Theorem payload_is_clamped (buffer : list Z) (dataChunkStart dataChunkSize : Z) :
  findDataChunk buffer = Ok (dataChunkStart, dataChunkSize) ->
  dataChunkStart <> -1 -> 0 < dataChunkSize ->
  payload buffer =
    firstn (Z.to_nat dataChunkSize) (skipn (Z.to_nat dataChunkStart) buffer)
  /\ len (payload buffer) = Z.min dataChunkSize (len buffer - dataChunkStart)
  /\ 8 <= dataChunkStart < len buffer.
Proof.
  intros H Hne Hpos.
  destruct (findDataChunk_spec buffer)
    as [[H' _] | [j [size' [H' [Hj _]]]]]; rewrite H' in H.
  { injection H as <- <-. contradiction. }
  injection H as <- <-.
  assert (E : payload buffer =
              firstn (Z.to_nat size') (skipn (Z.to_nat (j + 8)) buffer)).
  { unfold payload. rewrite H'.
    destruct (Z.eqb_spec (j + 8) (-1)); [lia|].
    destruct (Z.ltb_spec 0 size'); [|lia]. cbn [negb andb].
    apply slice_eq; lia. }
  split; [exact E|]. split; [|lia].
  rewrite E. unfold len. rewrite length_firstn, length_skipn. unfold len in Hj. lia.
Qed.

Lemma payload_is_clamped_witness :
  payload segment_two = [21; 22] /\ len (payload segment_two) = Z.min 2 (11 - 8).
Proof.
  destruct (payload_is_clamped segment_two 8 2) as [H1 [H2 _]];
    [reflexivity | discriminate | reflexivity |].
  split; [exact H1 | exact H2].
Defined.

(** *** The WAV that is built, scanned again *)

Lemma byteAt_nat buffer k : byteAt buffer (Z.of_nat k) = nth_error buffer k.
Proof.
  unfold byteAt. destruct (Z.ltb_spec (Z.of_nat k) 0); [lia|].
  now rewrite Nat2Z.id.
Qed.

(** The 44 bytes of a header, with any size fields. *)
Lemma frame_has_no_early_marker b0 b1 b2 b3 c0 c1 c2 c3 data :
  ~ (b0 = 100 /\ b1 = 97 /\ b2 = 116 /\ b3 = 97) ->
  forall j, 0 <= j < 36 ->
    isDataAt ([82; 73; 70; 70; b0; b1; b2; b3; 87; 65; 86; 69;
               102; 109; 116; 32; 16; 0; 0; 0; 1; 0; 1; 0;
               192; 93; 0; 0; 128; 187; 0; 0; 2; 0; 16; 0;
               100; 97; 116; 97; c0; c1; c2; c3] ++ data) j = false.
Proof.
  intros Hb j Hj.
  assert (Hk : exists k, j = Z.of_nat k /\ (k < 36)%nat)
    by (exists (Z.to_nat j); lia).
  destruct Hk as [k [-> Hk]].
  unfold isDataAt, byteIs.
  replace (Z.of_nat k + 1) with (Z.of_nat (k + 1)) by lia.
  replace (Z.of_nat k + 2) with (Z.of_nat (k + 2)) by lia.
  replace (Z.of_nat k + 3) with (Z.of_nat (k + 3)) by lia.
  rewrite !byteAt_nat.
  do 36 (destruct k as [|k];
         [cbn [nth_error Nat.add app];
          repeat match goal with
                 | |- context [Z.eqb ?a ?b] => destruct (Z.eqb_spec a b)
                 end;
          first [ reflexivity | lia
                | exfalso; apply Hb; repeat split; assumption ] |]).
  lia.
Qed.

Lemma size_bytes_spell_data v :
  0 <= v < 4294967296 ->
  Z.land (Z.shiftr v 0) 255 = 100 /\ Z.land (Z.shiftr v 8) 255 = 97
  /\ Z.land (Z.shiftr v 16) 255 = 116 /\ Z.land (Z.shiftr v 24) 255 = 97 ->
  v = DATA_AS_NUMBER.
Proof.
  intros Hv [H0 [H1 [H2 H3]]]. rewrite <- (le4_value v Hv).
  rewrite H0, H1, H2, H3. reflexivity.
Qed.

Lemma wav_has_no_early_marker data j :
  36 + len data <= 4294967295 ->
  36 + len data <> DATA_AS_NUMBER ->
  0 <= j < 36 -> isDataAt (wav data) j = false.
Proof.
  intros Hfit Hodd Hj. pose proof (len_nonneg _ data) as Hn.
  apply (frame_has_no_early_marker
           (Z.land (Z.shiftr (36 + len data) 0) 255)
           (Z.land (Z.shiftr (36 + len data) 8) 255)
           (Z.land (Z.shiftr (36 + len data) 16) 255)
           (Z.land (Z.shiftr (36 + len data) 24) 255)
           (Z.land (Z.shiftr (len data) 0) 255)
           (Z.land (Z.shiftr (len data) 8) 255)
           (Z.land (Z.shiftr (len data) 16) 255)
           (Z.land (Z.shiftr (len data) 24) 255) data); [|exact Hj].
  intros H. apply Hodd. apply size_bytes_spell_data; [lia | exact H].
Qed.

Lemma wav_marker data : isDataAt (wav data) 36 = true.
Proof. reflexivity. Qed.

(** Scanned again, the WAV that is built gives its payload back. *)
Lemma payload_wav data :
  36 + len data <= 4294967295 ->
  36 + len data <> DATA_AS_NUMBER ->
  payload (wav data) = data.
Proof.
  intros Hfit Hodd. pose proof (len_nonneg _ data) as Hn.
  assert (Hlen : len (wav data) = 44 + len data).
  { unfold wav. now rewrite len_app, header_length. }
  destruct data as [|d data'] eqn:Ed; [reflexivity|]. rewrite <- Ed in *.
  assert (Hpos : 0 < len data) by (rewrite Ed; unfold len; simpl; lia).
  destruct (findDataChunk_spec (wav data))
    as [[_ Hnone] | [j [size [Hfound [Hj [Hd [Hfirst Hread]]]]]]].
  { pose proof (wav_marker data) as Hm. rewrite Hnone in Hm by lia.
    discriminate. }
  assert (Ej : j = 36).
  { destruct (Z.lt_trichotomy j 36) as [Hlt|[Heq|Hgt]]; [|exact Heq|].
    - rewrite (wav_has_no_early_marker data j Hfit Hodd) in Hd by lia.
      discriminate.
    - pose proof (wav_marker data) as Hm. rewrite Hfirst in Hm by lia.
      discriminate. }
  subst j.
  destruct (wav_fields (len data) data Hn Hfit) as [_ [_ [H40 [Hskip _]]]].
  change (36 + 4) with 40 in Hread. unfold wav in Hread. rewrite H40 in Hread.
  injection Hread as <-.
  unfold payload. rewrite Hfound.
  destruct (Z.ltb_spec 0 (len data)); [|lia]. cbn [Z.eqb negb andb].
  rewrite slice_eq by lia. unfold wav. change (Z.to_nat (36 + 8)) with 44%nat.
  rewrite Hskip. unfold len. rewrite Nat2Z.id. apply firstn_all.
Qed.

Lemma payloads_of_wavs datas :
  Forall (fun data => 36 + len data <= 4294967295
                      /\ 36 + len data <> DATA_AS_NUMBER) datas ->
  concat (map payload (map wav datas)) = concat datas.
Proof.
  induction 1 as [|d ds [Hfit Hodd] _ IH]; [reflexivity|].
  cbn [map concat]. now rewrite IH, payload_wav.
Qed.

Lemma recombine_of_wavs datas :
  Forall (fun data => 36 + len data <= 4294967295
                      /\ 36 + len data <> DATA_AS_NUMBER) datas ->
  36 + len (concat datas) <= 4294967295 ->
  recombine (map wav datas) = Ok (wav (concat datas)).
Proof.
  intros H Hfit. rewrite recombine_eq, (payloads_of_wavs datas H).
  now rewrite buildWav_header.
Qed.

(** X12. Merging WAV files that the recombination itself built gives the
    WAV of their payloads put end to end, as long as the merged size fits
    the 32-bit field and no size field of an input spells the marker
    [data] (a payload of 1635017024 bytes). *)
Theorem recombine_merges_its_own_wavs (datas : list (list Z)) :
  Forall (fun data => 36 + len data <= 4294967295
                      /\ 36 + len data <> DATA_AS_NUMBER) datas ->
  36 + len (concat datas) <= 4294967295 ->
  recombine (map wav datas) = Ok (wav (concat datas))
  /\ concat (map payload (map wav datas)) = concat datas.
Proof.
  intros H Hfit. split; [now apply recombine_of_wavs | now apply payloads_of_wavs].
Qed.

Lemma recombine_merges_its_own_wavs_witness :
  recombine [wav [11; 12; 13]; wav []; wav [21; 22]] =
  Ok (wav [11; 12; 13; 21; 22]).
Proof.
  refine (proj1 (recombine_merges_its_own_wavs [[11; 12; 13]; []; [21; 22]] _ _)).
  - repeat (first [apply Forall_nil | apply Forall_cons]);
      (split; [vm_compute; discriminate | vm_compute; discriminate]).
  - vm_compute. discriminate.
Defined.

(** X13. The recombination is idempotent: the WAV it produces, given
    back to it alone, is produced again unchanged, unless its size field
    spells the marker [data]. *)
Theorem recombine_is_idempotent (audioBuffers : list (list Z)) (merged : list Z) :
  recombine audioBuffers = Ok merged ->
  len merged - 8 <> DATA_AS_NUMBER ->
  recombine [merged] = Ok merged.
Proof.
  intros H Hodd. rewrite recombine_eq in H.
  set (data := concat (map payload audioBuffers)) in *.
  destruct (Z_le_gt_dec (36 + len data) 4294967295) as [Hfit|Hbig].
  - rewrite buildWav_header in H by exact Hfit. apply Ok_inj in H. subst merged.
    fold (wav data) in *.
    assert (Hlen : len (wav data) = 44 + len data)
      by (unfold wav; now rewrite len_app, header_length).
    rewrite Hlen in Hodd.
    change [wav data] with (map wav [data]).
    rewrite recombine_of_wavs.
    + cbn [concat]. now rewrite app_nil_r.
    + constructor; [|constructor]. split; [exact Hfit | lia].
    + cbn [concat]. now rewrite app_nil_r.
  - rewrite buildWav_too_large in H by lia. discriminate.
Qed.

Lemma recombine_is_idempotent_witness :
  recombine [header 5 ++ [11; 12; 13; 21; 22]] =
  Ok (header 5 ++ [11; 12; 13; 21; 22]).
Proof.
  apply (recombine_is_idempotent [segment_one; segment_none; segment_two]).
  - reflexivity.
  - vm_compute. discriminate.
Defined.

End WavMore.

(** ** More on the pipelines *)

Module RouteMore.

Import JSFacts Routes RouteFacts Runs.

Lemma filter_all (A : Type) (p : A -> bool) (l : list A) :
  length (filter p l) = length l -> filter p l = l.
Proof.
  induction l as [|a l IH]; [reflexivity|]. simpl.
  destruct (p a); simpl; intros H.
  - f_equal. apply IH. lia.
  - pose proof (filter_length_le p l). lia.
Qed.

Section MorePipelines.

Variable World : Type.
Variable JSON_parse : jsstring -> option jsval.
Variable stt_post :
  World -> list Z -> jsstring -> sttOptions -> World * result jsval.
Variable webhook_post :
  World -> jsval -> World * result (list (list Z) * Webhook.finish).
Variable tts_service : World -> jsstring -> World * result jsval.

Local Abbreviation stt := (convertAudioToText stt_post).
Local Abbreviation backend := (callWebhookStream JSON_parse webhook_post).
Local Abbreviation progressive :=
  (process_recording_stream JSON_parse stt_post webhook_post tts_service).
Local Abbreviation aggregate :=
  (process_recording JSON_parse stt_post webhook_post tts_service).
Local Abbreviation stream := (stream_loop tts_service).
Local Abbreviation collect := (aggregate_loop tts_service).
Local Abbreviation speak := (speak_all tts_service).

(** *** The STT service *)

(** X14. [convertAudioToText] makes one request. What it returns is
    truthy, has a string conversion, and is the [transcript], [text] or
    [result] field of the response data; whatever fails, the request,
    the reading of the data, the lack of a transcript or its conversion
    to a string for the log, is thrown wrapped as
    [STT conversion failed: ...]. *)
Theorem transcript_is_truthy_or_failure_is_wrapped
    (audioBuffer : list Z) (mimeType : jsstring) (options : sttOptions)
    (w : World) :
  snd (fst (stt audioBuffer mimeType options w)) =
    [STT_request audioBuffer mimeType options]
  /\ match snd (stt audioBuffer mimeType options w) with
     | Ok text =>
         Val.truthy text = true
         /\ (exists s, Val.toString text = Ok s)
         /\ exists data k,
              snd (stt_post w audioBuffer mimeType options) = Ok data
              /\ In k [lit "transcript"; lit "text"; lit "result"]
              /\ Val.get data k = Ok text
     | Throw e => exists cause, e = Wrapped (lit "STT conversion failed: ") cause
     end.
Proof.
  pose proof (convertAudioToText_run World stt_post audioBuffer mimeType
                options w) as [Htrace Hresult].
  split; [exact Htrace|].
  destruct (snd (stt audioBuffer mimeType options w)) as [text|e].
  - destruct Hresult as [Ht [Hs Hf]]. split; [exact Ht|]. split; assumption.
  - exact Hresult.
Qed.

(** *** The shape of a progressive run *)

Lemma stream_loop_progress rest : forall total i sc w,
  exists w' l sc',
    stream total i sc rest w = (w', l, Ok sc')
    /\ Forall (fun x => closes x = false) l
    /\ map phase (events l) = repeat 6%nat (length (events l))
    /\ Forall (fun e => match e with
                        | tts_result r (c, t) =>
                            t = total /\ sc < c <= sc + len rest
                            /\ sentenceIndex r = c
                        | tts_error _ _ _ => True
                        | _ => False
                        end) (events l)
    /\ sc <= sc' <= sc + len rest.
Proof.
  induction rest as [|s rest IH]; intros total i sc w.
  - exists w, [], sc. simpl. unfold ret, len. simpl.
    split; [reflexivity|]. split; [constructor|]. split; [reflexivity|].
    split; [constructor | lia].
  - assert (Hlen : len (s :: rest) = len rest + 1)
      by (unfold len; simpl length; lia).
    destruct (tooShort s) eqn:Es.
    + rewrite stream_loop_short by exact Es.
      destruct (IH total (i + 1) sc w) as [w' [l [sc' [H [H1 [H2 [H3 H4]]]]]]].
      exists w', l, sc'. split; [exact H|]. split; [exact H1|].
      split; [exact H2|]. split; [|lia].
      eapply Forall_impl; [|exact H3]. intros [] He; try exact He.
      destruct progress as [c t]. lia.
    + rewrite stream_loop_spoken by exact Es.
      destruct (tts_service w s) as [w1 [a|e]].
      * destruct (IH total (i + 1) (sc + 1) w1)
          as [w' [l [sc' [H [H1 [H2 [H3 H4]]]]]]].
        rewrite H. eexists _, _, _. split; [reflexivity|].
        split; [destruct (substring_to 100 a);
                repeat constructor; exact H1|].
        split; [destruct (substring_to 100 a); simpl; now rewrite H2|].
        split; [|lia].
        assert (Hrest : Forall
                  (fun e => match e with
                            | tts_result r (c, t) =>
                                t = total /\ sc < c <= sc + len (s :: rest)
                                /\ sentenceIndex r = c
                            | tts_error _ _ _ => True
                            | _ => False
                            end) (events l)).
        { eapply Forall_impl; [|exact H3]. intros [] He; try exact He.
          destruct progress as [c t]. lia. }
        destruct (substring_to 100 a); simpl; constructor;
          first [exact Hrest | exact I | simpl; lia].
      * destruct (IH total (i + 1) sc w1)
          as [w' [l [sc' [H [H1 [H2 [H3 H4]]]]]]].
        rewrite H. eexists _, _, _. split; [reflexivity|].
        split; [repeat constructor; exact H1|].
        split; [simpl; now rewrite H2|]. split; [|lia].
        simpl. constructor; [exact I|].
        eapply Forall_impl; [|exact H3]. intros [] He; try exact He.
        destruct progress as [c t]. lia.
Qed.

(** The five ways a progressive run goes. *)
Lemma progressive_cases req w :
  (req_file req = None
   /\ progressive req w =
      (w, [sendEvent (error (Error (lit "No audio file provided"))); res_end],
       Ok tt))
  \/ exists f,
       req_file req = Some f
       /\ let options := sttOptions_of req in
          let call := STT_request (file_buffer f) (mimeType_of f) options in
          (exists w1 e,
             progressive req w =
             (w1, [sendEvent start; sendEvent stt_start; call;
                   sendEvent (error e); res_end], Ok tt))
          \/ (exists w2 sttText e,
                progressive req w =
                (w2, [sendEvent start; sendEvent stt_start; call;
                      sendEvent (stt_complete sttText options);
                      sendEvent webhook_start; Webhook_request sttText;
                      sendEvent (error e); res_end], Ok tt))
          \/ (exists w2 sttText (responses : list jsval) e,
                progressive req w =
                (w2, [sendEvent start; sendEvent stt_start; call;
                      sendEvent (stt_complete sttText options);
                      sendEvent webhook_start; Webhook_request sttText;
                      sendEvent (webhook_complete (len responses));
                      sendEvent (error e); res_end], Ok tt))
          \/ (exists w2 w3 sttText (responses : list jsval) acc l successCount,
                let sentences := Webhook.splitIntoSentences acc in
                stream (len sentences) 0 0 sentences w2 = (w3, l, Ok successCount)
                /\ progressive req w =
                   (w3, [sendEvent start; sendEvent stt_start; call;
                         sendEvent (stt_complete sttText options);
                         sendEvent webhook_start; Webhook_request sttText;
                         sendEvent (webhook_complete (len responses));
                         sendEvent (tts_start (len sentences) acc)]
                        ++ l
                        ++ [sendEvent (complete (len sentences) successCount);
                            res_end], Ok tt)).
Proof.
  unfold process_recording_stream.
  destruct (req_file req) as [f|]; [right; exists f; split; [reflexivity|]
                                   | left; split; reflexivity].
  cbv zeta. set (options := sttOptions_of req).
  cbv [try_catch mbind perform lift].
  pose proof (convertAudioToText_trace World stt_post (file_buffer f) (mimeType_of f)
                options w) as Ht.
  destruct (stt (file_buffer f) (mimeType_of f) options w)
    as [[w1 l1] [sttText|e]] eqn:Hstt; simpl in Ht; subst l1.
  2:{ left. exists w1, e. reflexivity. }
  destruct (convertAudioToText_printable World stt_post _ _ _ _ _ _ _ Hstt)
    as [printed Hp].
  rewrite Hp. right.
  pose proof (callWebhookStream_trace World JSON_parse webhook_post sttText w1) as Hb.
  destruct (backend sttText w1) as [[w2 l2] [responses|e]]; simpl in Hb; subst l2.
  2:{ left. exists w2, sttText, e. reflexivity. }
  right.
  destruct (Webhook.accumulate [] responses) as [acc|e].
  2:{ left. exists w2, sttText, responses, e. reflexivity. }
  right.
  destruct (stream_loop_progress (Webhook.splitIntoSentences acc)
              (len (Webhook.splitIntoSentences acc)) 0 0 w2)
    as [w3 [l [sc [H _]]]].
  exists w2, w3, sttText, responses, acc, l, sc. split; [exact H|].
  rewrite H. reflexivity.
Qed.


Lemma events_app l1 l2 : events (l1 ++ l2) = events l1 ++ events l2.
Proof. apply flat_map_app. Qed.

(** X15. Every progressive run, whatever the request and whatever the
    collaborators do, ends without throwing, and closes once: its last
    two effects are one terminal event, [complete] or [error], and the
    end of the response; nothing before them is a terminal event, an end
    or a JSON response. *)
Theorem progressive_run_closes_once (req : request) (w : World) :
  exists w' before e,
    progressive req w = (w', before ++ [sendEvent e; res_end], Ok tt)
    /\ is_terminal e = true
    /\ Forall (fun x => closes x = false) before.
Proof.
  destruct (progressive_cases req w)
    as [[_ H] | [f [_ [[w1 [e H]] | [[w2 [t [e H]]] | [[w2 [t [rs [e H]]]]
       | [w2 [w3 [t [rs [acc [l [sc [Hl H]]]]]]]]]]]]]].
  - exists w, [], (error (Error (lit "No audio file provided"))).
    split; [exact H|]. split; [reflexivity | constructor].
  - eexists w1, [_; _; _], (error e).
    split; [exact H|]. split; [reflexivity | repeat constructor].
  - eexists w2, [_; _; _; _; _; _], (error e).
    split; [exact H|]. split; [reflexivity | repeat constructor].
  - eexists w2, [_; _; _; _; _; _; _], (error e).
    split; [exact H|]. split; [reflexivity | repeat constructor].
  - cbv zeta in Hl, H.
    destruct (stream_loop_progress (Webhook.splitIntoSentences acc)
                (len (Webhook.splitIntoSentences acc)) 0 0 w2)
      as [w3' [l' [sc' [Hl' [Hopen _]]]]].
    rewrite Hl in Hl'. injection Hl' as <- <- <-.
    eexists w3, (_ ++ l), (complete _ sc).
    split; [rewrite <- app_assoc; exact H|]. split; [reflexivity|].
    apply Forall_app. split; [repeat constructor | exact Hopen].
Qed.

(** X16. The events of every progressive run come in the order of the
    stages: [start], [stt_start], [stt_complete], [webhook_start],
    [webhook_complete], [tts_start], then any number of [tts_result] and
    [tts_error] events, then [complete]; or the beginning of that
    sequence up to the stage that failed, followed by [error]. An
    [error] event comes before any other event (no file), after
    [stt_start], after [webhook_start] or after [webhook_complete], and
    never once [tts_start] is sent. *)
Theorem progressive_events_in_stage_order (req : request) (w : World) :
  exists sent k n final,
    events (snd (fst (progressive req w))) = sent ++ [final]
    /\ map phase sent = seq 0 k ++ repeat 6%nat n
    /\ ((k = 6%nat /\ exists total successCount,
                        final = complete total successCount)
        \/ (In k [0; 2; 4; 5]%nat /\ n = 0%nat /\ exists e, final = error e)).
Proof.
  destruct (progressive_cases req w)
    as [[_ H] | [f [_ [[w1 [e H]] | [[w2 [t [e H]]] | [[w2 [t [rs [e H]]]]
       | [w2 [w3 [t [rs [acc [l [sc [Hl H]]]]]]]]]]]]]]; rewrite H.
  - exists [], 0%nat, 0%nat, (error (Error (lit "No audio file provided"))).
    split; [reflexivity|]. split; [reflexivity|]. right.
    split; [simpl; auto|]. split; [reflexivity | eauto].
  - eexists [_; _], 2%nat, 0%nat, (error e).
    split; [reflexivity|]. split; [reflexivity|]. right.
    split; [simpl; auto|]. split; [reflexivity | eauto].
  - eexists [_; _; _; _], 4%nat, 0%nat, (error e).
    split; [reflexivity|]. split; [reflexivity|]. right.
    split; [simpl; auto|]. split; [reflexivity | eauto].
  - eexists [_; _; _; _; _], 5%nat, 0%nat, (error e).
    split; [reflexivity|]. split; [reflexivity|]. right.
    split; [simpl; auto|]. split; [reflexivity | eauto].
  - cbv zeta in Hl.
    destruct (stream_loop_progress (Webhook.splitIntoSentences acc)
                (len (Webhook.splitIntoSentences acc)) 0 0 w2)
      as [w3' [l' [sc' [Hl' [_ [Hphase _]]]]]].
    rewrite Hl in Hl'. injection Hl' as <- <- <-.
    exists ([start; stt_start; stt_complete t (sttOptions_of req); webhook_start;
             webhook_complete (len rs);
             tts_start (len (Webhook.splitIntoSentences acc)) acc] ++ events l),
           6%nat, (length (events l)),
           (complete (len (Webhook.splitIntoSentences acc)) sc).
    split; [|split].
    + cbn [fst snd]. rewrite !events_app. cbn [events flat_map app].
      reflexivity.
    + rewrite map_app, Hphase. reflexivity.
    + left. split; [reflexivity | eauto].
Qed.

Lemma spoken_events l :
  length (tts_sentences l) =
  (length (result_entries l) + length (error_entries l))%nat.
Proof.
  induction l as [|x l IH]; [reflexivity|].
  destruct x as [| | |e| |]; try exact IH.
  destruct e; try exact IH; simpl; lia.
Qed.

(** X17. In every progressive run the counts sent to the client are
    consistent: each [tts_result] event carries a progress
    [current <= total] with [current >= 1] equal to the index of its
    entry, and the [complete] event a [successCount] between 0 and
    [totalSentences]. *)
Theorem progress_never_exceeds_total (req : request) (w : World) :
  Forall progress_ok (events (snd (fst (progressive req w)))).
Proof.
  destruct (progressive_cases req w)
    as [[_ H] | [f [_ [[w1 [e H]] | [[w2 [t [e H]]] | [[w2 [t [rs [e H]]]]
       | [w2 [w3 [t [rs [acc [l [sc [Hl H]]]]]]]]]]]]]]; rewrite H;
    try (repeat constructor).
  cbv zeta in Hl.
  destruct (stream_loop_progress (Webhook.splitIntoSentences acc)
              (len (Webhook.splitIntoSentences acc)) 0 0 w2)
    as [w3' [l' [sc' [Hl' [_ [_ [Hp Hsc]]]]]]].
  rewrite Hl in Hl'. injection Hl' as <- <- <-.
  cbn [fst snd]. rewrite !events_app. cbn [events flat_map app].
  repeat (apply Forall_cons; [exact I|]).
  apply Forall_app. split.
  - eapply Forall_impl; [|exact Hp]. intros [] He; try contradiction; try exact I.
    destruct progress as [c total]. simpl. lia.
  - constructor; [simpl; lia | constructor].
Qed.

Lemma speak_each_length texts : forall w,
  length (snd (speak_each tts_service w texts)) = length texts.
Proof.
  induction texts as [|t texts IH]; intros w; [reflexivity|].
  cbn [speak_each]. destruct (tts_service w t) as [w1 o].
  specialize (IH w1). destruct (speak_each tts_service w1 texts) as [w2 os].
  simpl in *. now rewrite IH.
Qed.

Lemma returned_strings outcomes :
  (length (filter returned_string outcomes)
   <= length (filter returned outcomes))%nat
  /\ (length (filter returned outcomes) = length (filter returned_string outcomes)
      <-> Forall (fun o => returned o = true -> returned_string o = true)
                 outcomes).
Proof.
  induction outcomes as [|o os [IH1 IH2]].
  - split; [reflexivity | split; [constructor | reflexivity]].
  - assert (Hcases : (returned o = true /\ returned_string o = true)
                     \/ (returned o = true /\ returned_string o = false)
                     \/ (returned o = false /\ returned_string o = false))
      by (destruct o as [[]|e]; simpl; auto).
    cbn [filter].
    destruct Hcases as [[H1 H2] | [[H1 H2] | [H1 H2]]]; rewrite H1, H2;
      cbn [length]; (split; [lia|]); split.
    + intros H. constructor; [intros _; exact H2 | apply IH2; lia].
    + intros H. inversion H; subst. f_equal. now apply IH2.
    + intros H. lia.
    + intros H. inversion H as [|x xs Hx Hxs]; subst.
      specialize (Hx H1). congruence.
    + intros H. constructor; [congruence | now apply IH2].
    + intros H. inversion H; subst. now apply IH2.
Qed.

Lemma filter_forallb (A : Type) (p : A -> bool) (l : list A) :
  length (filter p l) = length l <-> forallb p l = true.
Proof.
  induction l as [|a l IH]; [split; reflexivity|]. simpl.
  pose proof (filter_length_le p l) as Hle.
  destruct (p a); simpl.
  - rewrite <- IH. split; lia.
  - split; [lia | discriminate].
Qed.

(** The loop of the progressive endpoint against the calls it makes. *)
Lemma stream_loop_counts rest : forall total i sc w,
  exists l sc',
    stream total i sc rest w =
      (fst (speak_each tts_service w (spoken rest)), l, Ok sc')
    /\ sc' = sc + len (filter returned
                          (snd (speak_each tts_service w (spoken rest))))
    /\ length (result_entries l)
       = length (filter returned_string
                        (snd (speak_each tts_service w (spoken rest)))).
Proof.
  induction rest as [|s rest IH]; intros total i sc w.
  - exists [], sc. simpl. unfold ret, len. simpl.
    split; [reflexivity|]. split; [lia | reflexivity].
  - destruct (tooShort s) eqn:Es.
    + rewrite (stream_loop_short World tts_service) by exact Es.
      unfold spoken. cbn [filter]. rewrite Es. cbn [negb]. apply IH.
    + rewrite (stream_loop_spoken World tts_service) by exact Es.
      unfold spoken. cbn [filter]. rewrite Es. cbn [negb speak_each].
      fold (spoken rest).
      destruct (tts_service w s) as [w1 [a|e]].
      * destruct (IH total (i + 1) (sc + 1) w1) as [l [sc' [H [H1 H2]]]].
        rewrite H.
        destruct (speak_each tts_service w1 (spoken rest)) as [w2 os].
        cbn [fst snd] in *. eexists _, _. split; [reflexivity|].
        cbn [filter returned]. split.
        -- rewrite H1. unfold len. simpl length. lia.
        -- destruct a; cbn [substring_to returned_string filter];
             simpl; now rewrite H2.
      * destruct (IH total (i + 1) sc w1) as [l [sc' [H [H1 H2]]]].
        rewrite H.
        destruct (speak_each tts_service w1 (spoken rest)) as [w2 os].
        cbn [fst snd] in *. eexists _, _. split; [reflexivity|].
        cbn [filter returned returned_string]. split; [exact H1|].
        simpl. exact H2.
Qed.

(** X18. The [successCount] of the progressive loop counts the TTS calls
    that returned, not the results sent: a call that returns a value
    that is not a string is counted, and reported by a [tts_error]
    event. So the [tts_result] events are at most [successCount], and as
    many exactly when every value returned is a string; [successCount]
    is the number of sentences exactly when no sentence is too short and
    every call returns; and the [tts_result] and [tts_error] events
    together are as many as the sentences that are not too short. *)
Theorem success_count_counts_the_calls_that_returned
    (sentences : list jsstring) (w w' : World)
    (outcomes : list (result jsval)) :
  speak_each tts_service w (spoken sentences) = (w', outcomes) ->
  exists l successCount,
    stream (len sentences) 0 0 sentences w = (w', l, Ok successCount)
    /\ successCount = len (filter returned outcomes)
    /\ len (result_entries l) = len (filter returned_string outcomes)
    /\ len (result_entries l) <= successCount <= len (spoken sentences)
    /\ (length (result_entries l) + length (error_entries l))%nat
       = length (spoken sentences)
    /\ (successCount = len (result_entries l)
        <-> Forall (fun o => returned o = true -> returned_string o = true)
                   outcomes)
    /\ (successCount = len sentences
        <-> spoken sentences = sentences /\ forallb returned outcomes = true).
Proof.
  intros Hs.
  destruct (stream_loop_counts sentences (len sentences) 0 0 w)
    as [l [sc [H [H1 H2]]]].
  rewrite Hs in H, H1, H2. cbn [fst snd] in *.
  destruct (stream_loop_spec World tts_service sentences (len sentences) 0 0 w)
    as [w'' [l' [sc'' [H' [_ [Hsent _]]]]]].
  rewrite H in H'. injection H' as <- <- <-.
  pose proof (speak_each_length (spoken sentences) w) as Hout.
  rewrite Hs in Hout. cbn [snd] in Hout.
  destruct (returned_strings outcomes) as [Hle Hiff].
  pose proof (filter_length_le returned outcomes) as Hle2.
  pose proof (filter_length_le (fun s => negb (tooShort s)) sentences) as Hle3.
  fold (spoken sentences) in Hle3.
  exists l, sc. split; [exact H|]. split; [lia|].
  split; [unfold len; now rewrite H2|].
  split; [unfold len in *; lia|].
  split; [rewrite <- spoken_events, Hsent; reflexivity|].
  split.
  - rewrite <- Hiff. unfold len in *. lia.
  - rewrite <- filter_forallb. unfold len in *. split.
    + intros E. split; [apply filter_all; fold (spoken sentences); lia | lia].
    + intros [E1 E2]. rewrite E1 in Hout. lia.
Qed.

(** *** The aggregate run *)

Lemma speak_length texts : forall w w' audios failure,
  speak w texts = (w', audios, failure) ->
  match failure with
  | None => length audios = length texts
  | Some _ => (length audios < length texts)%nat
  end.
Proof.
  induction texts as [|t texts IH]; intros w w' audios failure H; simpl in H.
  - injection H as <- <- <-. reflexivity.
  - destruct (tts_service w t) as [w1 [a|e]].
    + destruct (speak w1 texts) as [[w2 audios'] failure'] eqn:E.
      injection H as <- <- <-. specialize (IH _ _ _ _ E).
      destruct failure'; simpl; lia.
    + injection H as <- <- <-. simpl. lia.
Qed.

Lemma requests_of_attempts texts :
  tts_requests (map TTS_request texts) = texts
  /\ Forall (fun x => is_request x = true) (map TTS_request texts).
Proof.
  induction texts as [|t texts [IH1 IH2]]; [split; [reflexivity | constructor]|].
  split; [simpl; f_equal; exact IH1 | constructor; [reflexivity | exact IH2]].
Qed.

Lemma entries_sentences sentences : forall k audios,
  length audios = length sentences ->
  map sentence (entries_from k sentences audios) = sentences
  /\ map ttsBase64 (entries_from k sentences audios) = audios
  /\ map sentenceIndex (entries_from k sentences audios) =
     indices_from k (length sentences).
Proof.
  induction sentences as [|s sentences IH]; intros k [|a audios] H;
    try discriminate; [repeat split|].
  injection H as H. destruct (IH (k + 1) audios H) as [H1 [H2 H3]].
  cbn [entries_from map length sentence ttsBase64 sentenceIndex].
  rewrite H1, H2, H3, indices_from_S. repeat split.
Qed.

(** The loop of the aggregate endpoint asks for the sentences that are
    not too short, in turn, and stops at the first failure. *)
Lemma aggregate_loop_eq rest : forall i results w,
  collect i results rest w =
  let '(w', audios, failure) := speak w (spoken rest) in
  (w', map TTS_request (attempted (spoken rest) audios failure),
   match failure with
   | None => Ok (results ++ entries_from (len results + 1) (spoken rest) audios)
   | Some e => Throw e
   end).
Proof.
  induction rest as [|s rest IH]; intros i results w.
  - simpl. unfold ret. now rewrite app_nil_r.
  - destruct (tooShort s) eqn:Es.
    + rewrite (aggregate_loop_short World tts_service) by exact Es.
      unfold spoken. simpl. rewrite Es. simpl. apply IH.
    + rewrite (aggregate_loop_spoken World tts_service) by exact Es.
      unfold spoken. cbn [filter]. rewrite Es. cbn [negb speak_all].
      fold (spoken rest).
      destruct (tts_service w s) as [w1 [a|e]]; [|reflexivity].
      rewrite IH.
      destruct (speak w1 (spoken rest)) as [[w2 audios] failure].
      f_equal. destruct failure; [reflexivity|].
      rewrite <- app_assoc. cbn [app entries_from]. rewrite len_app.
      reflexivity.
Qed.

Lemma preview_strings results :
  (forallb Val.isString (map ttsBase64 results) = true ->
   exists previews,
     map_result preview results = Ok previews
     /\ map sentence previews = map sentence results
     /\ map sentenceIndex previews = map sentenceIndex results)
  /\ (forallb Val.isString (map ttsBase64 results) = false ->
      map_result preview results = Throw TypeError).
Proof.
  induction results as [|r rs [IH1 IH2]].
  - split; [intros _; exists []; repeat split | discriminate].
  - cbn [map forallb map_result]. unfold preview at 1 3.
    destruct (ttsBase64 r); cbn [Val.isString substring_to andb];
      try (split; [discriminate | reflexivity]).
    split.
    + intros H. destruct (IH1 H) as [ps [E [Hs Hi]]]. rewrite E.
      eexists. split; [reflexivity|]. cbn [map sentence sentenceIndex].
      now rewrite Hs, Hi.
    + intros H. now rewrite (IH2 H).
Qed.

(** X19. Every aggregate run, whatever the request and whatever the
    collaborators do, ends without throwing and answers once: its last
    effect is the one JSON response, and all before it are requests to
    the collaborators. The status is 400 exactly when there is no file,
    and then no request is made; a status 200 carries one entry for each
    TTS request made, for the same sentences in the same order, with the
    previews of these entries. *)
Theorem aggregate_run_answers_once (req : request) (w : World) :
  exists w' before status b,
    aggregate req w = (w', before ++ [res_json status b], Ok tt)
    /\ Forall (fun x => is_request x = true) before
    /\ ((status = 400 /\ req_file req = None /\ before = []
         /\ b = failed (Error (lit "No audio file provided")))
        \/ (status = 500 /\ req_file req <> None /\ exists e, b = failed e)
        \/ (status = 200 /\ req_file req <> None
            /\ exists sttText n acc results previews,
                 b = succeeded sttText (sttOptions_of req) n acc previews results
                 /\ map_result preview results = Ok previews
                 /\ map sentence results = tts_requests before
                 /\ tts_requests before = spoken (Webhook.splitIntoSentences acc))).
Proof.
  unfold process_recording.
  destruct (req_file req) as [f|] eqn:Ef.
  2:{ exists w, [], 400, (failed (Error (lit "No audio file provided"))).
      split; [reflexivity|]. split; [constructor|]. left. repeat split. }
  cbv [try_catch mbind perform lift].
  pose proof (convertAudioToText_trace World stt_post (file_buffer f)
                (mimeType_of f) (sttOptions_of req) w) as Ht.
  destruct (stt (file_buffer f) (mimeType_of f) (sttOptions_of req) w)
    as [[w1 l1] [sttText|e]] eqn:Hstt; simpl in Ht; subst l1.
  2:{ eexists w1, [_], 500, (failed e). split; [reflexivity|].
      split; [repeat constructor|]. right. left.
      split; [reflexivity|]. split; [discriminate | eauto]. }
  destruct (convertAudioToText_printable World stt_post _ _ _ _ _ _ _ Hstt)
    as [printed Hp].
  rewrite Hp.
  pose proof (callWebhookStream_trace World JSON_parse webhook_post sttText w1)
    as Hb.
  destruct (backend sttText w1) as [[w2 l2] [responses|e]]; simpl in Hb; subst l2.
  2:{ eexists w2, [_; _], 500, (failed e). split; [reflexivity|].
      split; [repeat constructor|]. right. left.
      split; [reflexivity|]. split; [discriminate | eauto]. }
  destruct (Webhook.accumulate [] responses) as [acc|e].
  2:{ eexists w2, [_; _], 500, (failed e). split; [reflexivity|].
      split; [repeat constructor|]. right. left.
      split; [reflexivity|]. split; [discriminate | eauto]. }
  rewrite aggregate_loop_eq.
  set (sentences := spoken (Webhook.splitIntoSentences acc)).
  destruct (speak w2 sentences) as [[w3 audios] [e|]] eqn:Es.
  - eexists w3, (_ :: _ :: map TTS_request (attempted sentences audios (Some e))),
            500, (failed e).
    split; [reflexivity|].
    split; [repeat constructor; apply requests_of_attempts|]. right. left.
    split; [reflexivity|]. split; [discriminate | eauto].
  - pose proof (speak_length _ _ _ _ _ Es) as Hlen. cbn [app] in *.
    assert (Ha : attempted sentences audios None = sentences).
    { unfold attempted. rewrite Nat.add_0_r, Hlen. apply firstn_all. }
    rewrite Ha.
    destruct (entries_sentences sentences 1 audios Hlen) as [H1 _].
    destruct (map_result preview (entries_from (len (@nil tts_entry) + 1)
                                                sentences audios))
      as [previews|e] eqn:Ep.
    + eexists w3, (_ :: _ :: map TTS_request sentences), 200, _.
      split; [first [reflexivity | rewrite ?app_nil_r; reflexivity]|].
      split; [repeat constructor; apply requests_of_attempts|]. right. right.
      split; [reflexivity|]. split; [discriminate|].
      eexists _, _, _, _, _. split; [reflexivity|]. split; [exact Ep|].
      cbn [tts_requests flat_map app].
      change (flat_map _ ?l) with (tts_requests l).
      rewrite (proj1 (requests_of_attempts sentences)).
      split; [exact H1 | reflexivity].
    + eexists w3, (_ :: _ :: map TTS_request sentences), 500, (failed e).
      split; [first [reflexivity | rewrite ?app_nil_r; reflexivity]|].
      split; [repeat constructor; apply requests_of_attempts|]. right. left.
      split; [reflexivity|]. split; [discriminate | eauto].
Qed.

(** X20. Once the transcript, the backend messages and their text are
    there, the aggregate run asks TTS for the sentences that are not too
    short, one after the other, and stops at the first call that fails:
    it then answers 500 with that error and the sentences after it are
    never asked for. When no call fails it has one entry for each of
    these sentences, numbered from 1, with what the call returned; it
    answers 200 with them when every value returned is a string, and 500
    with a [TypeError], after all the calls, when one is not. *)
Theorem aggregate_run_stops_at_first_failure
    (req : request) (f : file) (w0 w1 w2 w3 : World) (l1 l2 : list effect)
    (sttText : jsval) (responses : list jsval) (acc : jsstring)
    (audios : list jsval) (failure : option exn) :
  req_file req = Some f ->
  stt (file_buffer f) (mimeType_of f) (sttOptions_of req) w0 = (w1, l1, Ok sttText) ->
  backend sttText w1 = (w2, l2, Ok responses) ->
  Webhook.accumulate [] responses = Ok acc ->
  speak w2 (spoken (Webhook.splitIntoSentences acc)) = (w3, audios, failure) ->
  let sentences := spoken (Webhook.splitIntoSentences acc) in
  let results := entries_from 1 sentences audios in
  aggregate req w0 =
    (w3,
     [STT_request (file_buffer f) (mimeType_of f) (sttOptions_of req);
      Webhook_request sttText]
     ++ map TTS_request (attempted sentences audios failure)
     ++ [match failure with
         | Some e => res_json 500 (failed e)
         | None =>
             match map_result preview results with
             | Ok previews =>
                 res_json 200
                   (succeeded sttText (sttOptions_of req) (len responses) acc
                      previews results)
             | Throw e => res_json 500 (failed e)
             end
         end],
     Ok tt)
  /\ match failure with
     | Some _ => (length audios < length sentences)%nat
                 /\ attempted sentences audios failure
                    = firstn (S (length audios)) sentences
     | None => attempted sentences audios failure = sentences
               /\ map sentence results = sentences
               /\ map ttsBase64 results = audios
               /\ map sentenceIndex results = indices_from 1 (length sentences)
               /\ (forallb Val.isString audios = true ->
                   exists previews,
                     map_result preview results = Ok previews
                     /\ map sentence previews = sentences)
               /\ (forallb Val.isString audios = false ->
                   map_result preview results = Throw TypeError)
     end.
Proof.
  intros Hf Hstt Hweb Hacc Hs sentences results.
  assert (Hl1 : l1 = [STT_request (file_buffer f) (mimeType_of f) (sttOptions_of req)]).
  { pose proof (convertAudioToText_trace World stt_post (file_buffer f)
                  (mimeType_of f) (sttOptions_of req) w0) as Ht.
    rewrite Hstt in Ht. exact Ht. }
  assert (Hl2 : l2 = [Webhook_request sttText]).
  { pose proof (callWebhookStream_trace World JSON_parse webhook_post sttText w1)
      as Ht.
    rewrite Hweb in Ht. exact Ht. }
  subst l1 l2.
  pose proof (speak_length _ _ _ _ _ Hs) as Hlen. fold sentences in Hlen, Hs.
  split.
  - destruct (convertAudioToText_printable World stt_post _ _ _ _ _ _ _ Hstt)
      as [printed Hp].
    unfold process_recording. rewrite Hf.
    cbv [try_catch mbind perform lift]. rewrite Hstt, Hp, Hweb, Hacc.
    rewrite aggregate_loop_eq. fold sentences. rewrite Hs.
    destruct failure as [e|]; [reflexivity|].
    change (entries_from (len (@nil tts_entry) + 1) sentences audios)
      with results.
    cbn [app]. destruct (map_result preview results);
      first [reflexivity | rewrite ?app_nil_r; reflexivity].
  - destruct failure as [e|].
    + split; [exact Hlen|]. unfold attempted. f_equal. lia.
    + destruct (entries_sentences sentences 1 audios Hlen) as [H1 [H2 H3]].
      fold results in H1, H2, H3.
      destruct (preview_strings results) as [P1 P2]. rewrite H2 in P1, P2.
      split; [unfold attempted; rewrite Nat.add_0_r, Hlen; apply firstn_all|].
      split; [exact H1|]. split; [exact H2|]. split; [exact H3|].
      split; [|exact P2].
      intros Hstr. destruct (P1 Hstr) as [ps [E [Es _]]].
      exists ps. split; [exact E | now rewrite Es].
Qed.

End MorePipelines.

Lemma success_count_counts_the_calls_that_returned_witness :
  exists l,
    stream_loop tts_number (len [lit "One."]) 0 0 [lit "One."] O
    = (1%nat, l, Ok 1)
    /\ len (result_entries l) = 0.
Proof.
  destruct (success_count_counts_the_calls_that_returned nat tts_number
              [lit "One."] O 1%nat [Ok (JNum (lit "123"))] eq_refl)
    as [l [sc [H [Hsc [Hres _]]]]].
  exists l. subst sc. split; [exact H | exact Hres].
Defined.

Lemma aggregate_run_stops_at_first_failure_witness :
  process_recording not_json (stt_hears (lit "hello"))
    (backend_says (lit "One. Two. Three.")) tts_fails_second upload O =
  (2%nat,
   [STT_request (lit "RIFF") (lit "audio/wav") (sttOptions_of upload);
    Webhook_request (JStr (lit "hello"));
    TTS_request (lit "One."); TTS_request (lit "Two.");
    res_json 500
      (failed (Error (lit "TTS conversion failed: timeout of 30000ms exceeded")))],
   Ok tt).
Proof.
  exact (proj1 (aggregate_run_stops_at_first_failure nat not_json
                  (stt_hears (lit "hello")) (backend_says (lit "One. Two. Three."))
                  tts_fails_second upload
                  {| file_buffer := lit "RIFF"; mimetype := lit "audio/wav" |}
                  O O O 2%nat
                  [STT_request (lit "RIFF") (lit "audio/wav") (sttOptions_of upload)]
                  [Webhook_request (JStr (lit "hello"))]
                  (JStr (lit "hello"))
                  [JObj [(lit "text", JStr (lit "One. Two. Three."))]]
                  (lit "One. Two. Three.")
                  [JStr audio]
                  (Some (Error (lit "TTS conversion failed: timeout of 30000ms exceeded")))
                  eq_refl eq_refl eq_refl eq_refl eq_refl)).
Defined.


End RouteMore.

(** ** The audio endpoints and [convertMultipleTextsToSpeech] *)

Module AudioMore.

Import JSFacts Routes RouteFacts Runs RouteMore AudioRoutes.

Section AudioPipelines.

Variable World : Type.
Variable JSON_parse : jsstring -> option jsval.
Variable stt_post :
  World -> list Z -> jsstring -> sttOptions -> World * result jsval.
Variable webhook_post :
  World -> jsval -> World * result (list (list Z) * Webhook.finish).
Variable tts_service : World -> jsstring -> World * result jsval.
Variable base64_decode : jsstring -> list Z.
Variable base64_encode : list Z -> jsstring.
Variable Buffer_from_object : jsval -> result (list Z).

Local Abbreviation stt := (convertAudioToText stt_post).
Local Abbreviation backend := (callWebhookStream JSON_parse webhook_post).
Local Abbreviation speak := (speak_all tts_service).
Local Abbreviation audio_route :=
  (process_recording_audio JSON_parse stt_post webhook_post tts_service).
Local Abbreviation merged_route :=
  (process_recording_audio_merged JSON_parse stt_post webhook_post tts_service
     base64_decode base64_encode Buffer_from_object).
Local Abbreviation decode := (Buffer_from base64_decode Buffer_from_object).
Local Abbreviation speak_buffers := (speak_decoded tts_service decode).

(** *** The three loops *)

Lemma texts_loop_eq texts : forall results w,
  texts_loop tts_service results texts w =
  let '(w', audios, failure) := speak w texts in
  (w', map TTS_request (attempted texts audios failure),
   match failure with
   | None => Ok (results ++ audios)
   | Some e => Throw e
   end).
Proof.
  induction texts as [|t texts IH]; intros results w.
  - simpl. unfold ret. now rewrite app_nil_r.
  - cbn [texts_loop speak_all]. cbv [mbind convertTextToSpeech perform].
    destruct (tts_service w t) as [w1 [a|e]]; [|reflexivity].
    rewrite IH. destruct (speak w1 texts) as [[w2 audios] failure].
    f_equal. destruct failure; [reflexivity|]. now rewrite <- app_assoc.
Qed.

Lemma audios_loop_eq rest : forall audios w,
  audios_loop tts_service audios rest w =
  let '(w', new, failure) := speak w (spoken rest) in
  (w', map TTS_request (attempted (spoken rest) new failure),
   match failure with
   | None => Ok (audios ++ new)
   | Some e => Throw e
   end).
Proof.
  induction rest as [|s rest IH]; intros audios w.
  - simpl. unfold ret. now rewrite app_nil_r.
  - cbn [audios_loop]. unfold spoken. cbn [filter].
    destruct (tooShort s) eqn:Es; cbn [negb]; fold (spoken rest); [apply IH|].
    cbn [speak_all]. cbv [mbind convertTextToSpeech perform].
    destruct (tts_service w s) as [w1 [a|e]]; [|reflexivity].
    rewrite IH. destruct (speak w1 (spoken rest)) as [[w2 new] failure].
    f_equal. destruct failure; [reflexivity|]. now rewrite <- app_assoc.
Qed.

Lemma buffers_loop_eq rest : forall audioBuffers totalAudioSize w,
  buffers_loop tts_service base64_decode Buffer_from_object
    audioBuffers totalAudioSize rest w =
  let '(w', new, failure) := speak_buffers w (spoken rest) in
  (w', map TTS_request (attempted (spoken rest) new failure),
   match failure with
   | None => Ok (audioBuffers ++ new, totalAudioSize + len (concat new))
   | Some e => Throw e
   end).
Proof.
  induction rest as [|s rest IH]; intros audioBuffers totalAudioSize w.
  - simpl. unfold ret. rewrite app_nil_r. do 3 f_equal. unfold len. simpl. lia.
  - cbn [buffers_loop]. unfold spoken. cbn [filter].
    destruct (tooShort s) eqn:Es; cbn [negb]; fold (spoken rest); [apply IH|].
    cbn [speak_decoded]. cbv [mbind convertTextToSpeech perform lift].
    destruct (tts_service w s) as [w1 [a|e]]; [|reflexivity].
    destruct (decode a) as [buffer|e]; [|reflexivity].
    rewrite IH. destruct (speak_buffers w1 (spoken rest)) as [[w2 new] failure].
    f_equal. destruct failure; [reflexivity|].
    cbn [concat app]. rewrite <- app_assoc, len_app. cbn [app].
    do 2 f_equal. lia.
Qed.

Lemma speak_decoded_length texts : forall w w' (buffers : list (list Z)) failure,
  speak_buffers w texts = (w', buffers, failure) ->
  match failure with
  | None => length buffers = length texts
  | Some _ => (length buffers < length texts)%nat
  end.
Proof.
  induction texts as [|t texts IH]; intros w w' buffers failure H; simpl in H.
  - injection H as <- <- <-. reflexivity.
  - destruct (tts_service w t) as [w1 [a|e]].
    + destruct (decode a) as [b|e].
      * destruct (speak_buffers w1 texts) as [[w2 bs] failure'] eqn:E.
        injection H as <- <- <-. specialize (IH _ _ _ _ E).
        destruct failure'; simpl; lia.
      * injection H as <- <- <-. simpl. lia.
    + injection H as <- <- <-. simpl. lia.
Qed.

(** Decoding as they come and decoding at the end stop at the same
    place when every audio is a string. *)
Lemma speak_decoded_strings texts : forall w w' audios failure,
  speak w texts = (w', audios, failure) ->
  forallb Val.isString audios = true ->
  exists buffers,
    speak_buffers w texts = (w', buffers, failure)
    /\ map decode audios = map Ok buffers.
Proof.
  induction texts as [|t texts IH]; intros w w' audios failure H Hstr;
    simpl in H.
  - injection H as <- <- <-. exists []. split; reflexivity.
  - cbn [speak_decoded]. destruct (tts_service w t) as [w1 [a|e]].
    + destruct (speak w1 texts) as [[w2 audios'] failure'] eqn:E.
      injection H as <- <- <-. cbn [forallb] in Hstr.
      apply andb_true_iff in Hstr. destruct Hstr as [Ha Hrest].
      destruct a; try discriminate. cbn [Buffer_from].
      destruct (IH _ _ _ _ E Hrest) as [bs [Hb Hm]]. rewrite Hb.
      eexists. split; [reflexivity|]. cbn [map Buffer_from]. now rewrite Hm.
    + injection H as <- <- <-. exists []. split; reflexivity.
Qed.

(** *** [convertMultipleTextsToSpeech] *)

(** X21. [convertMultipleTextsToSpeech] is all or nothing: it asks for
    the texts in order, short ones included; when every request succeeds
    it returns their audios, one for each text in the same order; at the
    first failure it throws that error, returns no audio, and the texts
    after it are never asked for. *)
Theorem convertMultipleTextsToSpeech_all_or_nothing
    (texts : list jsstring) (w w' : World) (audios : list jsval)
    (failure : option exn) :
  speak w texts = (w', audios, failure) ->
  convertMultipleTextsToSpeech tts_service texts w =
    (w', map TTS_request (attempted texts audios failure),
     match failure with
     | None => Ok audios
     | Some e => Throw e
     end)
  /\ match failure with
     | None => length audios = length texts
               /\ attempted texts audios failure = texts
     | Some _ => (length audios < length texts)%nat
                 /\ attempted texts audios failure
                    = firstn (S (length audios)) texts
     end.
Proof.
  intros Hs. pose proof (speak_length _ _ _ _ _ _ _ Hs) as Hlen. split.
  - unfold convertMultipleTextsToSpeech, try_catch. rewrite texts_loop_eq, Hs.
    destruct failure; [unfold throw; now rewrite app_nil_r | reflexivity].
  - destruct failure as [e|].
    + split; [exact Hlen|]. unfold attempted. f_equal. lia.
    + split; [exact Hlen|].
      unfold attempted. rewrite Nat.add_0_r, Hlen. apply firstn_all.
Qed.

(** *** The audio endpoint, first version *)

(** X22. Once the transcript, the backend messages and their text are
    there, [POST /process-recording-audio] asks TTS for every sentence
    that is not too short, whatever the format, and stops at the first
    failure with a 500. When none fails, the format [single], also taken
    when the query has no format or an empty one, returns the audio of
    the first of these sentences alone; any other format, or no such
    sentence at all, returns all the audios with their count. *)
Theorem audio_run_outcome
    (req : audio_request) (f : file) (w0 w1 w2 w3 : World) (l1 l2 : list effect)
    (sttText : jsval) (responses : list jsval) (acc : jsstring)
    (audios : list jsval) (failure : option exn) :
  req_file (request_of req) = Some f ->
  stt (file_buffer f) (mimeType_of f) (sttOptions_of (request_of req)) w0
    = (w1, l1, Ok sttText) ->
  backend sttText w1 = (w2, l2, Ok responses) ->
  Webhook.accumulate [] responses = Ok acc ->
  speak w2 (spoken (Webhook.splitIntoSentences acc)) = (w3, audios, failure) ->
  let sentences := spoken (Webhook.splitIntoSentences acc) in
  audio_route req w0 =
    (w3,
     [STT_request (file_buffer f) (mimeType_of f) (sttOptions_of (request_of req));
      Webhook_request sttText]
     ++ map TTS_request (attempted sentences audios failure),
     Ok (match failure with
         | Some e => (500, audio_failed e)
         | None =>
             match audios with
             | first :: _ =>
                 if eqb (format_of req) (lit "single")
                 then (200, single_audio first)
                 else (200, all_audios (len sentences) audios)
             | [] => (200, all_audios 0 [])
             end
         end))
  /\ (failure = None ->
      attempted sentences audios failure = sentences
      /\ length audios = length sentences)
  /\ (eqb (format_of req) (lit "single") = true
      <-> query_format req = None \/ query_format req = Some []
          \/ query_format req = Some (lit "single")).
Proof.
  intros Hf Hstt Hweb Hacc Hs sentences.
  assert (Hl1 : l1 = [STT_request (file_buffer f) (mimeType_of f)
                        (sttOptions_of (request_of req))]).
  { pose proof (convertAudioToText_trace World stt_post (file_buffer f)
                  (mimeType_of f) (sttOptions_of (request_of req)) w0) as Ht.
    rewrite Hstt in Ht. exact Ht. }
  assert (Hl2 : l2 = [Webhook_request sttText]).
  { pose proof (callWebhookStream_trace World JSON_parse webhook_post sttText w1)
      as Ht.
    rewrite Hweb in Ht. exact Ht. }
  subst l1 l2.
  pose proof (speak_length _ _ _ _ _ _ _ Hs) as Hlen. fold sentences in Hlen, Hs.
  split; [|split].
  - destruct (convertAudioToText_printable World stt_post _ _ _ _ _ _ _ Hstt)
      as [printed Hp].
    unfold process_recording_audio. rewrite Hf.
    cbv [try_catch mbind perform lift]. rewrite Hstt, Hp, Hweb, Hacc.
    rewrite audios_loop_eq. fold sentences. rewrite Hs.
    destruct failure as [e|]; [unfold ret; now rewrite !app_nil_r|].
    cbn [app]. unfold ret.
    destruct audios as [|first audios].
    + rewrite andb_false_r. rewrite !app_nil_r. reflexivity.
    + assert (Hpos : (0 <? len (first :: audios)) = true)
        by (apply Z.ltb_lt; unfold len; simpl length; lia).
      rewrite Hpos, andb_true_r.
      assert (Hn : len (first :: audios) = len sentences)
        by (unfold len; now rewrite Hlen).
      rewrite Hn.
      destruct (eqb (format_of req) (lit "single")); rewrite !app_nil_r;
        reflexivity.
  - intros ->. split; [|exact Hlen].
    unfold attempted. rewrite Nat.add_0_r, Hlen. apply firstn_all.
  - unfold format_of. destruct (query_format req) as [[|c s]|].
    + split; [auto | reflexivity].
    + rewrite eqb_eq. split.
      * intros E. right. right. now rewrite E.
      * intros [H|[H|H]]; try discriminate. injection H as -> ->. reflexivity.
    + split; [auto | reflexivity].
Qed.

(** *** The audio endpoint, second version *)

(** X23. Once the transcript, the backend messages and their text are
    there, the merging [POST /process-recording-audio] asks TTS for the
    sentences that are not too short, decoding each audio as it comes,
    and stops with a 500 at the first call that fails or the first value
    that does not decode (a number, a boolean, [null]). Otherwise it
    answers with the count of these sentences, whether or not their
    audios hold a data chunk, and with the encoding of one WAV: the
    44-byte header followed by the payloads of the decoded audios in
    order; with no such sentence that is the header alone. A merged
    payload too large for the 32-bit size field also gives a 500. When
    every value returned is a string, the run stops exactly where the
    calls do. *)
Theorem merged_audio_run_outcome
    (req : request) (f : file) (w0 w1 w2 w3 : World) (l1 l2 : list effect)
    (sttText : jsval) (responses : list jsval) (acc : jsstring)
    (audioBuffers : list (list Z)) (failure : option exn) :
  req_file req = Some f ->
  stt (file_buffer f) (mimeType_of f) (sttOptions_of req) w0
    = (w1, l1, Ok sttText) ->
  backend sttText w1 = (w2, l2, Ok responses) ->
  Webhook.accumulate [] responses = Ok acc ->
  speak_buffers w2 (spoken (Webhook.splitIntoSentences acc))
    = (w3, audioBuffers, failure) ->
  let sentences := spoken (Webhook.splitIntoSentences acc) in
  let combinedAudioData := concat (map Wav.payload audioBuffers) in
  merged_route req w0 =
    (w3,
     [STT_request (file_buffer f) (mimeType_of f) (sttOptions_of req);
      Webhook_request sttText]
     ++ map TTS_request (attempted sentences audioBuffers failure),
     Ok (match failure with
         | Some e => (500, audio_failed e)
         | None =>
             if 36 + len combinedAudioData <=? 4294967295
             then (200, merged_audio (len sentences)
                          (base64_encode (WavFile.wav combinedAudioData)))
             else (500, audio_failed RangeError)
         end))
  /\ (sentences = [] ->
      failure = None /\ WavFile.wav combinedAudioData = Wav.header 0)
  /\ (forall w' audios called,
        speak w2 sentences = (w', audios, called) ->
        forallb Val.isString audios = true ->
        w3 = w' /\ failure = called
        /\ map decode audios = map Ok audioBuffers)
  /\ (forall text value,
        sentences = [text] ->
        tts_service w2 text = (w3, Ok value) ->
        decode value = Throw TypeError ->
        failure = Some TypeError).
Proof.
  intros Hf Hstt Hweb Hacc Hs sentences combinedAudioData.
  assert (Hl1 : l1 = [STT_request (file_buffer f) (mimeType_of f)
                        (sttOptions_of req)]).
  { pose proof (convertAudioToText_trace World stt_post (file_buffer f)
                  (mimeType_of f) (sttOptions_of req) w0) as Ht.
    rewrite Hstt in Ht. exact Ht. }
  assert (Hl2 : l2 = [Webhook_request sttText]).
  { pose proof (callWebhookStream_trace World JSON_parse webhook_post sttText w1)
      as Ht.
    rewrite Hweb in Ht. exact Ht. }
  subst l1 l2.
  pose proof (speak_decoded_length _ _ _ _ _ Hs) as Hlen.
  fold sentences in Hlen, Hs.
  split; [|split; [|split]].
  - destruct (convertAudioToText_printable World stt_post _ _ _ _ _ _ _ Hstt)
      as [printed Hp].
    unfold process_recording_audio_merged. rewrite Hf.
    cbv [try_catch mbind perform lift]. rewrite Hstt, Hp, Hweb, Hacc.
    rewrite buffers_loop_eq. fold sentences. rewrite Hs.
    destruct failure as [e|]; [unfold ret; now rewrite !app_nil_r|].
    cbn [app fst]. rewrite WavFacts.recombine_eq. fold combinedAudioData.
    assert (Hn : len audioBuffers = len sentences)
      by (unfold len; now rewrite Hlen).
    rewrite Hn.
    destruct (Z.leb_spec (36 + len combinedAudioData) 4294967295) as [Hfit|Hbig].
    + rewrite WavFacts.buildWav_header by exact Hfit. unfold ret.
      rewrite !app_nil_r. reflexivity.
    + rewrite WavFacts.buildWav_too_large by exact Hbig. unfold ret.
      rewrite !app_nil_r. reflexivity.
  - intros E. rewrite E in Hs. simpl in Hs. injection Hs as _ <- <-.
    split; reflexivity.
  - intros w' audios called Hsp Hstr.
    destruct (speak_decoded_strings _ _ _ _ _ Hsp Hstr) as [bs [Hb Hm]].
    rewrite Hs in Hb. injection Hb as <- <- <-.
    split; [reflexivity|]. split; [reflexivity | exact Hm].
  - intros text value E Hcall Hdec. rewrite E in Hs. cbn [speak_decoded] in Hs.
    rewrite Hcall, Hdec in Hs. injection Hs as _ <-. reflexivity.
Qed.

End AudioPipelines.

Lemma convertMultipleTextsToSpeech_all_or_nothing_witness :
  convertMultipleTextsToSpeech tts_fails_second
    [lit "One."; lit "."; lit "Three."] O =
  (2%nat, [TTS_request (lit "One."); TTS_request (lit ".")],
   Throw (Error (lit "TTS conversion failed: timeout of 30000ms exceeded"))).
Proof.
  exact (proj1 (convertMultipleTextsToSpeech_all_or_nothing nat tts_fails_second
                  [lit "One."; lit "."; lit "Three."] O 2%nat [JStr audio]
                  (Some (Error (lit "TTS conversion failed: timeout of 30000ms exceeded")))
                  eq_refl)).
Defined.

Lemma audio_run_outcome_witness :
  process_recording_audio not_json (stt_hears (lit "hello"))
    (backend_says (lit "One. Two. Three.")) tts_up (audio_upload None) O =
  (3%nat,
   [STT_request (lit "RIFF") (lit "audio/wav") (sttOptions_of upload);
    Webhook_request (JStr (lit "hello"));
    TTS_request (lit "One."); TTS_request (lit "Two.");
    TTS_request (lit "Three.")],
   Ok (200, single_audio (JStr audio))).
Proof.
  exact (proj1 (audio_run_outcome nat not_json
                  (stt_hears (lit "hello")) (backend_says (lit "One. Two. Three."))
                  tts_up (audio_upload None)
                  {| file_buffer := lit "RIFF"; mimetype := lit "audio/wav" |}
                  O O O 3%nat
                  [STT_request (lit "RIFF") (lit "audio/wav") (sttOptions_of upload)]
                  [Webhook_request (JStr (lit "hello"))]
                  (JStr (lit "hello"))
                  [JObj [(lit "text", JStr (lit "One. Two. Three."))]]
                  (lit "One. Two. Three.")
                  [JStr audio; JStr audio; JStr audio] None
                  eq_refl eq_refl eq_refl eq_refl eq_refl)).
Defined.

Lemma merged_audio_run_outcome_witness :
  process_recording_audio_merged not_json (stt_hears (lit "hello"))
    (backend_says (lit "One. Two.")) tts_wav as_bytes as_bytes no_bytes upload O =
  (2%nat,
   [STT_request (lit "RIFF") (lit "audio/wav") (sttOptions_of upload);
    Webhook_request (JStr (lit "hello"));
    TTS_request (lit "One."); TTS_request (lit "Two.")],
   Ok (200, merged_audio 2 (WavFile.wav [21; 22; 21; 22])))
  /\ process_recording_audio_merged not_json (stt_hears (lit "hello"))
       (backend_says (lit "One. Two.")) tts_number as_bytes as_bytes no_bytes
       upload O =
     (1%nat,
      [STT_request (lit "RIFF") (lit "audio/wav") (sttOptions_of upload);
       Webhook_request (JStr (lit "hello"));
       TTS_request (lit "One.")],
      Ok (500, audio_failed TypeError)).
Proof.
  split.
  - exact (proj1 (merged_audio_run_outcome nat not_json
                    (stt_hears (lit "hello")) (backend_says (lit "One. Two."))
                    tts_wav as_bytes as_bytes no_bytes upload
                    {| file_buffer := lit "RIFF"; mimetype := lit "audio/wav" |}
                    O O O 2%nat
                    [STT_request (lit "RIFF") (lit "audio/wav") (sttOptions_of upload)]
                    [Webhook_request (JStr (lit "hello"))]
                    (JStr (lit "hello"))
                    [JObj [(lit "text", JStr (lit "One. Two."))]]
                    (lit "One. Two.")
                    [Wav.segment_two; Wav.segment_two] None
                    eq_refl eq_refl eq_refl eq_refl eq_refl)).
  - exact (proj1 (merged_audio_run_outcome nat not_json
                    (stt_hears (lit "hello")) (backend_says (lit "One. Two."))
                    tts_number as_bytes as_bytes no_bytes upload
                    {| file_buffer := lit "RIFF"; mimetype := lit "audio/wav" |}
                    O O O 1%nat
                    [STT_request (lit "RIFF") (lit "audio/wav") (sttOptions_of upload)]
                    [Webhook_request (JStr (lit "hello"))]
                    (JStr (lit "hello"))
                    [JObj [(lit "text", JStr (lit "One. Two."))]]
                    (lit "One. Two.")
                    [] (Some TypeError)
                    eq_refl eq_refl eq_refl eq_refl eq_refl)).
Defined.

End AudioMore.

(** ** From the backend stream to the text that is spoken *)

Module TextMore.

Import JSFacts Webhook StreamFacts StreamMore.

Lemma extract_plain_text (t : jsstring) :
  nonEmpty t = true ->
  extractTextFromResponse (JObj [(lit "text", JStr t)]) = Ok (JStr t).
Proof. destruct t as [|c t]; [discriminate | reflexivity]. Qed.

Lemma accumulate_plain JSON_parse lines : forall acc,
  Forall (fun line => nonEmpty (trim line) = true /\ JSON_parse line = None)
         lines ->
  accumulate acc (map (classify JSON_parse) lines) =
  Ok (acc ++ concat (map trim lines)).
Proof.
  induction lines as [|line lines IH]; intros acc H.
  - simpl. now rewrite app_nil_r.
  - inversion H as [|x xs [Hne Hp] Hrest]; subst.
    cbn [map accumulate concat]. unfold classify at 1. rewrite Hp.
    rewrite (extract_plain_text _ Hne). cbn [bind].
    assert (Ht : Val.truthy (JStr (trim line)) = true).
    { destruct (trim line); [discriminate | reflexivity]. }
    rewrite Ht. cbn [Val.toString bind]. rewrite (IH _ Hrest).
    now rewrite app_assoc.
Qed.

(** X24. When the backend answers in plain text, that is when no line
    of the body that is not blank parses as JSON, the text that goes on
    to the sentence splitter is the lines that are not blank, each
    trimmed, put end to end with nothing between them: the line breaks
    are lost and the last word of a line touches the first of the next. *)
Theorem plain_text_lines_are_glued
    (JSON_parse : jsstring -> option jsval) (chunks : list (list Z)) :
  let text := concat (map Utf8.toString chunks) in
  let lines := filter (fun line => nonEmpty (trim line)) (split NL text) in
  Forall (fun line => JSON_parse line = None) lines ->
  bind (callWebhookStream JSON_parse (Ok (chunks, End))) (accumulate []) =
  Ok (concat (map trim lines)).
Proof.
  intros text lines H. cbn [callWebhookStream]. rewrite consume_lines.
  cbn [bind]. unfold emitted. fold text. fold lines.
  rewrite accumulate_plain; [reflexivity|].
  apply Forall_forall. intros line Hin. split.
  - apply filter_In in Hin. tauto.
  - rewrite Forall_forall in H. now apply H.
Qed.

Lemma plain_text_lines_are_glued_witness :
  bind (callWebhookStream Routes.not_json
          (Ok ([lit "Hello " ++ [NL]; [NL] ++ lit "  world."], End)))
       (accumulate []) =
  Ok (lit "Helloworld.").
Proof.
  apply (plain_text_lines_are_glued Routes.not_json
           [lit "Hello " ++ [NL]; [NL] ++ lit "  world."]).
  repeat (first [apply Forall_nil | apply Forall_cons]); reflexivity.
Defined.

End TextMore.
